(** * QuickShow: the show controller (server/controllers/showController.js)

    A shallow embedding of the controller's four request handlers and of
    the retry policy it installs on its HTTP client, followed by the
    properties of the show-ingestion and query pipeline.

    Layout:
    - [JsVal]: the JSON values a request body or a provider reply carries,
      with the ECMAScript conversions the controller applies to them;
    - the axios-retry configuration and the retry loop it drives;
    - the world (movie and show collections, provider log) and the
      exception-and-state monad the handlers run in;
    - [makeTmdbRequest], [addShow], [getShows], [getShow];
    - the theorems. *)

From Stdlib Require Import ZArith List String Ascii Bool Lia Arith DecimalString.
From Stdlib Require Import Permutation Sorted.
Import ListNotations.
Open Scope string_scope.
Open Scope list_scope.

Set Warnings "-register-all".

(** ** JSON values as JavaScript sees them *)

(** A value of a parsed JSON document, or [undefined] for a property that
    is absent.  Numbers: [JNum n] is an integral Number in the safe range;
    any other Number (a fraction, a magnitude of 1e21 or more, Infinity)
    is [JNumLit s], carried by the spelling [s] that Number::toString
    gives it.  Such a number is never zero, so it is truthy, and two of
    them are the same Number exactly when their spellings agree.  Negative
    zero is [JNum 0]: it is falsy and prints as 0 like positive zero. *)
Inductive JsVal : Type :=
| JUndefined
| JNull
| JBool (b : bool)
| JNum (n : Z)
| JNumLit (spelling : string)
| JStr (s : string)
| JArr (items : list JsVal)
| JObj (props : list (string * JsVal)).

(** ToBoolean: what [!v] and [v || w] test. *)
Definition ToBoolean (v : JsVal) : bool :=
  match v with
  | JUndefined | JNull => false
  | JBool b => b
  | JNum n => negb (n =? 0)%Z
  | JNumLit _ => true
  | JStr s => negb (s =? EmptyString)
  | JArr _ | JObj _ => true
  end.

(** Own-property lookup in a parsed object. *)
Fixpoint own_prop (props : list (string * JsVal)) (name : string) : option JsVal :=
  match props with
  | [] => None
  | (k, v) :: rest => if k =? name then Some v else own_prop rest name
  end.

(** Exceptions.  A [TypeError] is raised by the language itself (reading
    a property of null, calling what is not a function); an [Error] is
    constructed by the controller or raised by a library. *)
Inductive Exn : Type :=
| TypeError (message : string)
| Error (message : string).

Definition exn_message (e : Exn) : string :=
  match e with
  | TypeError m => m
  | Error m => m
  end.

(** Results of computations that can throw but touch no state. *)
Definition Res (A : Type) : Type := (A + Exn)%type.

Definition res_bind {A B} (r : Res A) (k : A -> Res B) : Res B :=
  match r with
  | inl a => k a
  | inr e => inr e
  end.

(** [v.name], for a property name that no built-in prototype defines
    (every name the controller reads is of that kind): a parsed object
    answers with its own property, every other value with [undefined],
    and reading from [undefined] or [null] throws. *)
Definition get_prop (v : JsVal) (name : string) : Res JsVal :=
  match v with
  | JUndefined => inr (TypeError ("Cannot read properties of undefined (reading '" ++ name ++ "')")%string)
  | JNull => inr (TypeError ("Cannot read properties of null (reading '" ++ name ++ "')")%string)
  | JObj props =>
      match own_prop props name with
      | Some w => inl w
      | None => inl JUndefined
      end
  | _ => inl JUndefined
  end.

Definition Z_to_string (n : Z) : string := NilZero.string_of_int (Z.to_int n).

(** ToString, as a template literal applies it.  An array prints its
    elements joined by commas, [null] and [undefined] elements as the
    empty string.  A parsed object prints as [[object Object]] through
    Object.prototype.toString, unless it carries an own property named
    toString: that property is data, not a function, valueOf returns the
    object itself, and the conversion throws. *)
Fixpoint ToString (v : JsVal) : option string :=
  match v with
  | JUndefined => Some "undefined"
  | JNull => Some "null"
  | JBool true => Some "true"
  | JBool false => Some "false"
  | JNum n => Some (Z_to_string n)
  | JNumLit s => Some s
  | JStr s => Some s
  | JArr items =>
      (fix join (l : list JsVal) : option string :=
         match l with
         | [] => Some EmptyString
         | x :: rest =>
             let elem :=
               match x with
               | JUndefined | JNull => Some EmptyString
               | _ => ToString x
               end in
             match elem, rest with
             | None, _ => None
             | Some s, [] => Some s
             | Some s, _ :: _ =>
                 match join rest with
                 | Some t => Some (s ++ "," ++ t)%string
                 | None => None
                 end
             end
         end) items
  | JObj props =>
      match own_prop props "toString" with
      | Some _ => None
      | None => Some "[object Object]"
      end
  end.

(** Sameness of two values of a document: the comparison the store
    applies to identifiers. *)
Fixpoint JsVal_eqb (a b : JsVal) : bool :=
  match a, b with
  | JUndefined, JUndefined => true
  | JNull, JNull => true
  | JBool x, JBool y => Bool.eqb x y
  | JNum x, JNum y => (x =? y)%Z
  | JNumLit x, JNumLit y => x =? y
  | JStr x, JStr y => x =? y
  | JArr xs, JArr ys =>
      (fix all2 (l1 l2 : list JsVal) : bool :=
         match l1, l2 with
         | [], [] => true
         | x :: l1', y :: l2' => JsVal_eqb x y && all2 l1' l2'
         | _, _ => false
         end) xs ys
  | JObj ps, JObj qs =>
      (fix all2 (l1 l2 : list (string * JsVal)) : bool :=
         match l1, l2 with
         | [], [] => true
         | (k, x) :: l1', (k', y) :: l2' => (k =? k') && JsVal_eqb x y && all2 l1' l2'
         | _, _ => false
         end) ps qs
  | _, _ => false
  end.

Definition to_primitive_error : Exn :=
  TypeError "Cannot convert object to primitive value".

Definition ToString_res (v : JsVal) : Res string :=
  match ToString v with
  | Some s => inl s
  | None => inr to_primitive_error
  end.

(** ** The retry policy installed on the HTTP client *)

Module Retry.

(** What an axios error exposes to the policy and to [makeTmdbRequest]:
    [response] is present when the provider answered with a status
    outside 2xx, [request] when a request was sent at all. *)
Record AxiosResponse : Type := mkResponse {
  status : Z;
  data : JsVal
}.

Record AxiosError : Type := mkAxiosError {
  code : option string;
  response : option AxiosResponse;
  request : bool;
  message : string
}.

Definition code_is (e : AxiosError) (c : string) : bool :=
  match code e with
  | Some c' => c' =? c
  | None => false
  end.

Section Policy.

(** is-retry-allowed's deny list of error codes, which axios-retry's
    [isNetworkError] consults; the policy below does not depend on it. *)
Variable isRetryAllowed : AxiosError -> bool.

(** axiosRetry.isNetworkError *)
Definition isNetworkError (error : AxiosError) : bool :=
  match response error with
  | Some _ => false
  | None =>
      match code error with
      | None => false
      | Some c =>
          if (c =? "ERR_CANCELED") || (c =? "ECONNABORTED") then false
          else isRetryAllowed error
      end
  end.

(** axiosRetry.isRetryableError *)
Definition isRetryableError (error : AxiosError) : bool :=
  negb (code_is error "ECONNABORTED") &&
  match response error with
  | None => true
  | Some r =>
      (status r =? 429)%Z || ((500 <=? status r)%Z && (status r <=? 599)%Z)
  end.

(** [[429, 500, 502, 503, 504].includes(s)] *)
Definition retry_statuses : list Z := [429; 500; 502; 503; 504]%Z.

Definition includes (l : list Z) (s : Z) : bool := existsb (Z.eqb s) l.

(** retries: 3 *)
Definition retries : nat := 3.

(** retryDelay: (retryCount) => retryCount * 1000.  The counts axios-retry
    passes are the integers from 1 to [retries]; on integers of this size
    the product of JS numbers is the integer product. *)
Definition retryDelay (retryCount : Z) : Z := (retryCount * 1000)%Z.

(** retryCondition, by the truthiness of the value the arrow function
    returns. *)
Definition retryCondition (error : AxiosError) : bool :=
  isNetworkError error ||
  isRetryableError error ||
  code_is error "ECONNRESET" ||
  match response error with
  | Some r => includes retry_statuses (status r)
  | None => false
  end.

(** One attempt at a request either resolves with the reply's body or
    rejects with an axios error. *)
Inductive Attempt : Type :=
| Fulfilled (body : JsVal)
| Rejected (error : AxiosError).

(** The timeout of the request's config after an attempt that took
    [lastRequestDuration] ms, when a retry after [delay] ms is due.  The
    option [shouldResetTimeout] is not set, so the timeout of the request
    is one budget for all its attempts: the duration of the attempt and
    the delay are taken off it, and when nothing is left the retry is
    given up ([None]).  A config without a timeout (0) is left as it is. *)
Definition next_timeout (timeout lastRequestDuration delay : Z) : option Z :=
  if (timeout =? 0)%Z then Some timeout
  else
    let timeout' := (timeout - lastRequestDuration - delay)%Z in
    if (timeout' <=? 0)%Z then None else Some timeout'.

(** The response interceptor axios-retry installs.  [net k] is the outcome
    of the attempt made after [k] retries and [took k] the milliseconds
    between its sending and its rejection; [timeout] is the timeout of the
    config the attempt is sent with.  A rejected attempt is retried when
    the retry count is still below [retries], [retryCondition] holds and
    [next_timeout] leaves a timeout for the next attempt; the count is
    incremented first and [retryDelay] of the new count is slept before
    the request is sent again, with the timeout that is left.  The result
    pairs the delays slept, in order, with the final outcome. *)
Fixpoint attempts_from (net : nat -> Attempt) (took : nat -> Z)
  (remaining retryCount : nat) (timeout : Z) : list Z * Attempt :=
  match net retryCount with
  | Fulfilled body => ([], Fulfilled body)
  | Rejected error =>
      match remaining with
      | O => ([], Rejected error)
      | S remaining' =>
          if retryCondition error then
            let delay := retryDelay (Z.of_nat (S retryCount)) in
            match next_timeout timeout (took retryCount) delay with
            | None => ([], Rejected error)
            | Some timeout' =>
                let '(slept, outcome) :=
                  attempts_from net took remaining' (S retryCount) timeout' in
                (delay :: slept, outcome)
            end
          else ([], Rejected error)
      end
  end.

(** [axios.get] with a config whose timeout is [timeout]. *)
Definition axios_get (net : nat -> Attempt) (took : nat -> Z) (timeout : Z)
  : list Z * Attempt :=
  attempts_from net took retries 0 timeout.

End Policy.

End Retry.

(** ** Documents, the two collections and the world *)

(** A JavaScript Date: a time value in milliseconds since the epoch (at
    most 8.64e15 either way; nothing below depends on the bound), or the
    Invalid Date. *)
Inductive JsDate : Type :=
| TimeValue (t : Z)
| InvalidDate.

Module Movie.

(** A movie document, with the fields [addShow] writes. *)
Record Doc : Type := mkDoc {
  _id : JsVal;
  title : JsVal;
  overview : JsVal;
  poster_path : JsVal;
  backdrop_path : JsVal;
  genres : JsVal;
  casts : JsVal;
  release_date : JsVal;
  original_language : JsVal;
  tagline : JsVal;
  vote_average : JsVal;
  runtime : JsVal
}.

End Movie.

Module Show.

(** A show as [addShow] builds it, before it is saved. *)
Record Init : Type := mkInit {
  init_movie : JsVal;
  init_showDateTime : JsDate;
  init_showPrice : JsVal;
  init_occupiedSeats : list (string * JsVal)
}.

(** A saved show.  The identifier is the one the store gave it. *)
Record Doc : Type := mkDoc {
  _id : nat;
  movie : JsVal;
  showDateTime : Z;
  showPrice : JsVal;
  occupiedSeats : list (string * JsVal)
}.

End Show.

(** The state a request runs against: the two collections, the counter
    the store draws show identifiers from, and a log of what the HTTP
    client did (every attempt sent to the provider, every back-off delay
    slept). *)
Record World : Type := mkWorld {
  movies : list Movie.Doc;
  shows : list Show.Doc;
  next_oid : nat;
  requests : list string;
  slept : list Z
}.

(** The storage operations the handlers perform. *)
Inductive DbOp : Type :=
| MovieFindById
| MovieCreate
| ShowInsertMany
| ShowFind
| ShowFindPopulate.

(** What lies outside the controller.
    - [isRetryAllowed]: the deny list [isNetworkError] consults;
    - [net url k]: the outcome of the attempt sent to [url] after [k]
      retries, as axios reports it;
    - [took url k]: the milliseconds between the sending of that attempt
      and its rejection, as axios-retry measures them;
    - [credits_settle_first]: when both provider requests of [addShow]
      fail, whether the credits request is the first to reject;
    - [Date_parse]: the Date constructor applied to a string;
    - [now]: the clock read by [new Date()];
    - [db_fault op]: the error message with which the storage layer fails
      operation [op], if it does;
    - [insert_kept]: when the storage layer fails a batch insert, the
      number of documents of the batch, from its head, that it has
      written by then;
    - [Movie_validate]: the error message with which the Movie schema,
      which is not part of the controller, refuses a document. *)
Record Env : Type := mkEnv {
  isRetryAllowed : Retry.AxiosError -> bool;
  net : string -> nat -> Retry.Attempt;
  took : string -> nat -> Z;
  credits_settle_first : bool;
  Date_parse : string -> JsDate;
  now : Z;
  db_fault : DbOp -> option string;
  insert_kept : nat;
  Movie_validate : Movie.Doc -> option string
}.

(** ** Computations: state that survives an exception *)

(** A handler step transforms the world and returns a value or throws.
    What was written before a throw stays written. *)
Definition M (A : Type) : Type := World -> World * Res A.

Definition ret {A} (a : A) : M A := fun w => (w, inl a).

Definition throw {A} (e : Exn) : M A := fun w => (w, inr e).

Definition bind {A B} (c : M A) (k : A -> M B) : M B :=
  fun w =>
    match c w with
    | (w', inl a) => k a w'
    | (w', inr e) => (w', inr e)
    end.

Definition lift {A} (r : Res A) : M A := fun w => (w, r).

(** [try { body } catch (error) { handler }] *)
Definition try_catch {A} (body : M A) (handler : Exn -> M A) : M A :=
  fun w =>
    match body w with
    | (w', inl a) => (w', inl a)
    | (w', inr e) => handler e w'
    end.

Declare Scope js_scope.
Delimit Scope js_scope with js.
Notation "x <- c ;; k" := (bind c (fun x => k))
  (at level 61, c at next level, right associativity) : js_scope.
Notation "c ;;; k" := (bind c (fun _ => k))
  (at level 61, right associativity) : js_scope.
Notation "x <~ r ;; k" := (res_bind r (fun x => k))
  (at level 61, r at next level, right associativity) : js_scope.
Open Scope js_scope.

(** ** Responses *)

(** One entry of a date bucket of [getShow]: [{ time, showId }]. *)
Record Slot : Type := mkSlot {
  time : Z;
  showId : nat
}.

(** The JSON bodies the handlers send. *)
Inductive Body : Type :=
| Message (success : bool) (message : string)
| NowPlaying (results : JsVal)
| NowPlayingFailure (message error : string)
| Shows (shows_ : list (option Movie.Doc))
| Showtimes (movie_ : option Movie.Doc) (dateTime : list (string * list Slot)).

Record HttpResponse : Type := mkHttpResponse {
  statusCode : Z;
  json : Body
}.

(** [res.json(body)]: status 200 unless [res.status] was called. *)
Definition res_json (b : Body) : HttpResponse := mkHttpResponse 200 b.

(** [res.status(code).json(body)] *)
Definition res_status_json (c : Z) (b : Body) : HttpResponse := mkHttpResponse c b.

Definition succeeded (r : HttpResponse) : bool :=
  match json r with
  | Message s _ => s
  | NowPlaying _ | Shows _ | Showtimes _ _ => true
  | NowPlayingFailure _ _ => false
  end.

(** ** The controller *)

(** [const { movieId, showsInput, showPrice } = req.body], the body being
    the object the JSON middleware parsed: a field the body does not
    carry is [JUndefined]. *)
Record AddShowBody : Type := mkAddShowBody {
  movieId : JsVal;
  showsInput : JsVal;
  showPrice : JsVal
}.

(** [d?.name], for a name no built-in prototype defines. *)
Definition optional_prop (d : JsVal) (name : string) : JsVal :=
  match d with
  | JObj props =>
      match own_prop props name with
      | Some w => w
      | None => JUndefined
      end
  | _ => JUndefined
  end.

(** [a || b] *)
Definition js_or (a b : JsVal) : JsVal := if ToBoolean a then a else b.

(** [v.slice(0, 10)]: arrays and strings have the method. *)
Definition slice_0_10 (v : JsVal) : Res JsVal :=
  match v with
  | JArr items => inl (JArr (firstn 10 items))
  | JStr s => inl (JStr (substring 0 10 s))
  | JUndefined => inr (TypeError "Cannot read properties of undefined (reading 'slice')")
  | JNull => inr (TypeError "Cannot read properties of null (reading 'slice')")
  | _ => inr (TypeError "movieCredits.cast.slice is not a function")
  end.

(** The receiver of a [forEach] call: only an array has the method (a
    parsed object that carries a forEach property carries data, not a
    function). *)
Definition forEach_receiver (what : string) (v : JsVal) : Res (list JsVal) :=
  match v with
  | JArr items => inl items
  | JUndefined => inr (TypeError "Cannot read properties of undefined (reading 'forEach')")
  | JNull => inr (TypeError "Cannot read properties of null (reading 'forEach')")
  | _ => inr (TypeError (what ++ ".forEach is not a function")%string)
  end.

(** [items.forEach(x => ...)], the callback updating an accumulator; a
    throw in the callback ends the loop. *)
Fixpoint forEach {S : Type} (f : JsVal -> S -> Res S) (items : list JsVal) (s : S) : Res S :=
  match items with
  | [] => inl s
  | x :: rest => s' <~ f x s ;; forEach f rest s'
  end.

(** The template literal [`${showDate}T${time}`]. *)
Definition dateTimeString (showDate time : JsVal) : Res string :=
  d <~ ToString_res showDate ;;
  t <~ ToString_res time ;;
  inl (d ++ "T" ++ t)%string.

(** What [makeTmdbRequest] throws for a request that axios rejected. *)
Definition tmdb_failure (error : Retry.AxiosError) : Exn :=
  match Retry.response error with
  | Some r =>
      let shown := js_or (optional_prop (Retry.data r) "status_message") (JStr "Unknown error") in
      match ToString shown with
      | Some s => Error ("TMDB API Error: " ++ Z_to_string (Retry.status r) ++ " - " ++ s)%string
      | None => to_primitive_error
      end
  | None =>
      if Retry.request error then Error "No response received from TMDB API"
      else Error ("Error setting up request: " ++ Retry.message error)%string
  end.

(** The HTTP client's traffic for one request, appended to the log: one
    entry per attempt, and the delays slept between attempts. *)
Definition record_traffic (url : string) (delays : list Z) (w : World) : World :=
  mkWorld (movies w) (shows w) (next_oid w)
          (requests w ++ repeat url (S (List.length delays)))
          (slept w ++ delays).

(** The validation error a date path raises for an Invalid Date. *)
Definition invalid_date_error : Exn :=
  Error "Show validation failed: showDateTime: Cast to date failed for value 'Invalid Date' (type Date) at path 'showDateTime'".

(** Modelled from the spec: the Show schema (server/models/Show.js) is not
    among the sources.  A show's date-time is a valid combination of a
    date and a time of day, and an invalid date value is a reportable
    error: the schema refuses an Invalid Date and the batch insert
    rejects.  The movie reference, the price and the seat map are kept as
    supplied. *)
Definition Show_cast (s : Show.Init) : Res (nat -> Show.Doc) :=
  match Show.init_showDateTime s with
  | TimeValue t =>
      inl (fun oid => Show.mkDoc oid (Show.init_movie s) t (Show.init_showPrice s)
                                 (Show.init_occupiedSeats s))
  | InvalidDate => inr invalid_date_error
  end.

(** Every document of a batch is validated before any is written.  The
    identifiers of the documents are the store's, the controller assigns
    none: they are represented by the numbers from [oid] upwards, in
    batch order. *)
Fixpoint Show_cast_batch (batch : list Show.Init) (oid : nat) : Res (list Show.Doc) :=
  match batch with
  | [] => inl []
  | s :: rest =>
      mk <~ Show_cast s ;;
      docs <~ Show_cast_batch rest (S oid) ;;
      inl (mk oid :: docs)
  end.

Section Controller.

Variable env : Env.

(** *** Storage operations *)

Definition storage (op : DbOp) : M unit :=
  match db_fault env op with
  | Some m => throw (Error m)
  | None => ret tt
  end.

(** Movie.findById(movieId).  Identifiers are compared as the values
    they are: the casts of the Movie schema, which is not part of the
    controller, are not applied. *)
Definition Movie_findById (id : JsVal) : M (option Movie.Doc) :=
  storage MovieFindById ;;;
  fun w => (w, inl (find (fun d => JsVal_eqb (Movie._id d) id) (movies w))).

(** Movie.create(doc) *)
Definition Movie_create (doc : Movie.Doc) : M Movie.Doc :=
  match Movie_validate env doc with
  | Some m => throw (Error m)
  | None =>
      storage MovieCreate ;;;
      fun w => (mkWorld (movies w ++ [doc]) (shows w) (next_oid w) (requests w) (slept w),
                inl doc)
  end.

(** Show.insertMany(batch): the documents are validated first, and none
    is sent to the store when one is refused; the store then writes them
    in order.  When the store fails, the documents it has written by then
    stay written: nothing is undone, by the store or by the controller. *)
Definition Show_insertMany (batch : list Show.Init) : M unit :=
  fun w =>
    match Show_cast_batch batch (next_oid w) with
    | inr e => (w, inr e)
    | inl docs =>
        match db_fault env ShowInsertMany with
        | Some m =>
            let kept := firstn (insert_kept env) docs in
            (mkWorld (movies w) (shows w ++ kept) (next_oid w + List.length kept)
                     (requests w) (slept w),
             inr (Error m))
        | None =>
            (mkWorld (movies w) (shows w ++ docs) (next_oid w + List.length docs)
                     (requests w) (slept w),
             inl tt)
        end
    end.

(** *** The provider *)

(** timeout: 8000 *)
Definition timeout : Z := 8000.

(** makeTmdbRequest(url): [axios.get] under the retry policy, then
    [response.data], or the normalized error. *)
Definition makeTmdbRequest (url : string) : M JsVal :=
  fun w =>
    let '(delays, outcome) :=
      Retry.axios_get (isRetryAllowed env) (net env url) (took env url) timeout in
    let w' := record_traffic url delays w in
    match outcome with
    | Retry.Fulfilled body => (w', inl body)
    | Retry.Rejected error => (w', inr (tmdb_failure error))
    end.

(** [await Promise.all([p, q])]: both requests are sent and run to their
    end; the result is both values, or the rejection that comes first. *)
Definition Promise_all2 {A B : Type} (p : M A) (q : M B) : M (A * B) :=
  fun w =>
    let '(w1, r1) := p w in
    let '(w2, r2) := q w1 in
    match r1, r2 with
    | inl a, inl b => (w2, inl (a, b))
    | inr e, inl _ => (w2, inr e)
    | inl _, inr e => (w2, inr e)
    | inr e1, inr e2 => (w2, inr (if credits_settle_first env then e2 else e1))
    end.

(** *** getNowPlayingMovies *)

Definition getNowPlayingMovies : M HttpResponse :=
  try_catch
    (data <- makeTmdbRequest "https://api.themoviedb.org/3/movie/now_playing" ;;
     movies <- lift (get_prop data "results") ;;
     ret (res_json (NowPlaying movies)))
    (fun error =>
       ret (res_status_json 500
              (NowPlayingFailure "Failed to fetch now playing movies" (exn_message error)))).

(** *** addShow *)

(** The object literal [movieDetailsToSave]. *)
Definition movieDetailsToSave (movieId movieDetails movieCredits : JsVal) : Res Movie.Doc :=
  title <~ get_prop movieDetails "title" ;;
  overview <~ get_prop movieDetails "overview" ;;
  poster_path <~ get_prop movieDetails "poster_path" ;;
  backdrop_path <~ get_prop movieDetails "backdrop_path" ;;
  genres <~ get_prop movieDetails "genres" ;;
  cast <~ get_prop movieCredits "cast" ;;
  casts <~ slice_0_10 cast ;;
  release_date <~ get_prop movieDetails "release_date" ;;
  original_language <~ get_prop movieDetails "original_language" ;;
  tagline <~ get_prop movieDetails "tagline" ;;
  vote_average <~ get_prop movieDetails "vote_average" ;;
  runtime <~ get_prop movieDetails "runtime" ;;
  inl (Movie.mkDoc movieId title overview poster_path backdrop_path genres casts
                   release_date original_language (js_or tagline (JStr EmptyString))
                   vote_average runtime).

(** The body of the inner callback: one show pushed per time string. *)
Definition push_show (movieId showPrice showDate time : JsVal)
  (showsToCreate : list Show.Init) : Res (list Show.Init) :=
  dateTimeString_ <~ dateTimeString showDate time ;;
  inl (showsToCreate ++ [Show.mkInit movieId (Date_parse env dateTimeString_) showPrice []]).

(** The body of the outer callback. *)
Definition expand_entry (movieId showPrice show : JsVal)
  (showsToCreate : list Show.Init) : Res (list Show.Init) :=
  showDate <~ get_prop show "date" ;;
  times <~ get_prop show "time" ;;
  items <~ forEach_receiver "show.time" times ;;
  forEach (push_show movieId showPrice showDate) items showsToCreate.

(** [showsToCreate] after the two nested loops. *)
Definition expand (movieId showsInput showPrice : JsVal) : Res (list Show.Init) :=
  entries <~ forEach_receiver "showsInput" showsInput ;;
  forEach (expand_entry movieId showPrice) entries [].

(** The fetch-and-create branch taken when the movie is not stored. *)
Definition fetch_and_create (movieId : JsVal) : M Movie.Doc :=
  id <- lift (ToString_res movieId) ;;
  fetched <- Promise_all2
    (makeTmdbRequest ("https://api.themoviedb.org/3/movie/" ++ id)%string)
    (makeTmdbRequest ("https://api.themoviedb.org/3/movie/" ++ id ++ "/credits")%string) ;;
  doc <- lift (movieDetailsToSave movieId (fst fetched) (snd fetched)) ;;
  Movie_create doc.

Definition addShow (body : AddShowBody) : M HttpResponse :=
  try_catch
    (if negb (ToBoolean (movieId body)) || negb (ToBoolean (showsInput body))
        || negb (ToBoolean (showPrice body))
     then
       ret (res_status_json 400
              (Message false "Missing required fields (movieId, showsInput, showPrice)"))
     else
       found <- Movie_findById (movieId body) ;;
       movie <- match found with
                | Some m => ret m
                | None => fetch_and_create (movieId body)
                end ;;
       showsToCreate <- lift (expand (movieId body) (showsInput body) (showPrice body)) ;;
       (if (0 <? List.length showsToCreate)%nat
        then Show_insertMany showsToCreate
        else ret tt) ;;;
       ret (res_json (Message true "Show added successfully")))
    (fun error => ret (res_json (Message false (exn_message error)))).

End Controller.

(** ** Dates: Date.prototype.toISOString *)

Module DateTime.

Open Scope Z_scope.

Definition msPerDay : Z := 86400000.

Definition Day (t : Z) : Z := t / msPerDay.

Definition TimeWithinDay (t : Z) : Z := t mod msPerDay.

Definition leap (y : Z) : bool :=
  ((y mod 4 =? 0) && negb (y mod 100 =? 0)) || (y mod 400 =? 0).

Definition DayFromYear (y : Z) : Z :=
  365 * (y - 1970) + (y - 1969) / 4 - (y - 1901) / 100 + (y - 1601) / 400.

(** The year whose first day is the last one not after [t]: an estimate
    from the mean length of a Gregorian year, corrected by one either
    way. *)
Definition YearFromTime (t : Z) : Z :=
  let d := Day t in
  let y := 1970 + d * 400 / 146097 in
  if d <? DayFromYear y then y - 1
  else if DayFromYear (y + 1) <=? d then y + 1
  else y.

Definition DayWithinYear (t : Z) : Z := Day t - DayFromYear (YearFromTime t).

Definition InLeapYear (t : Z) : Z := if leap (YearFromTime t) then 1 else 0.

(** Months are numbered from 0. *)
Definition MonthFromTime (t : Z) : Z :=
  let d := DayWithinYear t in
  let l := InLeapYear t in
  if d <? 31 then 0
  else if d <? 59 + l then 1
  else if d <? 90 + l then 2
  else if d <? 120 + l then 3
  else if d <? 151 + l then 4
  else if d <? 181 + l then 5
  else if d <? 212 + l then 6
  else if d <? 243 + l then 7
  else if d <? 273 + l then 8
  else if d <? 304 + l then 9
  else if d <? 334 + l then 10
  else 11.

Definition DateFromTime (t : Z) : Z :=
  let d := DayWithinYear t in
  let l := InLeapYear t in
  match MonthFromTime t with
  | 0 => d + 1
  | 1 => d - 30
  | 2 => d - 58 - l
  | 3 => d - 89 - l
  | 4 => d - 119 - l
  | 5 => d - 150 - l
  | 6 => d - 180 - l
  | 7 => d - 211 - l
  | 8 => d - 242 - l
  | 9 => d - 272 - l
  | 10 => d - 303 - l
  | _ => d - 333 - l
  end.

Definition HourFromTime (t : Z) : Z := (TimeWithinDay t / 3600000) mod 24.
Definition MinFromTime (t : Z) : Z := (TimeWithinDay t / 60000) mod 60.
Definition SecFromTime (t : Z) : Z := (TimeWithinDay t / 1000) mod 60.
Definition msFromTime (t : Z) : Z := TimeWithinDay t mod 1000.

Definition digit (d : Z) : ascii :=
  match d with
  | 0 => "0" | 1 => "1" | 2 => "2" | 3 => "3" | 4 => "4"
  | 5 => "5" | 6 => "6" | 7 => "7" | 8 => "8" | _ => "9"
  end%char.

Definition pad2 (n : Z) : string :=
  String (digit (n / 10 mod 10)) (String (digit (n mod 10)) EmptyString).

Definition pad3 (n : Z) : string :=
  String (digit (n / 100 mod 10)) (pad2 n).

Definition pad4 (n : Z) : string :=
  String (digit (n / 1000 mod 10)) (pad3 n).

Definition pad6 (n : Z) : string :=
  String (digit (n / 100000 mod 10)) (String (digit (n / 10000 mod 10)) (pad4 n)).

(** Four digits for the years 0 to 9999, a sign and six digits beyond. *)
Definition year_string (y : Z) : string :=
  if (0 <=? y) && (y <=? 9999) then pad4 y
  else if y <? 0 then String "-"%char (pad6 (- y))
  else String "+"%char (pad6 y).

(** The date part, YYYY-MM-DD in UTC. *)
Definition date_string (t : Z) : string :=
  (year_string (YearFromTime t) ++ "-" ++ pad2 (MonthFromTime t + 1) ++ "-"
     ++ pad2 (DateFromTime t))%string.

Definition time_string (t : Z) : string :=
  (pad2 (HourFromTime t) ++ ":" ++ pad2 (MinFromTime t) ++ ":" ++ pad2 (SecFromTime t)
     ++ "." ++ pad3 (msFromTime t))%string.

(** toISOString of a valid Date with time value [t]. *)
Definition toISOString (t : Z) : string :=
  (date_string t ++ "T" ++ time_string t ++ "Z")%string.

(** [s.split(sep)[0]]: what precedes the first separator, all of [s] when
    there is none. *)
Fixpoint split_head (sep : ascii) (s : string) : string :=
  match s with
  | EmptyString => EmptyString
  | String c rest => if Ascii.eqb c sep then EmptyString else String c (split_head sep rest)
  end.

End DateTime.

(** ** Query results, populated references and Set *)

(** [.sort({ showDateTime: 1 })]: ascending by date-time; shows with equal
    date-times keep the order the collection has them in. *)
Fixpoint insert_by_date (s : Show.Doc) (sorted : list Show.Doc) : list Show.Doc :=
  match sorted with
  | [] => [s]
  | x :: rest =>
      if (Show.showDateTime s <=? Show.showDateTime x)%Z then s :: x :: rest
      else x :: insert_by_date s rest
  end.

Definition sort_by_date (l : list Show.Doc) : list Show.Doc :=
  fold_right insert_by_date [] l.

(** Position of the first element that satisfies [p]. *)
Fixpoint index_of {A : Type} (p : A -> bool) (l : list A) : option nat :=
  match l with
  | [] => None
  | x :: rest =>
      if p x then Some O
      else match index_of p rest with
           | Some i => Some (S i)
           | None => None
           end
  end.

(** A show of a query result after [populate('movie')]: the [movie] path,
    a reference to the movie collection by identifier, holds a reference
    to a movie document instance, or [null] when no movie has the
    identifier. *)
Record PopulatedShow : Type := mkPopulated {
  doc : Show.Doc;
  movie_ref : option nat
}.

(** Movie document instances in memory, by address. *)
Definition Heap : Type := list Movie.Doc.

Definition refers_to (s : Show.Doc) (m : Movie.Doc) : bool :=
  JsVal_eqb (Movie._id m) (Show.movie s).

(** populate('movie') as Mongoose runs it by default: one query fetches
    the movies whose identifier some show of the result refers to, each
    fetched movie is hydrated once, and every show that refers to it
    receives that one instance. *)
Definition populate_shared (store : list Movie.Doc) (found : list Show.Doc)
  : Heap * list PopulatedShow :=
  let fetched := filter (fun m => existsb (fun s => refers_to s m) found) store in
  (fetched, map (fun s => mkPopulated s (index_of (refers_to s) fetched)) found).

(** populate with the option [clone: true]: every show receives a copy of
    its own. *)
Fixpoint populate_cloned (store : list Movie.Doc) (found : list Show.Doc) (heap : Heap)
  : Heap * list PopulatedShow :=
  match found with
  | [] => (heap, [])
  | s :: rest =>
      match find (refers_to s) store with
      | Some m =>
          let '(heap', out) := populate_cloned store rest (heap ++ [m]) in
          (heap', mkPopulated s (Some (List.length heap)) :: out)
      | None =>
          let '(heap', out) := populate_cloned store rest heap in
          (heap', mkPopulated s None :: out)
      end
  end.

Definition populate (clone : bool) (store : list Movie.Doc) (found : list Show.Doc)
  : Heap * list PopulatedShow :=
  if clone then populate_cloned store found [] else populate_shared store found.

(** SameValueZero on references: two references are the same when they
    are the same address, and [null] is the same as [null]. *)
Definition same_ref (a b : option nat) : bool :=
  match a, b with
  | Some x, Some y => (x =? y)%nat
  | None, None => true
  | _, _ => false
  end.

(** [set.add(x)] on a Set kept in insertion order. *)
Definition Set_add (set : list (option nat)) (x : option nat) : list (option nat) :=
  if existsb (same_ref x) set then set else set ++ [x].

(** [new Set(iterable)] *)
Definition Set_from (items : list (option nat)) : list (option nat) :=
  fold_left Set_add items [].

(** What [res.json] writes for a reference. *)
Definition deref (heap : Heap) (r : option nat) : option Movie.Doc :=
  match r with
  | Some a => nth_error heap a
  | None => None
  end.

(** ** The [dateTime] object of [getShow] *)

(** Names a plain object inherits from Object.prototype. *)
Definition Object_prototype_names : list string :=
  ["constructor"; "hasOwnProperty"; "isPrototypeOf"; "propertyIsEnumerable";
   "toLocaleString"; "toString"; "valueOf"; "__proto__"; "__defineGetter__";
   "__defineSetter__"; "__lookupGetter__"; "__lookupSetter__"].

Definition inherited (name : string) : bool :=
  existsb (String.eqb name) Object_prototype_names.

Fixpoint own_bucket (dateTime : list (string * list Slot)) (date : string)
  : option (list Slot) :=
  match dateTime with
  | [] => None
  | (k, b) :: rest => if k =? date then Some b else own_bucket rest date
  end.

(** [dateTime[date].push(slot)] on an own property. *)
Fixpoint bucket_push (dateTime : list (string * list Slot)) (date : string) (slot : Slot)
  : list (string * list Slot) :=
  match dateTime with
  | [] => []
  | (k, b) :: rest =>
      if k =? date then (k, b ++ [slot]) :: rest
      else (k, b) :: bucket_push rest date slot
  end.

(** The body of the callback of [getShow].  [!dateTime[date]] holds when
    the object has no such property, own or inherited; an inherited one
    is a function or an object without [push]. *)
Definition group_show (show : Show.Doc) (dateTime : list (string * list Slot))
  : Res (list (string * list Slot)) :=
  let date := DateTime.split_head "T" (DateTime.toISOString (Show.showDateTime show)) in
  let slot := mkSlot (Show.showDateTime show) (Show._id show) in
  match own_bucket dateTime date with
  | Some _ => inl (bucket_push dateTime date slot)
  | None =>
      if inherited date then inr (TypeError "dateTime[date].push is not a function")
      else inl (dateTime ++ [(date, [slot])])
  end.

Fixpoint group_shows (found : list Show.Doc) (dateTime : list (string * list Slot))
  : Res (list (string * list Slot)) :=
  match found with
  | [] => inl dateTime
  | show :: rest => dateTime' <~ group_show show dateTime ;; group_shows rest dateTime'
  end.

Section Queries.

Variable env : Env.

(** Show.find({showDateTime: {$gte: new Date()}}).populate('movie')
        .sort({showDateTime: 1}) *)
Definition Show_find_upcoming_populated : M (Heap * list PopulatedShow) :=
  storage env ShowFindPopulate ;;;
  fun w =>
    let upcoming := filter (fun s => (now env <=? Show.showDateTime s)%Z) (shows w) in
    (w, inl (populate false (movies w) (sort_by_date upcoming))).

(** Show.find({movie: movieId, showDateTime: {$gte: new Date()}}) *)
Definition Show_find_upcoming_of (movieId : string) : M (list Show.Doc) :=
  storage env ShowFind ;;;
  fun w =>
    (w, inl (filter (fun s => JsVal_eqb (Show.movie s) (JStr movieId)
                              && (now env <=? Show.showDateTime s)%Z)
                    (shows w))).

(** *** getShows *)

Definition getShows : M HttpResponse :=
  try_catch
    (result <- Show_find_upcoming_populated ;;
     let heap := fst result in
     let shows := snd result in
     let uniqueShows := Set_from (map movie_ref shows) in
     ret (res_json (Shows (map (deref heap) uniqueShows))))
    (fun error => ret (res_json (Message false (exn_message error)))).

(** *** getShow *)

Definition getShow (movieId : string) : M HttpResponse :=
  try_catch
    (shows <- Show_find_upcoming_of movieId ;;
     movie <- Movie_findById env (JStr movieId) ;;
     dateTime <- lift (group_shows shows []) ;;
     ret (res_json (Showtimes movie dateTime)))
    (fun error => ret (res_json (Message false (exn_message error)))).

End Queries.

(** ** The shape of a valid [showsInput] *)

(** One element of [showsInput]: a date and its time-of-day strings. *)
Record ShowEntry : Type := mkShowEntry {
  date : string;
  times : list string
}.

(** [v] is the JSON form of entry [e]: its [date] property is the date
    string and its [time] property the array of the time strings. *)
Definition is_entry (v : JsVal) (e : ShowEntry) : Prop :=
  get_prop v "date" = inl (JStr (date e)) /\
  get_prop v "time" = inl (JArr (map JStr (times e))).

(** The (date, time) pairs of a payload, in input order. *)
Definition pairs (entries : list ShowEntry) : list (string * string) :=
  flat_map (fun e => map (fun t => (date e, t)) (times e)) entries.

(** The sum of the numbers of time strings. *)
Definition total_times (entries : list ShowEntry) : nat :=
  fold_right (fun e n => (List.length (times e) + n)%nat) O entries.

(** The string the Date constructor receives for a pair. *)
Definition combine_date_time (p : string * string) : string :=
  (fst p ++ "T" ++ snd p)%string.

(** The saved show [d] holds what the unsaved show [s] held. *)
Definition saved_from (s : Show.Init) (d : Show.Doc) : Prop :=
  Show.movie d = Show.init_movie s /\
  Show.init_showDateTime s = TimeValue (Show.showDateTime d) /\
  Show.showPrice d = Show.init_showPrice s /\
  Show.occupiedSeats d = Show.init_occupiedSeats s.

(** The show [addShow] builds for a (date, time) pair of a request. *)
Definition show_for (env : Env) (body : AddShowBody) (p : string * string) : Show.Init :=
  Show.mkInit (movieId body) (Date_parse env (combine_date_time p)) (showPrice body) [].

(** The saved show [d] is the one of the pair [p] of the request: the
    movie and the price are the supplied ones, the date-time is the Date
    of the combined string, the seat map is empty. *)
Definition created_from (env : Env) (body : AddShowBody) (p : string * string)
  (d : Show.Doc) : Prop :=
  Show.movie d = movieId body /\
  Show.showPrice d = showPrice body /\
  Date_parse env (combine_date_time p) = TimeValue (Show.showDateTime d) /\
  Show.occupiedSeats d = [].

(** The fetches of [addShow] for a movie identifier's string form. *)
Definition details_url (id : string) : string :=
  ("https://api.themoviedb.org/3/movie/" ++ id)%string.

Definition credits_url (id : string) : string :=
  ("https://api.themoviedb.org/3/movie/" ++ id ++ "/credits")%string.

(** The final outcome of a request to [url], retries included, is a
    rejection. *)
Definition fetch_fails (env : Env) (url : string) : Prop :=
  exists error,
    snd (Retry.axios_get (isRetryAllowed env) (net env url) (took env url) timeout)
    = Retry.Rejected error.

(** Steps 2 and 3 of [addShow] on their own: look the movie up, fetch and
    create it when it is absent. *)
Definition ensure_movie (env : Env) (movieId : JsVal) : M Movie.Doc :=
  found <- Movie_findById env movieId ;;
  match found with
  | Some m => ret m
  | None => fetch_and_create env movieId
  end.

(** The upcoming shows of a movie, as [getShow] queries them. *)
Definition upcoming_of (env : Env) (movieId : string) (w : World) : list Show.Doc :=
  filter (fun s => JsVal_eqb (Show.movie s) (JStr movieId)
                   && (now env <=? Show.showDateTime s)%Z)
         (shows w).

(** The entry [getShow] pushes for a show. *)
Definition slot_of (s : Show.Doc) : Slot := mkSlot (Show.showDateTime s) (Show._id s).

(** The shows of [found] whose UTC date is [k]. *)
Definition on_date (k : string) (found : list Show.Doc) : list Show.Doc :=
  filter (fun s => DateTime.date_string (Show.showDateTime s) =? k) found.

(** The bucket a [dateTime] object should hold under key [k] once the
    shows of [found] are grouped: their entries in order, and no property
    at all when no show falls on that date. *)
Definition bucket_for (k : string) (found : list Show.Doc) : option (list Slot) :=
  match on_date k found with
  | [] => None
  | on_k => Some (map slot_of on_k)
  end.

(** The grouping invariant: the keys of the object are distinct and
    every key holds the bucket of the shows grouped so far. *)
Definition grouped (dateTime : list (string * list Slot)) (processed : list Show.Doc) : Prop :=
  NoDup (map fst dateTime) /\ forall k, own_bucket dateTime k = bucket_for k processed.

(** The three answers of [addShow]. *)
Definition failure (e : Exn) : HttpResponse := res_json (Message false (exn_message e)).

Definition missing_fields : HttpResponse :=
  res_status_json 400 (Message false "Missing required fields (movieId, showsInput, showPrice)").

Definition added : HttpResponse := res_json (Message true "Show added successfully").

(** The three fields are all truthy. *)
Definition passes_validation (body : AddShowBody) : bool :=
  ToBoolean (movieId body) && ToBoolean (showsInput body) && ToBoolean (showPrice body).



(** ** Sample requests and environments *)

Module Sample.

Definition details : JsVal :=
  JObj [("id", JNum 550); ("title", JStr "Fight Club");
        ("overview", JStr "An insomniac office worker crosses paths with a soap maker.");
        ("poster_path", JStr "/poster.jpg"); ("backdrop_path", JStr "/backdrop.jpg");
        ("genres", JArr [JObj [("id", JNum 18); ("name", JStr "Drama")]]);
        ("release_date", JStr "1999-10-15"); ("original_language", JStr "en");
        ("tagline", JStr EmptyString); ("vote_average", JNumLit "8.4"); ("runtime", JNum 139)].

Definition credits : JsVal :=
  JObj [("id", JNum 550);
        ("cast", JArr [JObj [("name", JStr "Edward Norton")];
                       JObj [("name", JStr "Brad Pitt")]])].

(** A provider that answers every request at once. *)
Definition provider_up (url : string) (k : nat) : Retry.Attempt :=
  if url =? credits_url "tt1" then Retry.Fulfilled credits else Retry.Fulfilled details.

Definition not_found : Retry.AxiosError :=
  Retry.mkAxiosError (Some "ERR_BAD_REQUEST")
    (Some (Retry.mkResponse 404
             (JObj [("status_message", JStr "The resource you requested could not be found.")])))
    true "Request failed with status code 404".

(** A provider that knows no movie. *)
Definition provider_404 (url : string) (k : nat) : Retry.Attempt :=
  Retry.Rejected not_found.

Definition unavailable : Retry.AxiosError :=
  Retry.mkAxiosError (Some "ERR_BAD_RESPONSE")
    (Some (Retry.mkResponse 503 JNull)) true "Request failed with status code 503".

(** A provider that answers 503 twice and then replies. *)
Definition provider_flaky (url : string) (k : nat) : Retry.Attempt :=
  if (k <? 2)%nat then Retry.Rejected unavailable else provider_up url k.

(** A provider that never recovers. *)
Definition provider_503 (url : string) (k : nat) : Retry.Attempt :=
  Retry.Rejected unavailable.


Definition timed_out : Retry.AxiosError :=
  Retry.mkAxiosError (Some "ECONNABORTED") None true "timeout of 8000ms exceeded".

(** The Date constructor of a server whose zone is UTC, on the strings of
    the samples. *)
Definition parse (s : string) : JsDate :=
  if s =? "2024-05-01T10:00" then TimeValue 1714557600000
  else if s =? "2024-05-01T14:00" then TimeValue 1714572000000
  else if s =? "2024-05-02T09:30" then TimeValue 1714642200000
  else InvalidDate.

Definition allow_all (e : Retry.AxiosError) : bool := true.

Definition no_fault (op : DbOp) : option string := None.

Definition accept_all (m : Movie.Doc) : option string := None.

(** Every attempt is answered within 120 ms. *)
Definition quick (url : string) (k : nat) : Z := 120.

Definition env_up : Env :=
  mkEnv allow_all provider_up quick false parse 1714000000000 no_fault 0 accept_all.

Definition env_down : Env :=
  mkEnv allow_all provider_404 quick false parse 1714000000000 no_fault 0 accept_all.

Definition empty : World := mkWorld [] [] 0 [] [].

Definition entries : list ShowEntry :=
  [mkShowEntry "2024-05-01" ["10:00"; "14:00"]; mkShowEntry "2024-05-02" ["09:30"]].

Definition encode (e : ShowEntry) : JsVal :=
  JObj [("date", JStr (date e)); ("time", JArr (map JStr (times e)))].

Definition body : AddShowBody :=
  mkAddShowBody (JStr "tt1") (JArr (map encode entries)) (JNum 200).

Definition body_no_times : AddShowBody :=
  mkAddShowBody (JStr "tt1") (JArr []) (JNum 200).

Definition body_no_price : AddShowBody :=
  mkAddShowBody (JStr "tt1") (JArr (map encode entries)) JUndefined.

Definition body_bad_time : AddShowBody :=
  mkAddShowBody (JStr "tt1")
    (JArr [encode (mkShowEntry "2024-05-01" ["10:00"; "quarter past ten"])]) (JNum 200).

(** The world after [body] was added to the empty one. *)
Definition stocked : World := fst (addShow env_up body empty).

End Sample.

(** ** Further vocabulary and scenarios *)

(** The timeout that is left for the attempt [makeTmdbRequest] makes at
    [url] after [k] retries: the 8000 ms less the time the [k] attempts
    before it took and the [k] delays slept. *)
Fixpoint timeout_left (env : Env) (url : string) (k : nat) : Z :=
  match k with
  | O => timeout
  | S k' => (timeout_left env url k' - took env url k' - Retry.retryDelay (Z.of_nat k))%Z
  end.

(** The first [k] attempts at [url] are all rejected with errors the
    retry condition accepts, each with a timeout left for the attempt
    after it: they are the attempts that are retried. *)
Definition retryable_failures (env : Env) (url : string) (k : nat) : Prop :=
  forall i, (i < k)%nat ->
    (exists e, net env url i = Retry.Rejected e /\
               Retry.retryCondition (isRetryAllowed env) e = true) /\
    (0 < timeout_left env url (S i))%Z.

(** The delays slept before the first [k] retries. *)
Definition backoff (k : nat) : list Z :=
  map (fun n => Retry.retryDelay (Z.of_nat n)) (seq 1 k).

(** No two stored movies have the same identifier. *)
Definition distinct_movies (w : World) : Prop :=
  NoDup (map Movie._id (movies w)).

(** A movie with identifier [id] is stored. *)
Definition stored (w : World) (id : JsVal) : Prop :=
  exists m, In m (movies w) /\ Movie._id m = id.

(** The url of the now-playing list. *)
Definition now_playing_url : string := "https://api.themoviedb.org/3/movie/now_playing".

(** The elements of a list of references at their first occurrence, in
    order: what a Set built from the list iterates over. *)
Fixpoint first_occurrences (items : list (option nat)) : list (option nat) :=
  match items with
  | [] => []
  | x :: rest => x :: filter (fun y => negb (same_ref x y)) (first_occurrences rest)
  end.

(** Ascending by date-time. *)
Definition by_date (a b : Show.Doc) : Prop :=
  (Show.showDateTime a <= Show.showDateTime b)%Z.

(** Every stored show refers to a stored movie. *)
Definition refs_resolve (w : World) : Prop :=
  forall s, In s (shows w) -> stored w (Show.movie s).

(** The three branches of the catch block of [makeTmdbRequest]. *)
Inductive Cause : Type :=
| Responded
| NoResponse
| NotSent.

Definition cause (error : Retry.AxiosError) : Cause :=
  match Retry.response error with
  | Some _ => Responded
  | None => if Retry.request error then NoResponse else NotSent
  end.

(** The time values a Date can hold. *)
Definition valid_time (t : Z) : Prop :=
  (-8640000000000000 <= t <= 8640000000000000)%Z.

(** The day of the year on which month [m] (from 0) starts, [l] being 1 in
    a leap year and 0 otherwise. *)
Definition month_start (m l : Z) : Z :=
  match m with
  | 0 => 0 | 1 => 31 | 2 => 59 + l | 3 => 90 + l | 4 => 120 + l | 5 => 151 + l
  | 6 => 181 + l | 7 => 212 + l | 8 => 243 + l | 9 => 273 + l | 10 => 304 + l
  | _ => 334 + l
  end%Z.

Module Scenario.

(** A provider whose every attempt times out. *)
Definition provider_timeout (url : string) (k : nat) : Retry.Attempt :=
  Retry.Rejected Sample.timed_out.

Definition env_flaky : Env :=
  mkEnv Sample.allow_all Sample.provider_flaky Sample.quick false Sample.parse 1714000000000
        Sample.no_fault 0 Sample.accept_all.

Definition env_503 : Env :=
  mkEnv Sample.allow_all Sample.provider_503 Sample.quick false Sample.parse 1714000000000
        Sample.no_fault 0 Sample.accept_all.

(** A request whose [showsInput] is a string. *)
Definition body_string : AddShowBody :=
  mkAddShowBody (JStr "tt1") (JStr "tomorrow at ten") (JNum 200).

(** Credits with a cast of twelve. *)
Definition long_cast : list JsVal :=
  map (fun n => JObj [("order", JNum (Z.of_nat n))]) (seq 0 12).

Definition provider_long_cast (url : string) (k : nat) : Retry.Attempt :=
  if url =? credits_url "tt1" then Retry.Fulfilled (JObj [("cast", JArr long_cast)])
  else Retry.Fulfilled Sample.details.

Definition env_long_cast : Env :=
  mkEnv Sample.allow_all provider_long_cast Sample.quick false Sample.parse 1714000000000
        Sample.no_fault 0 Sample.accept_all.

(** A second movie, with one show. *)
Definition body_second : AddShowBody :=
  mkAddShowBody (JStr "tt2")
    (JArr [Sample.encode (mkShowEntry "2024-05-02" ["09:30"])]) (JNum 250).

(** The world with two movies: the three shows of the first, then the
    one of the second. *)
Definition provider_two (url : string) (k : nat) : Retry.Attempt :=
  if url =? credits_url "tt2" then Retry.Fulfilled Sample.credits
  else Sample.provider_up url k.

Definition env_two : Env :=
  mkEnv Sample.allow_all provider_two Sample.quick false Sample.parse 1714000000000
        Sample.no_fault 0 Sample.accept_all.

Definition two_movies : World := fst (addShow env_two body_second Sample.stocked).

(** Every attempt takes the whole timeout. *)
Definition full (url : string) (k : nat) : Z := 8000.

Definition env_timeout : Env :=
  mkEnv Sample.allow_all provider_timeout full false Sample.parse 1714000000000
        Sample.no_fault 0 Sample.accept_all.

(** Every attempt is answered with 503 after 800 ms. *)
Definition slow (url : string) (k : nat) : Z := 800.

Definition env_slow_503 : Env :=
  mkEnv Sample.allow_all Sample.provider_503 slow false Sample.parse 1714000000000
        Sample.no_fault 0 Sample.accept_all.

(** A request whose second entry has no times. *)
Definition body_second_entry_malformed : AddShowBody :=
  mkAddShowBody (JStr "tt1")
    (JArr [Sample.encode (mkShowEntry "2024-05-01" ["10:00"]);
           JObj [("date", JStr "2024-05-02")]])
    (JNum 200).

(** A store that fails the batch insert after the first document. *)
Definition insert_fails (op : DbOp) : option string :=
  match op with
  | ShowInsertMany => Some "E11000 duplicate key error"
  | _ => None
  end.

Definition env_insert_fails : Env :=
  mkEnv Sample.allow_all Sample.provider_up Sample.quick false Sample.parse 1714000000000
        insert_fails 1 Sample.accept_all.

End Scenario.

(** * Properties *)

(** ** Values *)

(** Induction over values that reaches the elements of arrays and the
    property values of objects. *)
Lemma JsVal_nested_ind (P : JsVal -> Prop) :
  P JUndefined -> P JNull ->
  (forall b, P (JBool b)) -> (forall n, P (JNum n)) ->
  (forall s, P (JNumLit s)) -> (forall s, P (JStr s)) ->
  (forall items, Forall P items -> P (JArr items)) ->
  (forall props, Forall (fun kv => P (snd kv)) props -> P (JObj props)) ->
  forall v, P v.
Proof.
  intros Hu Hn Hb Hnum Hlit Hstr Harr Hobj.
  fix IH 1.
  intros [ | | b | n | s | s | items | props ].
  - exact Hu.
  - exact Hn.
  - apply Hb.
  - apply Hnum.
  - apply Hlit.
  - apply Hstr.
  - apply Harr.
    induction items as [ | x items IHitems ]; constructor.
    + apply IH.
    + exact IHitems.
  - apply Hobj.
    induction props as [ | [k x] props IHprops ]; constructor.
    + apply IH.
    + exact IHprops.
Qed.

Lemma JsVal_eqb_eq (a b : JsVal) : JsVal_eqb a b = true <-> a = b.
Proof.
  revert b.
  induction a as [ | | x | x | x | x | xs IHxs | ps IHps ] using JsVal_nested_ind;
    intros [ | | y | y | y | y | ys | qs ]; simpl;
    try (split; [ discriminate | discriminate ]);
    try (split; reflexivity).
  - rewrite Bool.eqb_true_iff. split; congruence.
  - rewrite Z.eqb_eq. split; congruence.
  - rewrite String.eqb_eq. split; congruence.
  - rewrite String.eqb_eq. split; congruence.
  - revert ys.
    induction IHxs as [ | x xs Hx _ IH ]; intros [ | y ys ];
      try (split; [ discriminate | discriminate ]); try (split; reflexivity).
    rewrite andb_true_iff, Hx. specialize (IH ys).
    split.
    + intros [-> Hrest]. apply IH in Hrest. congruence.
    + intros Heq. injection Heq as -> ->. split; [ reflexivity | ].
      apply IH. reflexivity.
  - revert qs.
    induction IHps as [ | [k x] ps Hx _ IH ]; intros [ | [k' y] qs ];
      try (split; [ discriminate | discriminate ]); try (split; reflexivity).
    simpl in Hx.
    rewrite !andb_true_iff, Hx, String.eqb_eq. specialize (IH qs).
    split.
    + intros [[-> ->] Hrest]. apply IH in Hrest. congruence.
    + intros Heq. injection Heq as -> -> ->. repeat split.
      apply IH. reflexivity.
Qed.

Lemma JsVal_eqb_refl (a : JsVal) : JsVal_eqb a a = true.
Proof. apply JsVal_eqb_eq. reflexivity. Qed.

Lemma JsVal_eqb_neq (a b : JsVal) : JsVal_eqb a b = false <-> a <> b.
Proof.
  rewrite <- JsVal_eqb_eq. destruct (JsVal_eqb a b); split; congruence.
Qed.

(** ** The retry policy *)







(** *** The run of a request *)

Lemma attempts_from_step allowed (net : nat -> Retry.Attempt) (took : nat -> Z)
  (remaining c : nat) (t : Z) :
  Retry.attempts_from allowed net took (S remaining) c t =
  match net c with
  | Retry.Fulfilled body => ([], Retry.Fulfilled body)
  | Retry.Rejected error =>
      if Retry.retryCondition allowed error then
        match Retry.next_timeout t (took c) (Retry.retryDelay (Z.of_nat (S c))) with
        | None => ([], Retry.Rejected error)
        | Some t' =>
            (Retry.retryDelay (Z.of_nat (S c))
               :: fst (Retry.attempts_from allowed net took remaining (S c) t'),
             snd (Retry.attempts_from allowed net took remaining (S c) t'))
        end
      else ([], Retry.Rejected error)
  end.
Proof.
  cbn [Retry.attempts_from]. destruct (net c) as [body | error]; [ reflexivity | ].
  destruct (Retry.retryCondition allowed error); [ | reflexivity ].
  cbv zeta.
  destruct (Retry.next_timeout t (took c) (Retry.retryDelay (Z.of_nat (S c)))) as [t' | ];
    [ | reflexivity ].
  destruct (Retry.attempts_from allowed net took remaining (S c) t'); reflexivity.
Qed.

Lemma attempts_from_done allowed (net : nat -> Retry.Attempt) (took : nat -> Z)
  (c : nat) (t : Z) :
  Retry.attempts_from allowed net took O c t = ([], net c).
Proof. simpl. destruct (net c); reflexivity. Qed.

(** Of a timeout that is set, the next attempt is left what the last
    attempt and the delay have not used, if anything. *)
Lemma next_timeout_set (t d delay : Z) :
  (0 < t)%Z ->
  Retry.next_timeout t d delay
  = if (0 <? t - d - delay)%Z then Some (t - d - delay)%Z else None.
Proof.
  intros Ht. unfold Retry.next_timeout.
  destruct (t =? 0)%Z eqn:H0; [ apply Z.eqb_eq in H0; lia | ].
  destruct (t - d - delay <=? 0)%Z eqn:H1, (0 <? t - d - delay)%Z eqn:H2;
    try reflexivity.
  - apply Z.leb_le in H1. apply Z.ltb_lt in H2. lia.
  - apply Z.leb_gt in H1. apply Z.ltb_ge in H2. lia.
Qed.

Lemma retryable_failures_fewer (env : Env) (url : string) (k k' : nat) :
  (k' <= k)%nat -> retryable_failures env url k -> retryable_failures env url k'.
Proof. intros Hle H i Hi. apply H. lia. Qed.

Lemma retryable_failures_more (env : Env) (url : string) (k : nat) (e : Retry.AxiosError) :
  retryable_failures env url k ->
  net env url k = Retry.Rejected e ->
  Retry.retryCondition (isRetryAllowed env) e = true ->
  (0 < timeout_left env url (S k))%Z ->
  retryable_failures env url (S k).
Proof.
  intros H Hnet Hc Ht i Hi.
  assert (Hcase : (i < k)%nat \/ i = k) by lia.
  destruct Hcase as [Hlt | ->]; [ apply H; exact Hlt | ].
  split; [ exists e; split; assumption | exact Ht ].
Qed.

(** While attempts are retried, a timeout is left. *)
Lemma timeout_left_positive (env : Env) (url : string) (k : nat) :
  retryable_failures env url k -> (0 < timeout_left env url k)%Z.
Proof.
  intros H. destruct k as [ | k ].
  - simpl. unfold timeout. lia.
  - apply (H k). lia.
Qed.

Lemma backoff_snoc (k : nat) :
  backoff (S k) = backoff k ++ [Retry.retryDelay (Z.of_nat (S k))].
Proof. unfold backoff. rewrite seq_S, map_app. reflexivity. Qed.

Lemma backoff_cons (c k : nat) :
  map (fun n => Retry.retryDelay (Z.of_nat n)) (seq (S c) (S k))
  = Retry.retryDelay (Z.of_nat (S c))
      :: map (fun n => Retry.retryDelay (Z.of_nat n)) (seq (S (S c)) k).
Proof. reflexivity. Qed.

(** The step the interceptor takes at an attempt that is retried. *)
Lemma attempts_from_retried (env : Env) (url : string) (remaining k : nat) :
  retryable_failures env url (S k) ->
  Retry.attempts_from (isRetryAllowed env) (net env url) (took env url)
                      (S remaining) k (timeout_left env url k)
  = (Retry.retryDelay (Z.of_nat (S k))
       :: fst (Retry.attempts_from (isRetryAllowed env) (net env url) (took env url)
                                   remaining (S k) (timeout_left env url (S k))),
     snd (Retry.attempts_from (isRetryAllowed env) (net env url) (took env url)
                              remaining (S k) (timeout_left env url (S k)))).
Proof.
  intros H.
  pose proof (timeout_left_positive env url k
                (retryable_failures_fewer env url (S k) k (Nat.le_succ_diag_r k) H)) as Hk.
  destruct (H k (Nat.lt_succ_diag_r k)) as [[e [Hnet Hc]] Hleft].
  rewrite attempts_from_step, Hnet, Hc, (next_timeout_set _ _ _ Hk).
  change (timeout_left env url k - took env url k - Retry.retryDelay (Z.of_nat (S k)))%Z
    with (timeout_left env url (S k)).
  apply Z.ltb_lt in Hleft. rewrite Hleft. reflexivity.
Qed.

(** After [k] attempts that are retried, the request goes on from the
    attempt after them, with the timeout that is left. *)
Lemma axios_get_retried (env : Env) (url : string) (k remaining : nat) :
  retryable_failures env url k ->
  Retry.attempts_from (isRetryAllowed env) (net env url) (took env url)
                      (k + remaining) 0 timeout
  = (backoff k ++ fst (Retry.attempts_from (isRetryAllowed env) (net env url) (took env url)
                                            remaining k (timeout_left env url k)),
     snd (Retry.attempts_from (isRetryAllowed env) (net env url) (took env url)
                              remaining k (timeout_left env url k))).
Proof.
  revert remaining. induction k as [ | k IH ]; intros remaining H.
  - simpl. destruct (Retry.attempts_from _ _ _ remaining 0 timeout); reflexivity.
  - replace (S k + remaining)%nat with (k + S remaining)%nat by lia.
    rewrite (IH (S remaining)
               (retryable_failures_fewer env url (S k) k (Nat.le_succ_diag_r k) H)).
    rewrite (attempts_from_retried env url remaining k H). cbn [fst snd].
    rewrite backoff_snoc, <- app_assoc. reflexivity.
Qed.

(** The run of a request from the attempt after [j] retries on: it
    retries some more attempts, [k] in all, and ends with the outcome of
    the attempt after them. *)
Lemma attempts_from_run (env : Env) (url : string) (remaining j : nat) :
  retryable_failures env url j ->
  exists k, (j <= k <= j + remaining)%nat /\
    retryable_failures env url k /\
    Retry.attempts_from (isRetryAllowed env) (net env url) (took env url)
                        remaining j (timeout_left env url j)
    = (map (fun n => Retry.retryDelay (Z.of_nat n)) (seq (S j) (k - j)), net env url k).
Proof.
  revert j. induction remaining as [ | remaining IH ]; intros j Hj.
  - exists j. split; [ lia | ]. split; [ exact Hj | ].
    rewrite attempts_from_done, Nat.sub_diag. reflexivity.
  - assert (Hstop : forall o,
              Retry.attempts_from (isRetryAllowed env) (net env url) (took env url)
                                  (S remaining) j (timeout_left env url j) = ([], o) ->
              o = net env url j ->
              exists k, (j <= k <= j + S remaining)%nat /\
                retryable_failures env url k /\
                Retry.attempts_from (isRetryAllowed env) (net env url) (took env url)
                                    (S remaining) j (timeout_left env url j)
                = (map (fun n => Retry.retryDelay (Z.of_nat n)) (seq (S j) (k - j)),
                   net env url k)).
    { intros o Heq Ho. exists j. split; [ lia | ]. split; [ exact Hj | ].
      rewrite Heq, Nat.sub_diag, Ho. reflexivity. }
    pose proof (timeout_left_positive env url j Hj) as Hpos.
    pose proof (attempts_from_step (isRetryAllowed env) (net env url) (took env url)
                  remaining j (timeout_left env url j)) as Hstep.
    destruct (net env url j) as [body | e] eqn:Hnet.
    + apply (Hstop _ Hstep). reflexivity.
    + destruct (Retry.retryCondition (isRetryAllowed env) e) eqn:Hc.
      2: { apply (Hstop _ Hstep). reflexivity. }
      rewrite (next_timeout_set _ _ _ Hpos) in Hstep.
      change (timeout_left env url j - took env url j - Retry.retryDelay (Z.of_nat (S j)))%Z
        with (timeout_left env url (S j)) in Hstep.
      destruct (0 <? timeout_left env url (S j))%Z eqn:Hleft.
      2: { apply (Hstop _ Hstep). reflexivity. }
      apply Z.ltb_lt in Hleft.
      pose proof (retryable_failures_more env url j e Hj Hnet Hc Hleft) as Hmore.
      destruct (IH (S j) Hmore) as [k [Hk [Hretried Heq]]].
      exists k. split; [ lia | ]. split; [ exact Hretried | ].
      rewrite Hstep, Heq. cbn [fst snd].
      replace (k - j)%nat with (S (k - S j)) by lia.
      rewrite backoff_cons. reflexivity.
Qed.

(** A request retries [k] attempts, for some [k] of at most 3, sleeps the
    delays of the counts 1 to [k] and ends with the outcome of the attempt
    after them. *)
Lemma axios_get_run (env : Env) (url : string) :
  exists k, (k <= 3)%nat /\
    retryable_failures env url k /\
    Retry.axios_get (isRetryAllowed env) (net env url) (took env url) timeout
    = (backoff k, net env url k).
Proof.
  assert (H0 : retryable_failures env url 0) by (intros i Hi; lia).
  destruct (attempts_from_run env url Retry.retries 0 H0) as [k [Hk [Hretried Heq]]].
  exists k. unfold Retry.retries in Hk. split; [ lia | ]. split; [ exact Hretried | ].
  unfold Retry.axios_get. change (timeout_left env url 0) with timeout in Heq.
  rewrite Heq, Nat.sub_0_r. reflexivity.
Qed.

Lemma backoff_length (k : nat) : List.length (backoff k) = k.
Proof. unfold backoff. rewrite length_map, length_seq. reflexivity. Qed.

(** The schedule: the delay of the [n]-th retry is [n * 1000]. *)
Lemma backoff_nth (k n : nat) :
  (1 <= n <= k)%nat -> nth_error (backoff k) (n - 1) = Some (Z.of_nat n * 1000)%Z.
Proof.
  intros Hn. unfold backoff.
  rewrite nth_error_map, nth_error_seq.
  replace (n - 1 <? k)%nat with true by (symmetry; apply Nat.ltb_lt; lia).
  simpl. unfold Retry.retryDelay. do 2 f_equal. lia.
Qed.

(** An attempt that is rejected with an error the condition does not
    retry ends the request at once. *)
Lemma axios_get_no_retry allowed (net : nat -> Retry.Attempt) (took : nat -> Z) (t : Z)
  (e : Retry.AxiosError) :
  net O = Retry.Rejected e -> Retry.retryCondition allowed e = false ->
  Retry.axios_get allowed net took t = ([], Retry.Rejected e).
Proof.
  intros Hnet Hc. unfold Retry.axios_get, Retry.retries.
  rewrite attempts_from_step, Hnet, Hc. reflexivity.
Qed.

(** C7: the delay of retry count n is n * 1000 milliseconds, for every
    n.  A request to the provider that makes k retries (k is at most 3)
    has slept exactly the delays 1000, ..., k * 1000, one before each
    retry and in this order, and ends with the outcome of the attempt
    made after the k-th.  Whenever the first n attempts (n from 1 to 3)
    are rejected with errors the retry condition accepts, each with a
    timeout left for the attempt after it, the n-th retry takes place and
    the delay slept before it is n * 1000 milliseconds. *)
Theorem retry_delay_linear (env : Env) (url : string) :
  (forall n : Z, Retry.retryDelay n = (n * 1000)%Z) /\
  (exists k, (k <= 3)%nat /\
     retryable_failures env url k /\
     Retry.axios_get (isRetryAllowed env) (net env url) (took env url) timeout
     = (map (fun n => (Z.of_nat n * 1000)%Z) (seq 1 k), net env url k)) /\
  (forall n, (1 <= n <= 3)%nat ->
     retryable_failures env url n ->
     nth_error (fst (Retry.axios_get (isRetryAllowed env) (net env url) (took env url)
                                     timeout))
               (n - 1)
     = Some (Z.of_nat n * 1000)%Z).
Proof.
  split; [ intros n; reflexivity | ]. split.
  - destruct (axios_get_run env url) as [k [Hk [Hretried Heq]]].
    exists k. split; [ exact Hk | ]. split; [ exact Hretried | ].
    rewrite Heq. reflexivity.
  - intros n Hn Hretried.
    assert (Hsplit : Retry.retries = (n + (3 - n))%nat) by (unfold Retry.retries; lia).
    unfold Retry.axios_get. rewrite Hsplit.
    rewrite (axios_get_retried env url n (3 - n) Hretried). cbn [fst].
    rewrite nth_error_app1 by (rewrite backoff_length; lia).
    apply backoff_nth. lia.
Qed.

(** Two 503 replies, each after 120 ms: the second retry takes place
    after a delay of 2000 ms. *)
Lemma retry_delay_linear_witness :
  nth_error (fst (Retry.axios_get Sample.allow_all
                    (Sample.provider_flaky (details_url "tt1"))
                    (Sample.quick (details_url "tt1")) timeout))
            1
  = Some 2000%Z.
Proof.
  destruct (retry_delay_linear Scenario.env_flaky (details_url "tt1")) as [_ [_ H]].
  apply (H 2%nat); [ lia | ].
  intros i Hi. split.
  - exists Sample.unavailable.
    destruct i as [ | [ | i ] ]; [ split; reflexivity | split; reflexivity | lia ].
  - destruct i as [ | [ | i ] ]; [ reflexivity | reflexivity | lia ].
Defined.

(** The scenario of two 503 replies followed by a success: the caller
    receives the reply, after delays of one and two seconds. *)
Example flaky_provider_recovers :
  Retry.axios_get Sample.allow_all (Sample.provider_flaky (details_url "tt1"))
                  (Sample.quick (details_url "tt1")) timeout
  = ([1000; 2000]%Z, Retry.Fulfilled Sample.details).
Proof. reflexivity. Qed.

(** A provider that keeps answering 503 within 120 ms is asked four times
    in all. *)
Example failing_provider_exhausts_retries :
  Retry.axios_get Sample.allow_all (Sample.provider_503 (details_url "tt1"))
                  (Sample.quick (details_url "tt1")) timeout
  = ([1000; 2000; 3000]%Z, Retry.Rejected Sample.unavailable).
Proof. reflexivity. Qed.

(** A provider that keeps answering 503 after 800 ms is asked three times
    only: after the third reply, 800 + 1000 + 800 + 2000 + 800 ms of the
    8000 are used and the delay of 3000 ms does not fit in the rest. *)
Example slow_provider_is_given_up :
  Retry.axios_get Sample.allow_all (Sample.provider_503 (details_url "tt1"))
                  (Scenario.slow (details_url "tt1")) timeout
  = ([1000; 2000]%Z, Retry.Rejected Sample.unavailable).
Proof. reflexivity. Qed.

(** A timeout (code ECONNABORTED, no response) is not retried. *)
Example timeout_not_retried :
  Retry.retryCondition Sample.allow_all Sample.timed_out = false.
Proof. reflexivity. Qed.






(** ** [addShow]: the course of a request *)

(** The handler, stage by stage: validation, the movie, the expansion,
    the batch insert.  Every exception ends in the catch clause. *)
Lemma addShow_stages (env : Env) (body : AddShowBody) (w : World) :
  addShow env body w =
  if negb (passes_validation body) then (w, inl missing_fields)
  else
    match ensure_movie env (movieId body) w with
    | (w1, inr e) => (w1, inl (failure e))
    | (w1, inl _) =>
        match expand env (movieId body) (showsInput body) (showPrice body) with
        | inr e => (w1, inl (failure e))
        | inl showsToCreate =>
            if (0 <? List.length showsToCreate)%nat then
              match Show_insertMany env showsToCreate w1 with
              | (w2, inr e) => (w2, inl (failure e))
              | (w2, inl _) => (w2, inl added)
              end
            else (w1, inl added)
        end
    end.
Proof.
  unfold addShow, passes_validation, try_catch.
  destruct (ToBoolean (movieId body)); [ | reflexivity ].
  destruct (ToBoolean (showsInput body)); [ | reflexivity ].
  destruct (ToBoolean (showPrice body)); [ | reflexivity ].
  cbn [negb orb andb].
  unfold ensure_movie, bind, lift.
  destruct (Movie_findById env (movieId body) w) as [w0 [found | e]]; [ | reflexivity ].
  destruct (match found with
            | Some m => ret m
            | None => fetch_and_create env (movieId body)
            end w0) as [w1 [m | e]]; [ | reflexivity ].
  destruct (expand env (movieId body) (showsInput body) (showPrice body))
    as [showsToCreate | e]; [ | reflexivity ].
  destruct (0 <? List.length showsToCreate)%nat.
  - destruct (Show_insertMany env showsToCreate w1) as [w2 [[] | e]]; reflexivity.
  - reflexivity.
Qed.

(** The handler always answers: the catch clause lets nothing through. *)
Lemma addShow_responds (env : Env) (body : AddShowBody) (w : World) :
  exists r, snd (addShow env body w) = inl r.
Proof.
  rewrite addShow_stages.
  destruct (negb (passes_validation body)); [ eexists; reflexivity | ].
  destruct (ensure_movie env (movieId body) w) as [w1 [m | e]]; [ | eexists; reflexivity ].
  destruct (expand env (movieId body) (showsInput body) (showPrice body)) as [b | e];
    [ | eexists; reflexivity ].
  destruct (0 <? List.length b)%nat; [ | eexists; reflexivity ].
  destruct (Show_insertMany env b w1) as [w2 [[] | e]]; eexists; reflexivity.
Qed.

(** *** The movie step *)

Lemma Movie_findById_run (env : Env) (id : JsVal) (w : World) :
  Movie_findById env id w =
  match db_fault env MovieFindById with
  | Some m => (w, inr (Error m))
  | None => (w, inl (find (fun d => JsVal_eqb (Movie._id d) id) (movies w)))
  end.
Proof.
  unfold Movie_findById, storage, bind.
  destruct (db_fault env MovieFindById); reflexivity.
Qed.

(** A request to the provider writes to the log only. *)
Lemma makeTmdbRequest_frame (env : Env) (url : string) (w : World) :
  movies (fst (makeTmdbRequest env url w)) = movies w /\
  shows (fst (makeTmdbRequest env url w)) = shows w /\
  next_oid (fst (makeTmdbRequest env url w)) = next_oid w.
Proof.
  unfold makeTmdbRequest.
  destruct (Retry.axios_get (isRetryAllowed env) (net env url) (took env url) timeout)
    as [delays [body | error]];
    simpl; auto.
Qed.

(** A request whose final outcome is a rejection throws. *)
Lemma makeTmdbRequest_fails (env : Env) (url : string) (w : World) :
  fetch_fails env url -> exists e, snd (makeTmdbRequest env url w) = inr e.
Proof.
  intros [error Herr]. unfold makeTmdbRequest.
  destruct (Retry.axios_get (isRetryAllowed env) (net env url) (took env url) timeout)
    as [delays outcome].
  simpl in Herr. subst outcome. eexists. reflexivity.
Qed.

(** [fetch_and_create] leaves the shows alone; it adds the one movie it
    returns, and nothing when it throws. *)
Lemma fetch_and_create_frame (env : Env) (id : JsVal) (w : World) :
  shows (fst (fetch_and_create env id w)) = shows w /\
  next_oid (fst (fetch_and_create env id w)) = next_oid w /\
  match snd (fetch_and_create env id w) with
  | inl m => movies (fst (fetch_and_create env id w)) = movies w ++ [m] /\ Movie._id m = id
  | inr _ => movies (fst (fetch_and_create env id w)) = movies w
  end.
Proof.
  unfold fetch_and_create, bind, lift, Promise_all2.
  destruct (ToString_res id) as [s | e]; [ | simpl; auto ].
  pose proof (makeTmdbRequest_frame env (details_url s) w) as [Hm1 [Hs1 Ho1]].
  fold (details_url s). fold (credits_url s).
  destruct (makeTmdbRequest env (details_url s) w) as [w1 r1]. simpl in Hm1, Hs1, Ho1.
  pose proof (makeTmdbRequest_frame env (credits_url s) w1) as [Hm2 [Hs2 Ho2]].
  destruct (makeTmdbRequest env (credits_url s) w1) as [w2 r2]. simpl in Hm2, Hs2, Ho2.
  assert (Hm : movies w2 = movies w) by congruence.
  assert (Hs : shows w2 = shows w) by congruence.
  assert (Ho : next_oid w2 = next_oid w) by congruence.
  destruct r1 as [a | e1], r2 as [b | e2]; simpl; auto.
  destruct (movieDetailsToSave id a b) as [doc | e] eqn:Hdoc; simpl; auto.
  unfold Movie_create.
  destruct (Movie_validate env doc); [ simpl; auto | ].
  unfold bind, storage.
  destruct (db_fault env MovieCreate); simpl; auto.
  repeat split; try assumption.
  - rewrite Hm. reflexivity.
  - unfold movieDetailsToSave, res_bind in Hdoc.
    repeat match type of Hdoc with
           | match ?x with _ => _ end = _ => destruct x; [ | discriminate ]
           end.
    injection Hdoc as <-. reflexivity.
Qed.

(** When either request of [fetch_and_create] fails, it throws. *)
Lemma fetch_and_create_fails (env : Env) (id : JsVal) (s : string) (w : World) :
  ToString id = Some s ->
  fetch_fails env (details_url s) \/ fetch_fails env (credits_url s) ->
  exists e, snd (fetch_and_create env id w) = inr e.
Proof.
  intros Hs Hfail.
  unfold fetch_and_create, bind, lift, Promise_all2, ToString_res. rewrite Hs.
  fold (details_url s). fold (credits_url s).
  destruct (makeTmdbRequest env (details_url s) w) as [w1 r1] eqn:H1.
  destruct (makeTmdbRequest env (credits_url s) w1) as [w2 r2] eqn:H2.
  destruct Hfail as [Hd | Hc].
  - destruct (makeTmdbRequest_fails env _ w Hd) as [e He].
    rewrite H1 in He. simpl in He. subst r1.
    destruct r2; eexists; reflexivity.
  - destruct (makeTmdbRequest_fails env _ w1 Hc) as [e He].
    rewrite H2 in He. simpl in He. subst r2.
    destruct r1; eexists; reflexivity.
Qed.

(** The movie step leaves the shows alone, and the movies too unless it
    returns a movie it has just created. *)
Lemma ensure_movie_frame (env : Env) (id : JsVal) (w : World) :
  shows (fst (ensure_movie env id w)) = shows w /\
  next_oid (fst (ensure_movie env id w)) = next_oid w /\
  match snd (ensure_movie env id w) with
  | inl m => movies (fst (ensure_movie env id w)) = movies w \/
             movies (fst (ensure_movie env id w)) = movies w ++ [m]
  | inr _ => movies (fst (ensure_movie env id w)) = movies w
  end.
Proof.
  unfold ensure_movie, bind. rewrite Movie_findById_run.
  destruct (db_fault env MovieFindById); [ simpl; auto | ].
  destruct (find (fun d => JsVal_eqb (Movie._id d) id) (movies w)) as [m | ].
  - simpl. auto.
  - destruct (fetch_and_create_frame env id w) as [Hs [Ho Hm]].
    repeat split; try assumption.
    destruct (snd (fetch_and_create env id w)); [ right; apply Hm | exact Hm ].
Qed.

(** A stored movie is found by its identifier. *)
Lemma find_stored (id : JsVal) (store : list Movie.Doc) :
  (exists m, In m store /\ Movie._id m = id) ->
  exists m, find (fun d => JsVal_eqb (Movie._id d) id) store = Some m.
Proof.
  intros [m [Hin Hid]].
  destruct (find (fun d => JsVal_eqb (Movie._id d) id) store) as [m' | ] eqn:Hfind.
  - exists m'. reflexivity.
  - exfalso. apply (find_none _ _ Hfind) in Hin. simpl in Hin.
    rewrite Hid, JsVal_eqb_refl in Hin. discriminate.
Qed.

Lemma find_absent (id : JsVal) (store : list Movie.Doc) :
  (forall m, In m store -> Movie._id m <> id) ->
  find (fun d => JsVal_eqb (Movie._id d) id) store = None.
Proof.
  intros Habs.
  destruct (find (fun d => JsVal_eqb (Movie._id d) id) store) as [m | ] eqn:Hfind;
    [ | reflexivity ].
  apply find_some in Hfind. destruct Hfind as [Hin Heq].
  apply JsVal_eqb_eq in Heq. exfalso. exact (Habs m Hin Heq).
Qed.

(** With the movie stored, the movie step changes nothing at all: it
    answers from the collection or fails on the lookup. *)
Lemma ensure_movie_stored (env : Env) (id : JsVal) (w : World) :
  (exists m, In m (movies w) /\ Movie._id m = id) ->
  fst (ensure_movie env id w) = w.
Proof.
  intros Hstored. destruct (find_stored id (movies w) Hstored) as [m Hfind].
  unfold ensure_movie, bind. rewrite Movie_findById_run.
  destruct (db_fault env MovieFindById); [ reflexivity | ].
  rewrite Hfind. reflexivity.
Qed.

(** *** The expansion *)

Lemma forEach_app {S : Type} (f : JsVal -> S -> Res S) (xs ys : list JsVal) (s : S) :
  forEach f (xs ++ ys) s = (s' <~ forEach f xs s ;; forEach f ys s').
Proof.
  revert s. induction xs as [ | x xs IH ]; intros s; simpl.
  - reflexivity.
  - unfold res_bind at 1 3. destruct (f x s) as [s' | e]; [ apply IH | reflexivity ].
Qed.

(** The inner loop pushes one show per time string, in order. *)
Lemma forEach_push_show (env : Env) (body : AddShowBody) (d : string) (ts : list string)
  (acc : list Show.Init) :
  forEach (push_show env (movieId body) (showPrice body) (JStr d)) (map JStr ts) acc
  = inl (acc ++ map (fun t => show_for env body (d, t)) ts).
Proof.
  revert acc. induction ts as [ | t ts IH ]; intros acc; simpl.
  - rewrite app_nil_r. reflexivity.
  - rewrite IH, <- app_assoc. reflexivity.
Qed.

(** The outer loop does so for every entry, in order. *)
Lemma forEach_expand_entry (env : Env) (body : AddShowBody) (vs : list JsVal)
  (entries : list ShowEntry) (acc : list Show.Init) :
  Forall2 is_entry vs entries ->
  forEach (expand_entry env (movieId body) (showPrice body)) vs acc
  = inl (acc ++ map (show_for env body) (pairs entries)).
Proof.
  intros Hvs. revert acc.
  induction Hvs as [ | v e vs entries [Hdate Htime] _ IH ]; intros acc; simpl.
  - rewrite app_nil_r. reflexivity.
  - unfold expand_entry at 1. rewrite Hdate, Htime. simpl.
    rewrite forEach_push_show. simpl.
    rewrite IH. unfold pairs. simpl.
    rewrite map_app, map_map, <- app_assoc. reflexivity.
Qed.

Lemma expand_valid (env : Env) (body : AddShowBody) (vs : list JsVal)
  (entries : list ShowEntry) :
  showsInput body = JArr vs -> Forall2 is_entry vs entries ->
  expand env (movieId body) (showsInput body) (showPrice body)
  = inl (map (show_for env body) (pairs entries)).
Proof.
  intros Hshape Hvs. unfold expand. rewrite Hshape. simpl.
  apply (forEach_expand_entry env body vs entries [] Hvs).
Qed.

Lemma length_pairs (entries : list ShowEntry) :
  List.length (pairs entries) = total_times entries.
Proof.
  unfold pairs. induction entries as [ | e entries IH ]; simpl.
  - reflexivity.
  - rewrite length_app, length_map, IH. reflexivity.
Qed.

Lemma Forall2_map_left {A B C : Type} (R : B -> C -> Prop) (f : A -> B)
  (l : list A) (l' : list C) :
  Forall2 R (map f l) l' -> Forall2 (fun x y => R (f x) y) l l'.
Proof.
  revert l'. induction l as [ | x l IH ]; intros l' H; inversion H; subst; constructor.
  - assumption.
  - apply IH. assumption.
Qed.

(** *** The batch insert *)

Lemma Show_cast_batch_saved (batch : list Show.Init) (oid : nat) (docs : list Show.Doc) :
  Show_cast_batch batch oid = inl docs -> Forall2 saved_from batch docs.
Proof.
  revert oid docs. induction batch as [ | s batch IH ]; intros oid docs; simpl.
  - intros Heq. injection Heq as <-. constructor.
  - unfold Show_cast.
    destruct (Show.init_showDateTime s) as [t | ] eqn:Hdate; simpl; [ | discriminate ].
    destruct (Show_cast_batch batch (S oid)) as [docs' | e] eqn:Hrest; simpl; [ | discriminate ].
    intros Heq. injection Heq as <-.
    constructor; [ | apply (IH (S oid)); exact Hrest ].
    unfold saved_from. simpl. auto.
Qed.

Lemma Show_cast_batch_valid (batch : list Show.Init) (oid : nat) :
  Forall (fun s => Show.init_showDateTime s <> InvalidDate) batch ->
  exists docs, Show_cast_batch batch oid = inl docs.
Proof.
  intros Hvalid. revert oid.
  induction Hvalid as [ | s batch Hs _ IH ]; intros oid; simpl.
  - eexists. reflexivity.
  - unfold Show_cast. destruct (Show.init_showDateTime s) as [t | ]; [ | contradiction ].
    destruct (IH (S oid)) as [docs Hdocs]. simpl. rewrite Hdocs. simpl.
    eexists. reflexivity.
Qed.

Lemma Show_cast_batch_invalid (batch : list Show.Init) (oid : nat) :
  Exists (fun s => Show.init_showDateTime s = InvalidDate) batch ->
  Show_cast_batch batch oid = inr invalid_date_error.
Proof.
  intros Hinv. revert oid.
  induction Hinv as [ s batch Hs | s batch _ IH ]; intros oid; simpl.
  - unfold Show_cast. rewrite Hs. reflexivity.
  - unfold Show_cast at 1.
    destruct (Show.init_showDateTime s); simpl; [ | reflexivity ].
    rewrite (IH (S oid)). reflexivity.
Qed.

Lemma Show_insertMany_run (env : Env) (batch : list Show.Init) (w : World) :
  Show_insertMany env batch w =
  match Show_cast_batch batch (next_oid w) with
  | inr e => (w, inr e)
  | inl docs =>
      match db_fault env ShowInsertMany with
      | Some m =>
          (mkWorld (movies w) (shows w ++ firstn (insert_kept env) docs)
                   (next_oid w + List.length (firstn (insert_kept env) docs))
                   (requests w) (slept w), inr (Error m))
      | None => (mkWorld (movies w) (shows w ++ docs) (next_oid w + List.length docs)
                         (requests w) (slept w), inl tt)
      end
  end.
Proof.
  unfold Show_insertMany.
  destruct (Show_cast_batch batch (next_oid w)); [ | reflexivity ].
  destruct (db_fault env ShowInsertMany); reflexivity.
Qed.

(** The batch insert touches nothing but the shows, and not even them
    when it rejects without a fault of the store, that is, when a
    document is refused. *)
Lemma Show_insertMany_frame (env : Env) (batch : list Show.Init) (w : World) :
  movies (fst (Show_insertMany env batch w)) = movies w /\
  requests (fst (Show_insertMany env batch w)) = requests w /\
  slept (fst (Show_insertMany env batch w)) = slept w /\
  (db_fault env ShowInsertMany = None ->
   forall e, snd (Show_insertMany env batch w) = inr e ->
             fst (Show_insertMany env batch w) = w).
Proof.
  rewrite Show_insertMany_run.
  destruct (Show_cast_batch batch (next_oid w)); [ | simpl; auto ].
  destruct (db_fault env ShowInsertMany); simpl.
  - repeat split. discriminate.
  - repeat split. intros _ e He. discriminate.
Qed.

(** ** [addShow]: the claims *)

(** On a valid [showsInput], a call that is answered with success has
    added one show per (date, time) pair, in input order. *)
Lemma addShow_success_creates (env : Env) (body : AddShowBody) (w : World)
  (vs : list JsVal) (entries : list ShowEntry) :
  showsInput body = JArr vs ->
  Forall2 is_entry vs entries ->
  snd (addShow env body w) = inl added ->
  exists created,
    shows (fst (addShow env body w)) = shows w ++ created /\
    List.length created = total_times entries /\
    Forall2 (created_from env body) (pairs entries) created.
Proof.
  intros Hshape Hvs. rewrite addShow_stages.
  destruct (negb (passes_validation body)); [ discriminate | ].
  destruct (ensure_movie_frame env (movieId body) w) as [Hshows [Hoid _]].
  destruct (ensure_movie env (movieId body) w) as [w1 [m | e]]; simpl in Hshows, Hoid;
    [ | discriminate ].
  rewrite (expand_valid env body vs entries Hshape Hvs).
  destruct (0 <? List.length (map (show_for env body) (pairs entries)))%nat eqn:Hlen.
  - rewrite Show_insertMany_run.
    destruct (Show_cast_batch (map (show_for env body) (pairs entries)) (next_oid w1))
      as [docs | e] eqn:Hdocs; [ | discriminate ].
    destruct (db_fault env ShowInsertMany); [ discriminate | ].
    intros _. simpl.
    apply Show_cast_batch_saved in Hdocs.
    exists docs. split; [ congruence | ]. split.
    + rewrite <- (Forall2_length Hdocs), length_map. apply length_pairs.
    + apply Forall2_map_left in Hdocs.
      eapply Forall2_impl; [ | exact Hdocs ].
      intros p d [Hm [Hd [Hp Hs]]]. unfold created_from. simpl in *. auto.
  - intros _. apply Nat.ltb_ge in Hlen. rewrite length_map in Hlen.
    assert (Hnil : pairs entries = [])
      by (destruct (pairs entries); [ reflexivity | simpl in Hlen; lia ]).
    exists []. simpl. split; [ rewrite app_nil_r; exact Hshows | ].
    split.
    + rewrite <- length_pairs, Hnil. reflexivity.
    + rewrite Hnil. constructor.
Qed.

(** On a valid [showsInput] whose combinations are all valid Dates, a
    call with truthy identifier and price is answered with success as
    soon as the movie step succeeds and the storage layer does not fail
    the insert. *)
Lemma addShow_succeeds (env : Env) (body : AddShowBody) (w : World)
  (vs : list JsVal) (entries : list ShowEntry) :
  showsInput body = JArr vs ->
  Forall2 is_entry vs entries ->
  ToBoolean (movieId body) = true ->
  ToBoolean (showPrice body) = true ->
  Forall (fun p => Date_parse env (combine_date_time p) <> InvalidDate) (pairs entries) ->
  (exists m, snd (ensure_movie env (movieId body) w) = inl m) ->
  db_fault env ShowInsertMany = None ->
  snd (addShow env body w) = inl added.
Proof.
  intros Hshape Hvs Hid Hprice Hdates [m Hmovie] Hdb.
  rewrite addShow_stages. unfold passes_validation.
  rewrite Hid, Hprice, Hshape. cbn [ToBoolean andb negb].
  rewrite <- Hshape.
  destruct (ensure_movie env (movieId body) w) as [w1 r]. simpl in Hmovie. subst r.
  rewrite (expand_valid env body vs entries Hshape Hvs).
  assert (Hvalid : Forall (fun s => Show.init_showDateTime s <> InvalidDate)
                          (map (show_for env body) (pairs entries))).
  { apply Forall_map. exact Hdates. }
  destruct (0 <? List.length (map (show_for env body) (pairs entries)))%nat;
    [ | reflexivity ].
  rewrite Show_insertMany_run.
  destruct (Show_cast_batch_valid _ (next_oid w1) Hvalid) as [docs Hdocs].
  rewrite Hdocs, Hdb. reflexivity.
Qed.

(** C1: for every valid [showsInput] with D dates, date i carrying T_i
    time strings, [addShow] builds exactly the sum of the T_i shows, one
    per (date, time) pair in input order, each with the supplied movie
    identifier and price, the Date of the combined string as date-time
    and an empty seat map; a call that is answered with success has
    created exactly these shows in the collection; and the call is
    answered with success when the identifier and the price are truthy,
    every combination is a valid Date, the movie is found or fetched and
    created, and the storage layer does not fail the insert. *)
Theorem addShow_creates_one_show_per_time (env : Env) (body : AddShowBody) (w : World)
  (vs : list JsVal) (entries : list ShowEntry) :
  showsInput body = JArr vs ->
  Forall2 is_entry vs entries ->
  (expand env (movieId body) (showsInput body) (showPrice body)
   = inl (map (show_for env body) (pairs entries)) /\
   List.length (pairs entries) = total_times entries) /\
  (snd (addShow env body w) = inl added ->
   exists created,
     shows (fst (addShow env body w)) = shows w ++ created /\
     List.length created = total_times entries /\
     Forall2 (created_from env body) (pairs entries) created) /\
  (ToBoolean (movieId body) = true ->
   ToBoolean (showPrice body) = true ->
   Forall (fun p => Date_parse env (combine_date_time p) <> InvalidDate) (pairs entries) ->
   (exists m, snd (ensure_movie env (movieId body) w) = inl m) ->
   db_fault env ShowInsertMany = None ->
   snd (addShow env body w) = inl added).
Proof.
  intros Hshape Hvs. split; [ split | split ].
  - apply (expand_valid env body vs entries Hshape Hvs).
  - apply length_pairs.
  - apply (addShow_success_creates env body w vs entries Hshape Hvs).
  - apply (addShow_succeeds env body w vs entries Hshape Hvs).
Qed.

(** The scenario of a new movie with three showtimes over two dates. *)
Lemma addShow_creates_one_show_per_time_witness :
  snd (addShow Sample.env_up Sample.body Sample.empty) = inl added /\
  exists created,
    shows (fst (addShow Sample.env_up Sample.body Sample.empty))
    = shows Sample.empty ++ created /\
    List.length created = 3%nat /\
    Forall2 (created_from Sample.env_up Sample.body) (pairs Sample.entries) created.
Proof.
  destruct (addShow_creates_one_show_per_time Sample.env_up Sample.body Sample.empty
              (map Sample.encode Sample.entries) Sample.entries)
    as [_ [Hcreates Hsucceeds]].
  - reflexivity.
  - repeat constructor.
  - assert (Hok : snd (addShow Sample.env_up Sample.body Sample.empty) = inl added).
    { apply Hsucceeds.
      - reflexivity.
      - reflexivity.
      - repeat constructor; discriminate.
      - eexists. vm_compute. reflexivity.
      - reflexivity. }
    split; [ exact Hok | exact (Hcreates Hok) ].
Defined.

(** C2: when any of movieId, showsInput and showPrice is absent or falsy,
    [addShow] answers with status 400 and the validation failure, and the
    world is the one it started from: no movie, no show, no request to
    the provider. *)
Theorem addShow_rejects_missing_fields (env : Env) (body : AddShowBody) (w : World) :
  ToBoolean (movieId body) = false \/
  ToBoolean (showsInput body) = false \/
  ToBoolean (showPrice body) = false ->
  addShow env body w
  = (w, inl (mkHttpResponse 400
               (Message false "Missing required fields (movieId, showsInput, showPrice)"))).
Proof.
  intros Hmissing. rewrite addShow_stages. unfold passes_validation.
  destruct Hmissing as [H | [H | H]]; rewrite H.
  - reflexivity.
  - rewrite andb_false_r. reflexivity.
  - rewrite andb_false_r. reflexivity.
Qed.

Lemma addShow_rejects_missing_fields_witness :
  addShow Sample.env_up Sample.body_no_price Sample.empty
  = (Sample.empty,
     inl (mkHttpResponse 400
            (Message false "Missing required fields (movieId, showsInput, showPrice)"))).
Proof.
  apply (addShow_rejects_missing_fields Sample.env_up Sample.body_no_price Sample.empty).
  right. right. reflexivity.
Defined.

(** C3: when a movie with the given identifier is stored, [addShow]
    sends nothing to the provider (the log of attempts and of delays is
    as before) and the movie collection is unchanged. *)
Theorem addShow_stored_movie_not_fetched (env : Env) (body : AddShowBody) (w : World) :
  (exists m, In m (movies w) /\ Movie._id m = movieId body) ->
  requests (fst (addShow env body w)) = requests w /\
  slept (fst (addShow env body w)) = slept w /\
  movies (fst (addShow env body w)) = movies w.
Proof.
  intros Hstored. rewrite addShow_stages.
  destruct (negb (passes_validation body)); [ simpl; auto | ].
  pose proof (ensure_movie_stored env (movieId body) w Hstored) as Hsame.
  destruct (ensure_movie env (movieId body) w) as [w1 [m | e]]; simpl in Hsame; subst w1;
    [ | simpl; auto ].
  destruct (expand env (movieId body) (showsInput body) (showPrice body)) as [batch | e];
    [ | simpl; auto ].
  destruct (0 <? List.length batch)%nat; [ | simpl; auto ].
  destruct (Show_insertMany_frame env batch w) as [Hm [Hr [Hs _]]].
  destruct (Show_insertMany env batch w) as [w2 [[] | e]]; simpl in *; auto.
Qed.

Lemma addShow_stored_movie_not_fetched_witness :
  requests (fst (addShow Sample.env_down Sample.body Sample.stocked)) = requests Sample.stocked /\
  slept (fst (addShow Sample.env_down Sample.body Sample.stocked)) = slept Sample.stocked /\
  movies (fst (addShow Sample.env_down Sample.body Sample.stocked)) = movies Sample.stocked.
Proof.
  apply (addShow_stored_movie_not_fetched Sample.env_down Sample.body Sample.stocked).
  eexists. split; [ left; reflexivity | reflexivity ].
Defined.

(** C4: when no movie with the given identifier is stored and the request
    for the details or the request for the credits fails, [addShow]
    answers with a failure and neither collection has changed. *)
Theorem addShow_fetch_failure_creates_nothing (env : Env) (body : AddShowBody) (w : World)
  (id : string) :
  (forall m, In m (movies w) -> Movie._id m <> movieId body) ->
  ToString (movieId body) = Some id ->
  fetch_fails env (details_url id) \/ fetch_fails env (credits_url id) ->
  exists r,
    snd (addShow env body w) = inl r /\
    succeeded r = false /\
    movies (fst (addShow env body w)) = movies w /\
    shows (fst (addShow env body w)) = shows w.
Proof.
  intros Habsent Hid Hfail. rewrite addShow_stages.
  destruct (negb (passes_validation body)).
  { exists missing_fields. simpl. auto. }
  destruct (ensure_movie_frame env (movieId body) w) as [Hshows [_ Hmovies]].
  assert (Hthrows : exists e, snd (ensure_movie env (movieId body) w) = inr e).
  { unfold ensure_movie, bind. rewrite Movie_findById_run.
    destruct (db_fault env MovieFindById); [ eexists; reflexivity | ].
    rewrite (find_absent _ _ Habsent).
    apply (fetch_and_create_fails env (movieId body) id w Hid Hfail). }
  destruct Hthrows as [e He].
  destruct (ensure_movie env (movieId body) w) as [w1 r]. simpl in *. subst r.
  exists (failure e). simpl. auto.
Qed.

Lemma addShow_fetch_failure_creates_nothing_witness :
  exists r,
    snd (addShow Sample.env_down Sample.body Sample.empty) = inl r /\
    succeeded r = false /\
    movies (fst (addShow Sample.env_down Sample.body Sample.empty)) = movies Sample.empty /\
    shows (fst (addShow Sample.env_down Sample.body Sample.empty)) = shows Sample.empty.
Proof.
  apply (addShow_fetch_failure_creates_nothing Sample.env_down Sample.body Sample.empty "tt1").
  - intros m [].
  - reflexivity.
  - left. exists Sample.not_found. reflexivity.
Defined.

(** A property of the accumulator that every callback run preserves
    holds when the loop ends. *)
Lemma forEach_invariant {S : Type} (P : S -> Prop) (f : JsVal -> S -> Res S) :
  (forall x s s', P s -> f x s = inl s' -> P s') ->
  forall xs s s', P s -> forEach f xs s = inl s' -> P s'.
Proof.
  intros Hstep xs. induction xs as [ | x xs IH ]; intros s s' Hs; simpl.
  - intros Heq. injection Heq as <-. exact Hs.
  - destruct (f x s) as [s1 | e] eqn:Hf; simpl; [ | discriminate ].
    apply IH. apply (Hstep x s s1 Hs Hf).
Qed.

(** Whatever the request, every show [addShow] builds carries the Date of
    some string. *)
Lemma expand_dates (env : Env) (movieId showsInput showPrice : JsVal)
  (batch : list Show.Init) :
  expand env movieId showsInput showPrice = inl batch ->
  Forall (fun i => exists s, Show.init_showDateTime i = Date_parse env s) batch.
Proof.
  unfold expand. destruct (forEach_receiver "showsInput" showsInput) as [vs | e];
    simpl; [ | discriminate ].
  apply forEach_invariant; [ | constructor ].
  intros v acc acc' Hacc. unfold expand_entry.
  destruct (get_prop v "date") as [d | e]; simpl; [ | discriminate ].
  destruct (get_prop v "time") as [t | e]; simpl; [ | discriminate ].
  destruct (forEach_receiver "show.time" t) as [ts | e]; simpl; [ | discriminate ].
  apply forEach_invariant; [ | exact Hacc ].
  intros x a a' Ha. unfold push_show.
  destruct (dateTimeString d x) as [str | e]; simpl; [ | discriminate ].
  intros Heq. injection Heq as <-.
  apply Forall_app. split; [ exact Ha | ].
  constructor; [ | constructor ]. simpl. exists str. reflexivity.
Qed.

Lemma In_firstn {A : Type} (n : nat) (l : list A) (x : A) :
  In x (firstn n l) -> In x l.
Proof.
  revert l. induction n as [ | n IH ]; intros [ | y l ]; simpl; try tauto.
  intros [Hx | Hx]; [ left; exact Hx | right; apply IH; exact Hx ].
Qed.

(** Whatever the request, the shows [addShow] adds to the collection
    carry the time values of valid Dates. *)
Lemma addShow_persists_valid_dates (env : Env) (body : AddShowBody) (w : World) :
  exists created,
    shows (fst (addShow env body w)) = shows w ++ created /\
    Forall (fun d => exists s, Date_parse env s = TimeValue (Show.showDateTime d)) created.
Proof.
  rewrite addShow_stages.
  destruct (negb (passes_validation body)).
  { exists []. simpl. rewrite app_nil_r. auto. }
  destruct (ensure_movie_frame env (movieId body) w) as [Hshows [_ _]].
  destruct (ensure_movie env (movieId body) w) as [w1 [m | e]]; simpl in Hshows.
  2: { exists []. simpl. rewrite app_nil_r. auto. }
  destruct (expand env (movieId body) (showsInput body) (showPrice body))
    as [batch | e] eqn:Hexp.
  2: { exists []. simpl. rewrite app_nil_r. auto. }
  destruct (0 <? List.length batch)%nat.
  2: { exists []. simpl. rewrite app_nil_r. auto. }
  rewrite Show_insertMany_run.
  destruct (Show_cast_batch batch (next_oid w1)) as [docs | e] eqn:Hcast.
  2: { exists []. simpl. rewrite app_nil_r. auto. }
  assert (Hdocs : Forall (fun d => exists s, Date_parse env s = TimeValue (Show.showDateTime d))
                         docs).
  { apply Show_cast_batch_saved in Hcast. apply expand_dates in Hexp.
    clear - Hcast Hexp.
    induction Hcast as [ | i d batch docs [_ [Hd _]] _ IH ]; constructor.
    - inversion Hexp as [ | ? ? [s Hs] _ ]; subst. exists s. congruence.
    - apply IH. inversion Hexp; assumption. }
  destruct (db_fault env ShowInsertMany).
  - exists (firstn (insert_kept env) docs). simpl. split; [ congruence | ].
    rewrite Forall_forall in *. intros d Hd. apply Hdocs. apply (In_firstn _ _ _ Hd).
  - exists docs. simpl. split; [ congruence | exact Hdocs ].
Qed.

(** C9: the shows a call to [addShow] persists carry the time values of
    valid Dates; when some time string of a request combines with its
    date into a string the Date constructor turns into an Invalid Date,
    [addShow] answers with a failure and the show collection is
    unchanged, and a call that got as far as the insert answers with the
    validation error of the date. *)
Theorem addShow_malformed_time_reported (env : Env) (body : AddShowBody) (w : World) :
  (exists created,
     shows (fst (addShow env body w)) = shows w ++ created /\
     Forall (fun d => exists s, Date_parse env s = TimeValue (Show.showDateTime d)) created) /\
  (forall (vs : list JsVal) (entries : list ShowEntry),
     showsInput body = JArr vs ->
     Forall2 is_entry vs entries ->
     Exists (fun p => Date_parse env (combine_date_time p) = InvalidDate) (pairs entries) ->
     exists r,
       snd (addShow env body w) = inl r /\
       succeeded r = false /\
       shows (fst (addShow env body w)) = shows w /\
       (passes_validation body = true ->
        (exists m, snd (ensure_movie env (movieId body) w) = inl m) ->
        r = failure invalid_date_error)).
Proof.
  split; [ apply addShow_persists_valid_dates | ].
  intros vs entries Hshape Hvs Hbad. rewrite addShow_stages.
  destruct (passes_validation body).
  2: { exists missing_fields. simpl. repeat split; auto. discriminate. }
  simpl negb. cbv iota.
  destruct (ensure_movie_frame env (movieId body) w) as [Hshows [_ _]].
  destruct (ensure_movie env (movieId body) w) as [w1 [m | e]]; simpl in Hshows.
  2: { exists (failure e). simpl. repeat split; auto. intros _ [m Hm]. discriminate. }
  rewrite (expand_valid env body vs entries Hshape Hvs).
  assert (Hinv : Exists (fun s => Show.init_showDateTime s = InvalidDate)
                        (map (show_for env body) (pairs entries))).
  { apply Exists_exists in Hbad. destruct Hbad as [p [Hin Hp]].
    apply Exists_exists. exists (show_for env body p). split.
    - apply in_map. exact Hin.
    - exact Hp. }
  destruct (0 <? List.length (map (show_for env body) (pairs entries)))%nat eqn:Hlen.
  - rewrite Show_insertMany_run, (Show_cast_batch_invalid _ _ Hinv).
    exists (failure invalid_date_error). simpl. auto.
  - exfalso. apply Nat.ltb_ge in Hlen.
    inversion Hinv as [ s l Hs Heq | s l Hl Heq ]; rewrite <- Heq in Hlen; simpl in Hlen; lia.
Qed.

(** A request with the time string [quarter past ten]. *)
Lemma addShow_malformed_time_reported_witness :
  snd (addShow Sample.env_up Sample.body_bad_time Sample.empty)
  = inl (failure invalid_date_error) /\
  shows (fst (addShow Sample.env_up Sample.body_bad_time Sample.empty)) = [].
Proof.
  destruct (addShow_malformed_time_reported Sample.env_up Sample.body_bad_time Sample.empty)
    as [_ Hreported].
  destruct (Hreported
              [Sample.encode (mkShowEntry "2024-05-01" ["10:00"; "quarter past ten"])]
              [mkShowEntry "2024-05-01" ["10:00"; "quarter past ten"]])
    as [r [Hr [_ [Hshows Hmsg]]]].
  - reflexivity.
  - repeat constructor.
  - right. left. reflexivity.
  - split; [ | exact Hshows ].
    rewrite Hr, Hmsg; [ reflexivity | reflexivity | ].
    eexists. vm_compute. reflexivity.
Defined.

(** C10, as stated, fails: with truthy fields and an empty [showsInput],
    a request for a movie that is not stored and that the provider does
    not know is answered with a failure. *)
Lemma addShow_empty_showsInput_can_fail :
  ToBoolean (movieId Sample.body_no_times) = true /\
  ToBoolean (showPrice Sample.body_no_times) = true /\
  showsInput Sample.body_no_times = JArr [] /\
  snd (addShow Sample.env_down Sample.body_no_times Sample.empty)
  = inl (res_json (Message false
           "TMDB API Error: 404 - The resource you requested could not be found.")).
Proof. repeat split. Qed.

(** C10, amended: with truthy movieId and showPrice and an empty array as
    [showsInput], the request passes validation, no show is created and
    the batch insert is not reached (the world is the one the movie step
    leaves, whatever the storage layer would do with an insert), and the
    answer is success when the movie step succeeds, the failure it threw
    otherwise. *)
Theorem addShow_empty_showsInput (env : Env) (body : AddShowBody) (w : World) :
  ToBoolean (movieId body) = true ->
  ToBoolean (showPrice body) = true ->
  showsInput body = JArr [] ->
  passes_validation body = true /\
  addShow env body w
  = (fst (ensure_movie env (movieId body) w),
     inl match snd (ensure_movie env (movieId body) w) with
         | inl _ => added
         | inr e => failure e
         end) /\
  shows (fst (addShow env body w)) = shows w /\
  next_oid (fst (addShow env body w)) = next_oid w.
Proof.
  intros Hid Hprice Hshape.
  assert (Hpass : passes_validation body = true).
  { unfold passes_validation. rewrite Hid, Hprice, Hshape. reflexivity. }
  split; [ exact Hpass | ].
  rewrite addShow_stages, Hpass. simpl negb. cbv iota.
  destruct (ensure_movie_frame env (movieId body) w) as [Hshows [Hoid _]].
  destruct (ensure_movie env (movieId body) w) as [w1 [m | e]]; simpl in Hshows, Hoid.
  - unfold expand. rewrite Hshape. simpl. auto.
  - simpl. auto.
Qed.

Lemma addShow_empty_showsInput_witness :
  passes_validation Sample.body_no_times = true /\
  addShow Sample.env_up Sample.body_no_times Sample.stocked = (Sample.stocked, inl added) /\
  shows (fst (addShow Sample.env_up Sample.body_no_times Sample.stocked)) = shows Sample.stocked /\
  next_oid (fst (addShow Sample.env_up Sample.body_no_times Sample.stocked))
  = next_oid Sample.stocked.
Proof.
  apply (addShow_empty_showsInput Sample.env_up Sample.body_no_times Sample.stocked);
    reflexivity.
Defined.

(** ** [getShows]: distinct movies of upcoming shows *)

Lemma same_ref_eq (a b : option nat) : same_ref a b = true <-> a = b.
Proof.
  destruct a as [x | ], b as [y | ]; simpl;
    try (split; [ discriminate | discriminate ]); try (split; reflexivity).
  rewrite Nat.eqb_eq. split; congruence.
Qed.

Lemma Set_add_In (set : list (option nat)) (x y : option nat) :
  In y (Set_add set x) <-> In y set \/ y = x.
Proof.
  unfold Set_add. destruct (existsb (same_ref x) set) eqn:Hex.
  - apply existsb_exists in Hex. destruct Hex as [z [Hz Hsame]].
    apply same_ref_eq in Hsame. subst z.
    split; [ auto | intros [H | ->]; assumption ].
  - rewrite in_app_iff. simpl. split.
    + intros [H | [H | []]]; auto.
    + intros [H | H]; auto.
Qed.

Lemma Set_add_NoDup (set : list (option nat)) (x : option nat) :
  NoDup set -> NoDup (Set_add set x).
Proof.
  intros Hnd. unfold Set_add. destruct (existsb (same_ref x) set) eqn:Hex.
  - exact Hnd.
  - apply NoDup_app; [ exact Hnd | repeat constructor; intros [] | ].
    intros y Hy [Hxy | []]. subst y.
    assert (Habs : existsb (same_ref x) set = true).
    { apply existsb_exists. exists x. split; [ exact Hy | apply same_ref_eq; reflexivity ]. }
    congruence.
Qed.

Lemma fold_Set_add (items set : list (option nat)) :
  NoDup set ->
  NoDup (fold_left Set_add items set) /\
  (forall y, In y (fold_left Set_add items set) <-> In y set \/ In y items).
Proof.
  revert set. induction items as [ | x items IH ]; intros set Hnd; simpl.
  - split; [ exact Hnd | ]. intros y. split; [ auto | intros [H | []]; exact H ].
  - destruct (IH (Set_add set x) (Set_add_NoDup set x Hnd)) as [Hnd' Hin].
    split; [ exact Hnd' | ].
    intros y. rewrite Hin, Set_add_In. split.
    + intros [[H | H] | H]; auto.
    + intros [H | [H | H]]; auto.
Qed.

(** A Set holds each reference of its source once. *)
Lemma Set_from_spec (items : list (option nat)) :
  NoDup (Set_from items) /\ (forall y, In y (Set_from items) <-> In y items).
Proof.
  destruct (fold_Set_add items [] (NoDup_nil _)) as [Hnd Hin].
  split; [ exact Hnd | ].
  intros y. unfold Set_from. rewrite Hin. split; [ intros [[] | H]; exact H | auto ].
Qed.

Lemma index_of_Some {A : Type} (p : A -> bool) (l : list A) (i : nat) :
  index_of p l = Some i -> exists x, nth_error l i = Some x /\ p x = true.
Proof.
  revert i. induction l as [ | x l IH ]; intros i; simpl.
  - discriminate.
  - destruct (p x) eqn:Hp.
    + intros Heq. injection Heq as <-. exists x. auto.
    + destruct (index_of p l) as [j | ]; [ | discriminate ].
      intros Heq. injection Heq as <-. apply (IH j). reflexivity.
Qed.

Lemma index_of_ext {A : Type} (p q : A -> bool) (l : list A) :
  (forall x, p x = q x) -> index_of p l = index_of q l.
Proof.
  intros Hext. induction l as [ | x l IH ]; simpl.
  - reflexivity.
  - rewrite Hext, IH. reflexivity.
Qed.

Lemma insert_by_date_In (s x : Show.Doc) (l : list Show.Doc) :
  In x (insert_by_date s l) <-> x = s \/ In x l.
Proof.
  induction l as [ | y l IH ]; simpl.
  - split; [ intros [H | []]; auto | intros [H | []]; auto ].
  - destruct (Show.showDateTime s <=? Show.showDateTime y)%Z; simpl.
    + split; [ intros [H | H]; auto | intros [H | H]; auto ].
    + rewrite IH. split.
      * intros [H | [H | H]]; auto.
      * intros [H | [H | H]]; auto.
Qed.

(** Sorting keeps the shows of the query, no more and no fewer. *)
Lemma sort_by_date_In (x : Show.Doc) (l : list Show.Doc) :
  In x (sort_by_date l) <-> In x l.
Proof.
  unfold sort_by_date. induction l as [ | y l IH ]; simpl.
  - reflexivity.
  - rewrite insert_by_date_In, IH. split; intros [H | H]; auto.
Qed.

(** Under the default populate, two shows that received different
    instances refer to movies with different identifiers. *)
Lemma shared_instances_differ (fetched : list Movie.Doc) (s1 s2 : Show.Doc)
  (a b : nat) (m1 m2 : Movie.Doc) :
  index_of (refers_to s1) fetched = Some a ->
  index_of (refers_to s2) fetched = Some b ->
  nth_error fetched a = Some m1 -> nth_error fetched b = Some m2 ->
  a <> b -> Movie._id m1 <> Movie._id m2.
Proof.
  intros Ha Hb Hm1 Hm2 Hab Hid. apply Hab.
  destruct (index_of_Some _ _ _ Ha) as [x1 [Hx1 Hp1]].
  destruct (index_of_Some _ _ _ Hb) as [x2 [Hx2 Hp2]].
  rewrite Hm1 in Hx1. injection Hx1 as <-.
  rewrite Hm2 in Hx2. injection Hx2 as <-.
  unfold refers_to in Hp1, Hp2. apply JsVal_eqb_eq in Hp1, Hp2.
  assert (Hext : forall m, refers_to s1 m = refers_to s2 m).
  { intros m. unfold refers_to. rewrite <- Hp1, <- Hp2, Hid. reflexivity. }
  rewrite (index_of_ext _ _ fetched Hext) in Ha. congruence.
Qed.

Lemma getShows_run (env : Env) (w : World) :
  db_fault env ShowFindPopulate = None ->
  getShows env w =
  let found := sort_by_date (filter (fun s => (now env <=? Show.showDateTime s)%Z) (shows w)) in
  let fetched := fst (populate_shared (movies w) found) in
  (w, inl (res_json (Shows (map (deref fetched)
                                (Set_from (map (fun s => index_of (refers_to s) fetched) found)))))).
Proof.
  intros Hdb.
  unfold getShows, try_catch, bind, Show_find_upcoming_populated, storage.
  rewrite Hdb. simpl. rewrite map_map. reflexivity.
Qed.

(** C5: the list [getShows] returns holds no two movies with the same
    identifier, and every movie in it is a stored movie that some stored
    show with a date-time of now or later refers to. *)
Theorem getShows_distinct_upcoming_movies (env : Env) (w : World) :
  db_fault env ShowFindPopulate = None ->
  exists l,
    getShows env w = (w, inl (res_json (Shows l))) /\
    (forall i j m m', i <> j ->
       nth_error l i = Some (Some m) -> nth_error l j = Some (Some m') ->
       Movie._id m <> Movie._id m') /\
    (forall m, In (Some m) l ->
       In m (movies w) /\
       exists s, In s (shows w) /\ (now env <= Show.showDateTime s)%Z /\
                 Show.movie s = Movie._id m).
Proof.
  intros Hdb. rewrite (getShows_run env w Hdb). cbv zeta.
  set (found := sort_by_date (filter (fun s => (now env <=? Show.showDateTime s)%Z) (shows w))).
  set (fetched := fst (populate_shared (movies w) found)).
  set (refs := map (fun s => index_of (refers_to s) fetched) found).
  destruct (Set_from_spec refs) as [Hnd Hin].
  eexists. split; [ reflexivity | ].
  assert (Hsource : forall a, In (Some a) (Set_from refs) ->
            exists s, In s found /\ index_of (refers_to s) fetched = Some a).
  { intros a Ha. apply Hin in Ha. unfold refs in Ha. apply in_map_iff in Ha.
    destruct Ha as [s [Hs Hfound]]. exists s. auto. }
  assert (Hat : forall i m, nth_error (map (deref fetched) (Set_from refs)) i = Some (Some m) ->
            exists a, nth_error (Set_from refs) i = Some (Some a) /\
                      nth_error fetched a = Some m).
  { intros i m Hi. rewrite nth_error_map in Hi.
    destruct (nth_error (Set_from refs) i) as [[a | ] | ]; simpl in Hi; try discriminate.
    exists a. split; [ reflexivity | congruence ]. }
  split.
  - intros i j m m' Hij Hi Hj.
    destruct (Hat i m Hi) as [a [Hia Hma]].
    destruct (Hat j m' Hj) as [b [Hjb Hmb]].
    destruct (Hsource a (nth_error_In _ _ Hia)) as [s1 [_ Hs1]].
    destruct (Hsource b (nth_error_In _ _ Hjb)) as [s2 [_ Hs2]].
    apply (shared_instances_differ fetched s1 s2 a b m m' Hs1 Hs2 Hma Hmb).
    intros Hab. subst b. apply Hij.
    apply (proj1 (NoDup_nth_error (Set_from refs)) Hnd).
    + apply nth_error_Some. congruence.
    + congruence.
  - intros m Hm. apply In_nth_error in Hm. destruct Hm as [i Hi].
    destruct (Hat i m Hi) as [a [Hia Hma]].
    destruct (Hsource a (nth_error_In _ _ Hia)) as [s [Hs Hidx]].
    destruct (index_of_Some _ _ _ Hidx) as [x [Hx Hrefers]].
    rewrite Hma in Hx. injection Hx as <-.
    split.
    + apply nth_error_In in Hma. unfold fetched, populate_shared in Hma. simpl in Hma.
      apply filter_In in Hma. apply Hma.
    + exists s. unfold found in Hs. apply sort_by_date_In, filter_In in Hs.
      destruct Hs as [Hstored Hnow].
      split; [ exact Hstored | ]. split; [ apply Z.leb_le; exact Hnow | ].
      unfold refers_to in Hrefers. apply JsVal_eqb_eq in Hrefers. congruence.
Qed.

(** Three upcoming shows of one movie: the movie is listed once. *)
Lemma getShows_distinct_upcoming_movies_witness :
  exists l,
    getShows Sample.env_up Sample.stocked = (Sample.stocked, inl (res_json (Shows l))) /\
    List.length l = 1%nat.
Proof.
  destruct (getShows_distinct_upcoming_movies Sample.env_up Sample.stocked eq_refl)
    as [l [Hl _]].
  exists l. split; [ exact Hl | ].
  vm_compute in Hl. injection Hl as <-. reflexivity.
Defined.

(** The deduplication is by reference: were the shows populated with
    [clone: true], each with an instance of its own, the same three
    shows would yield the movie three times. *)
Example cloned_instances_are_not_deduplicated :
  let found := shows Sample.stocked in
  let populated := populate true (movies Sample.stocked) found in
  List.length (Set_from (map movie_ref (snd populated))) = 3%nat /\
  List.length (Set_from (map movie_ref (snd (populate false (movies Sample.stocked) found))))
  = 1%nat.
Proof. split; reflexivity. Qed.

(** ** [getShow]: showtimes grouped by date *)

(** The calendar functions agree with their ECMAScript definitions:
    [YearFromTime] is the year the day of [t] falls in, and the month and
    the day of the month are in range. *)
Lemma DayFromYear_next (y : Z) :
  (DateTime.DayFromYear (y + 1)
   = DateTime.DayFromYear y + (if DateTime.leap y then 366 else 365))%Z.
Proof.
  unfold DateTime.DayFromYear, DateTime.leap.
  destruct (y mod 4 =? 0)%Z eqn:H4; destruct (y mod 100 =? 0)%Z eqn:H100;
    destruct (y mod 400 =? 0)%Z eqn:H400; cbn [andb orb negb];
    rewrite ?Z.eqb_eq, ?Z.eqb_neq in *;
    Z.div_mod_to_equations; lia.
Qed.

Lemma YearFromTime_spec (t : Z) :
  (DateTime.DayFromYear (DateTime.YearFromTime t) <= DateTime.Day t
   < DateTime.DayFromYear (DateTime.YearFromTime t + 1))%Z.
Proof.
  unfold DateTime.YearFromTime. cbv zeta.
  set (d := DateTime.Day t). clearbody d.
  destruct (d <? DateTime.DayFromYear (1970 + d * 400 / 146097))%Z eqn:H1.
  - apply Z.ltb_lt in H1. unfold DateTime.DayFromYear in *.
    Z.div_mod_to_equations; lia.
  - apply Z.ltb_ge in H1.
    destruct (DateTime.DayFromYear (1970 + d * 400 / 146097 + 1) <=? d)%Z eqn:H2.
    + apply Z.leb_le in H2. unfold DateTime.DayFromYear in *.
      Z.div_mod_to_equations; lia.
    + apply Z.leb_gt in H2. lia.
Qed.

Lemma DayWithinYear_range (t : Z) :
  (0 <= DateTime.DayWithinYear t < 365 + DateTime.InLeapYear t)%Z.
Proof.
  unfold DateTime.DayWithinYear, DateTime.InLeapYear.
  pose proof (YearFromTime_spec t) as H.
  rewrite DayFromYear_next in H.
  destruct (DateTime.leap (DateTime.YearFromTime t)); lia.
Qed.

Lemma MonthFromTime_range (t : Z) : (0 <= DateTime.MonthFromTime t <= 11)%Z.
Proof.
  unfold DateTime.MonthFromTime. cbv zeta.
  repeat match goal with
         | |- context [if ?c then _ else _] => destruct c
         end; lia.
Qed.

Lemma DateFromTime_range (t : Z) : (1 <= DateTime.DateFromTime t <= 31)%Z.
Proof.
  pose proof (DayWithinYear_range t) as Hd.
  unfold DateTime.DateFromTime, DateTime.MonthFromTime. cbv zeta.
  assert (Hl : DateTime.InLeapYear t = 0%Z \/ DateTime.InLeapYear t = 1%Z).
  { unfold DateTime.InLeapYear. destruct (DateTime.leap (DateTime.YearFromTime t)); auto. }
  repeat match goal with
         | |- context [if (?a <? ?b)%Z then _ else _] => destruct (Z.ltb_spec a b)
         end; cbv iota; lia.
Qed.

Example toISOString_2024 :
  DateTime.toISOString 1714557600000 = "2024-05-01T10:00:00.000Z".
Proof. reflexivity. Qed.

Example toISOString_leap_day :
  DateTime.toISOString 1709251199999 = "2024-02-29T23:59:59.999Z".
Proof. reflexivity. Qed.

Example toISOString_before_epoch :
  DateTime.toISOString (-1) = "1969-12-31T23:59:59.999Z".
Proof. reflexivity. Qed.

Example toISOString_latest :
  DateTime.toISOString 8640000000000000 = "+275760-09-13T00:00:00.000Z".
Proof. reflexivity. Qed.

Lemma digit_cases (d : Z) :
  In (DateTime.digit d) ["0"; "1"; "2"; "3"; "4"; "5"; "6"; "7"; "8"; "9"]%char.
Proof.
  unfold DateTime.digit.
  destruct d as [ | p | p ]; simpl; auto 12.
  do 4 (try (destruct p as [ p | p | ]; simpl; auto 12)).
Qed.

Lemma digit_not_T (d : Z) : Ascii.eqb (DateTime.digit d) "T" = false.
Proof.
  pose proof (digit_cases d) as H. simpl in H.
  repeat (destruct H as [<- | H]; [ reflexivity | ]). destruct H.
Qed.

(** The date part of [toISOString] starts with a digit or a sign. *)
Lemma date_string_head (t : Z) :
  exists c rest, DateTime.date_string t = String c rest /\
    In c ["0"; "1"; "2"; "3"; "4"; "5"; "6"; "7"; "8"; "9"; "-"; "+"]%char.
Proof.
  unfold DateTime.date_string, DateTime.year_string.
  destruct ((0 <=? DateTime.YearFromTime t)%Z && (DateTime.YearFromTime t <=? 9999)%Z).
  - unfold DateTime.pad4. simpl. eexists. eexists. split; [ reflexivity | ].
    pose proof (digit_cases (DateTime.YearFromTime t / 1000 mod 10)) as H.
    simpl in H. simpl. tauto.
  - destruct (DateTime.YearFromTime t <? 0)%Z; simpl; eexists; eexists;
      (split; [ reflexivity | simpl; tauto ]).
Qed.

(** So it names no property a plain object inherits. *)
Lemma date_string_not_inherited (t : Z) : inherited (DateTime.date_string t) = false.
Proof.
  destruct (date_string_head t) as [c [rest [Heq Hc]]]. rewrite Heq.
  simpl in Hc.
  repeat (destruct Hc as [<- | Hc]; [ reflexivity | ]). destruct Hc.
Qed.

(** [toISOString().split("T")[0]] is the date part: the first T of the
    string is the one that separates date and time. *)
Lemma date_key (t : Z) :
  DateTime.split_head "T" (DateTime.toISOString t) = DateTime.date_string t.
Proof.
  unfold DateTime.toISOString, DateTime.date_string, DateTime.year_string.
  destruct ((0 <=? DateTime.YearFromTime t)%Z && (DateTime.YearFromTime t <=? 9999)%Z);
    [ | destruct (DateTime.YearFromTime t <? 0)%Z ];
    unfold DateTime.pad6, DateTime.pad4, DateTime.pad3, DateTime.pad2;
    cbn [append]; cbn [DateTime.split_head Ascii.eqb Bool.eqb];
    rewrite !digit_not_T; reflexivity.
Qed.

Lemma group_show_run (show : Show.Doc) (dateTime : list (string * list Slot)) :
  group_show show dateTime =
  let date := DateTime.date_string (Show.showDateTime show) in
  match own_bucket dateTime date with
  | Some _ => inl (bucket_push dateTime date (slot_of show))
  | None => inl (dateTime ++ [(date, [slot_of show])])
  end.
Proof.
  unfold group_show. rewrite date_key, date_string_not_inherited. reflexivity.
Qed.

Lemma own_bucket_None (dateTime : list (string * list Slot)) (k : string) :
  own_bucket dateTime k = None <-> ~ In k (map fst dateTime).
Proof.
  induction dateTime as [ | [k' b] dateTime IH ]; simpl.
  - tauto.
  - destruct (k' =? k) eqn:Hk.
    + apply String.eqb_eq in Hk. split; [ discriminate | intros H; exfalso; auto ].
    + apply String.eqb_neq in Hk. rewrite IH. tauto.
Qed.

Lemma own_bucket_In (dateTime : list (string * list Slot)) (k : string) (b : list Slot) :
  own_bucket dateTime k = Some b -> In (k, b) dateTime.
Proof.
  induction dateTime as [ | [k' b'] dateTime IH ]; simpl.
  - discriminate.
  - destruct (k' =? k) eqn:Hk.
    + apply String.eqb_eq in Hk. intros Heq. injection Heq as <-. subst. auto.
    + auto.
Qed.

Lemma In_own_bucket (dateTime : list (string * list Slot)) (k : string) (b : list Slot) :
  NoDup (map fst dateTime) -> In (k, b) dateTime -> own_bucket dateTime k = Some b.
Proof.
  induction dateTime as [ | [k' b'] dateTime IH ]; simpl.
  - intros _ [].
  - intros Hnd Hin. inversion Hnd as [ | ? ? Hnotin Hnd' ]; subst.
    destruct Hin as [Heq | Hin].
    + injection Heq as -> ->. rewrite String.eqb_refl. reflexivity.
    + destruct (k' =? k) eqn:Hk.
      * apply String.eqb_eq in Hk. subst k'. exfalso. apply Hnotin.
        apply (in_map fst) in Hin. exact Hin.
      * apply IH; assumption.
Qed.

Lemma bucket_push_keys (dateTime : list (string * list Slot)) (k : string) (slot : Slot) :
  map fst (bucket_push dateTime k slot) = map fst dateTime.
Proof.
  induction dateTime as [ | [k' b] dateTime IH ]; simpl.
  - reflexivity.
  - destruct (k' =? k); simpl; [ reflexivity | rewrite IH; reflexivity ].
Qed.

Lemma own_bucket_push (dateTime : list (string * list Slot)) (k k' : string) (slot : Slot) :
  own_bucket (bucket_push dateTime k slot) k' =
  if k =? k' then option_map (fun b => b ++ [slot]) (own_bucket dateTime k')
  else own_bucket dateTime k'.
Proof.
  induction dateTime as [ | [k0 b] dateTime IH ]; simpl.
  - destruct (k =? k'); reflexivity.
  - destruct (k0 =? k) eqn:H0; simpl.
    + apply String.eqb_eq in H0. subst k0.
      destruct (k =? k'); reflexivity.
    + destruct (k0 =? k') eqn:H1.
      * apply String.eqb_eq in H1. subst k0. rewrite String.eqb_sym, H0. reflexivity.
      * exact IH.
Qed.

Lemma own_bucket_app (dateTime : list (string * list Slot)) (k k' : string) (b : list Slot) :
  own_bucket (dateTime ++ [(k, b)]) k' =
  match own_bucket dateTime k' with
  | Some x => Some x
  | None => if k =? k' then Some b else None
  end.
Proof.
  induction dateTime as [ | [k0 b0] dateTime IH ]; simpl.
  - reflexivity.
  - destruct (k0 =? k'); [ reflexivity | exact IH ].
Qed.

Lemma on_date_app (k : string) (xs ys : list Show.Doc) :
  on_date k (xs ++ ys) = on_date k xs ++ on_date k ys.
Proof. unfold on_date. apply filter_app. Qed.

Lemma bucket_for_snoc (k : string) (processed : list Show.Doc) (show : Show.Doc) :
  bucket_for k (processed ++ [show]) =
  if DateTime.date_string (Show.showDateTime show) =? k then
    match bucket_for k processed with
    | Some b => Some (b ++ [slot_of show])
    | None => Some [slot_of show]
    end
  else bucket_for k processed.
Proof.
  unfold bucket_for. rewrite on_date_app. unfold on_date at 2. simpl.
  destruct (DateTime.date_string (Show.showDateTime show) =? k).
  - destruct (on_date k processed) as [ | x l ]; simpl; [ reflexivity | ].
    rewrite map_app. reflexivity.
  - rewrite app_nil_r. reflexivity.
Qed.

Lemma group_show_grouped (show : Show.Doc) (dateTime : list (string * list Slot))
  (processed : list Show.Doc) :
  grouped dateTime processed ->
  exists dateTime', group_show show dateTime = inl dateTime' /\
                    grouped dateTime' (processed ++ [show]).
Proof.
  intros [Hnd Hbuckets]. rewrite group_show_run. cbv zeta.
  set (date := DateTime.date_string (Show.showDateTime show)).
  destruct (own_bucket dateTime date) as [b | ] eqn:Hown.
  - eexists. split; [ reflexivity | ]. split.
    + rewrite bucket_push_keys. exact Hnd.
    + intros k. rewrite own_bucket_push, bucket_for_snoc. fold date.
      destruct (date =? k) eqn:Hk; [ | apply Hbuckets ].
      apply String.eqb_eq in Hk. subst k.
      rewrite <- Hbuckets, Hown. reflexivity.
  - eexists. split; [ reflexivity | ]. split.
    + rewrite map_app. simpl. apply NoDup_app; [ exact Hnd | repeat constructor; intros [] | ].
      intros k Hk [Heq | []]. subst k. apply own_bucket_None in Hown. auto.
    + intros k. rewrite own_bucket_app, bucket_for_snoc. fold date.
      destruct (date =? k) eqn:Hk.
      * apply String.eqb_eq in Hk. subst k.
        rewrite <- Hbuckets, Hown. reflexivity.
      * rewrite Hbuckets. destruct (bucket_for k processed); reflexivity.
Qed.

Lemma group_shows_grouped (found : list Show.Doc) (dateTime : list (string * list Slot))
  (processed : list Show.Doc) :
  grouped dateTime processed ->
  exists dateTime', group_shows found dateTime = inl dateTime' /\
                    grouped dateTime' (processed ++ found).
Proof.
  revert dateTime processed.
  induction found as [ | show found IH ]; intros dateTime processed Hinv; simpl.
  - exists dateTime. rewrite app_nil_r. auto.
  - destruct (group_show_grouped show dateTime processed Hinv) as [dt1 [Hstep Hinv1]].
    rewrite Hstep. simpl.
    destruct (IH dt1 (processed ++ [show]) Hinv1) as [dt2 [Hrest Hinv2]].
    exists dt2. rewrite <- app_assoc in Hinv2. auto.
Qed.

Lemma bucket_for_Some (k : string) (found : list Show.Doc) (b : list Slot) :
  bucket_for k found = Some b -> b = map slot_of (on_date k found).
Proof.
  unfold bucket_for. destruct (on_date k found); [ discriminate | ].
  intros Heq. injection Heq as <-. reflexivity.
Qed.

Lemma bucket_for_member (found : list Show.Doc) (s : Show.Doc) :
  In s found ->
  bucket_for (DateTime.date_string (Show.showDateTime s)) found
  = Some (map slot_of (on_date (DateTime.date_string (Show.showDateTime s)) found)).
Proof.
  intros Hin. unfold bucket_for.
  assert (Hon : In s (on_date (DateTime.date_string (Show.showDateTime s)) found)).
  { apply filter_In. split; [ exact Hin | apply String.eqb_refl ]. }
  destruct (on_date (DateTime.date_string (Show.showDateTime s)) found);
    [ destruct Hon | reflexivity ].
Qed.

Lemma getShow_run (env : Env) (movieId : string) (w : World) :
  db_fault env ShowFind = None -> db_fault env MovieFindById = None ->
  getShow env movieId w =
  match group_shows (upcoming_of env movieId w) [] with
  | inl dateTime =>
      (w, inl (res_json (Showtimes (find (fun d => JsVal_eqb (Movie._id d) (JStr movieId))
                                         (movies w))
                                   dateTime)))
  | inr e => (w, inl (failure e))
  end.
Proof.
  intros Hfind Hmovie.
  unfold getShow, try_catch, bind, lift, Show_find_upcoming_of, storage.
  rewrite Hfind. unfold bind, throw, ret. cbv beta iota.
  rewrite Movie_findById_run, Hmovie.
  fold (upcoming_of env movieId w).
  destruct (group_shows (upcoming_of env movieId w) []); reflexivity.
Qed.

(** C6: [getShow] puts every show of the movie with a date-time of now or
    later into the bucket keyed by the UTC date (YYYY-MM-DD) of its
    date-time and into no other: the keys of [dateTime] are distinct,
    the bucket of a key holds the entries of the upcoming shows of that
    date, in query order and nothing else, and the key the handler
    computes, the part of [toISOString] before the first T, is that
    date. *)
Theorem getShow_groups_by_date (env : Env) (movieId : string) (w : World) :
  db_fault env ShowFind = None ->
  db_fault env MovieFindById = None ->
  exists movie dateTime,
    getShow env movieId w = (w, inl (res_json (Showtimes movie dateTime))) /\
    NoDup (map fst dateTime) /\
    (forall s, In s (shows w) -> Show.movie s = JStr movieId ->
               (now env <= Show.showDateTime s)%Z ->
               exists b, In (DateTime.date_string (Show.showDateTime s), b) dateTime /\
                         In (slot_of s) b) /\
    (forall k b, In (k, b) dateTime ->
               b = map slot_of (on_date k (upcoming_of env movieId w)) /\
               forall slot, In slot b -> k = DateTime.date_string (time slot)) /\
    (forall t, DateTime.split_head "T" (DateTime.toISOString t) = DateTime.date_string t).
Proof.
  intros Hfind Hmovie. rewrite (getShow_run env movieId w Hfind Hmovie).
  assert (Hempty : grouped [] []).
  { split; [ constructor | reflexivity ]. }
  destruct (group_shows_grouped (upcoming_of env movieId w) [] [] Hempty)
    as [dateTime [Hrun [Hnd Hbuckets]]].
  simpl in Hbuckets. rewrite Hrun.
  eexists. exists dateTime. split; [ reflexivity | ]. split; [ exact Hnd | ].
  split; [ | split; [ | exact date_key ] ].
  - intros s Hstored Hof Hnow.
    assert (Hin : In s (upcoming_of env movieId w)).
    { apply filter_In. split; [ exact Hstored | ].
      apply andb_true_iff. split; [ apply JsVal_eqb_eq; exact Hof | apply Z.leb_le; exact Hnow ]. }
    eexists. split.
    + apply own_bucket_In. rewrite Hbuckets. apply bucket_for_member. exact Hin.
    + apply in_map.
      apply filter_In. split; [ exact Hin | apply String.eqb_refl ].
  - intros k b Hkb.
    apply (In_own_bucket _ _ _ Hnd) in Hkb. rewrite Hbuckets in Hkb.
    apply bucket_for_Some in Hkb. split; [ exact Hkb | ].
    intros slot Hslot. subst b. apply in_map_iff in Hslot.
    destruct Hslot as [s [<- Hs]]. apply filter_In in Hs. destruct Hs as [_ Hk].
    apply String.eqb_eq in Hk. simpl. congruence.
Qed.

(** Three shows over two dates: two buckets. *)
Lemma getShow_groups_by_date_witness :
  exists movie,
    getShow Sample.env_up "tt1" Sample.stocked
    = (Sample.stocked,
       inl (res_json (Showtimes movie
              [("2024-05-01", [mkSlot 1714557600000 0; mkSlot 1714572000000 1]);
               ("2024-05-02", [mkSlot 1714642200000 2])]))).
Proof.
  destruct (getShow_groups_by_date Sample.env_up "tt1" Sample.stocked eq_refl eq_refl)
    as [movie [dateTime [Hrun _]]].
  exists movie. rewrite Hrun. vm_compute in Hrun.
  injection Hrun as _ <-. reflexivity.
Defined.

(** * Further properties *)

(** ** [makeTmdbRequest] under the retry policy *)

Lemma backoff_schedule (k : nat) :
  (k <= 3)%nat -> backoff k = firstn k [1000; 2000; 3000]%Z.
Proof.
  intros Hk. destruct k as [ | [ | [ | [ | k ] ] ] ]; try reflexivity. lia.
Qed.

(** X1: whatever the provider does, [makeTmdbRequest] makes k + 1 attempts
    for some k of at most 3, all to the given url, sleeps the first k
    delays of 1000, 2000, 3000 between them, touches neither collection,
    and returns the body, or throws the normalized error, of the last
    attempt it made. *)
Theorem makeTmdbRequest_reports_last_attempt (env : Env) (url : string) (w : World) :
  exists k, (k <= 3)%nat /\
    makeTmdbRequest env url w
    = (mkWorld (movies w) (shows w) (next_oid w)
               (requests w ++ repeat url (S k))
               (slept w ++ firstn k [1000; 2000; 3000]%Z),
       match net env url k with
       | Retry.Fulfilled body => inl body
       | Retry.Rejected error => inr (tmdb_failure error)
       end).
Proof.
  destruct (axios_get_run env url) as [k [Hk [_ Heq]]].
  exists k. split; [ exact Hk | ].
  unfold makeTmdbRequest. rewrite Heq.
  unfold record_traffic. rewrite backoff_length, (backoff_schedule k Hk).
  destruct (net env url k); reflexivity.
Qed.

(** What [makeTmdbRequest] does once the first [k] attempts have been
    retried and the attempt after them ends the request. *)
Lemma makeTmdbRequest_after_retries (env : Env) (url : string) (w : World) (k : nat) :
  (k <= 3)%nat ->
  retryable_failures env url k ->
  Retry.attempts_from (isRetryAllowed env) (net env url) (took env url)
                      (3 - k) k (timeout_left env url k)
  = ([], net env url k) ->
  makeTmdbRequest env url w
  = (record_traffic url (backoff k) w,
     match net env url k with
     | Retry.Fulfilled body => inl body
     | Retry.Rejected error => inr (tmdb_failure error)
     end).
Proof.
  intros Hk Hretried Hstop.
  assert (Hsplit : Retry.retries = (k + (3 - k))%nat) by (unfold Retry.retries; lia).
  unfold makeTmdbRequest, Retry.axios_get. rewrite Hsplit.
  rewrite (axios_get_retried env url k (3 - k) Hretried), Hstop. cbn [fst snd].
  rewrite app_nil_r. destruct (net env url k); reflexivity.
Qed.

(** X2: when the first k attempts (k at most 3) are rejected with errors
    the retry condition accepts, each with something of the 8000 ms
    timeout left once the time the attempts took so far and the delays up
    to that of the retry are taken off, and the attempt after them is
    answered, [makeTmdbRequest] returns that answer after k + 1 requests
    and the delays 1000, ..., k * 1000. *)
Theorem makeTmdbRequest_recovers (env : Env) (url : string) (w : World)
  (k : nat) (body : JsVal) :
  (k <= 3)%nat ->
  retryable_failures env url k ->
  net env url k = Retry.Fulfilled body ->
  makeTmdbRequest env url w = (record_traffic url (backoff k) w, inl body).
Proof.
  intros Hk Hretried Hok.
  rewrite (makeTmdbRequest_after_retries env url w k Hk Hretried).
  - rewrite Hok. reflexivity.
  - destruct (3 - k)%nat; [ apply attempts_from_done | ].
    rewrite attempts_from_step, Hok. reflexivity.
Qed.

(** Two 503 replies, each after 120 ms, then the details. *)
Lemma makeTmdbRequest_recovers_witness :
  makeTmdbRequest Scenario.env_flaky (details_url "tt1") Sample.empty
  = (mkWorld [] [] 0 [details_url "tt1"; details_url "tt1"; details_url "tt1"]
             [1000; 2000]%Z,
     inl Sample.details).
Proof.
  rewrite (makeTmdbRequest_recovers Scenario.env_flaky (details_url "tt1") Sample.empty
             2 Sample.details).
  - reflexivity.
  - lia.
  - intros i Hi. split.
    + exists Sample.unavailable.
      destruct i as [ | [ | i ] ]; [ split; reflexivity | split; reflexivity | lia ].
    + destruct i as [ | [ | i ] ]; [ reflexivity | reflexivity | lia ].
  - reflexivity.
Defined.

(** X3: [makeTmdbRequest] gives up at the attempt made after k retries (k
    at most 3) when that attempt is rejected and k is 3, or the retry
    condition does not accept its error, or nothing of the 8000 ms
    timeout is left once the time the attempts took and the delays up to
    that of the next retry are taken off: it has then sent k + 1
    requests and slept the delays 1000, ..., k * 1000, and it throws the
    normalized error of that attempt. *)
Theorem makeTmdbRequest_gives_up (env : Env) (url : string) (w : World)
  (k : nat) (error : Retry.AxiosError) :
  (k <= 3)%nat ->
  retryable_failures env url k ->
  net env url k = Retry.Rejected error ->
  k = 3%nat \/ Retry.retryCondition (isRetryAllowed env) error = false \/
  (timeout_left env url (S k) <= 0)%Z ->
  makeTmdbRequest env url w
  = (record_traffic url (backoff k) w, inr (tmdb_failure error)).
Proof.
  intros Hk Hretried Hlast Hstop.
  rewrite (makeTmdbRequest_after_retries env url w k Hk Hretried).
  - rewrite Hlast. reflexivity.
  - destruct (3 - k)%nat eqn:Hleft; [ apply attempts_from_done | ].
    rewrite attempts_from_step, Hlast.
    destruct (Retry.retryCondition (isRetryAllowed env) error) eqn:Hc; [ | reflexivity ].
    destruct Hstop as [H3 | [Hno | Hout]]; [ lia | discriminate | ].
    rewrite (next_timeout_set _ _ _ (timeout_left_positive env url k Hretried)).
    change (timeout_left env url k - took env url k - Retry.retryDelay (Z.of_nat (S k)))%Z
      with (timeout_left env url (S k)).
    apply Z.ltb_ge in Hout. rewrite Hout. reflexivity.
Qed.

(** Every attempt is answered with 503 after 800 ms: the third attempt is
    the last, since 800 + 1000 + 800 + 2000 + 800 + 3000 ms exceed the
    timeout. *)
Lemma makeTmdbRequest_gives_up_witness :
  makeTmdbRequest Scenario.env_slow_503 (details_url "tt1") Sample.empty
  = (mkWorld [] [] 0 [details_url "tt1"; details_url "tt1"; details_url "tt1"]
             [1000; 2000]%Z,
     inr (Error "TMDB API Error: 503 - Unknown error")).
Proof.
  rewrite (makeTmdbRequest_gives_up Scenario.env_slow_503 (details_url "tt1") Sample.empty
             2 Sample.unavailable).
  - reflexivity.
  - lia.
  - intros i Hi. split.
    + exists Sample.unavailable.
      destruct i as [ | [ | i ] ]; [ split; reflexivity | split; reflexivity | lia ].
    + destruct i as [ | [ | i ] ]; [ reflexivity | reflexivity | lia ].
  - reflexivity.
  - right. right. vm_compute. discriminate.
Defined.

(** X4: an attempt that times out (code ECONNABORTED, a request sent, no
    response) is not retried, whatever the deny list says:
    [makeTmdbRequest] throws the no-response error after one request and
    no delay. *)
Theorem makeTmdbRequest_timeout_not_retried (env : Env) (url : string) (w : World)
  (error : Retry.AxiosError) :
  net env url O = Retry.Rejected error ->
  Retry.code error = Some "ECONNABORTED" ->
  Retry.response error = None ->
  Retry.request error = true ->
  makeTmdbRequest env url w
  = (record_traffic url [] w, inr (Error "No response received from TMDB API")).
Proof.
  intros Hnet Hcode Hresp Hreq.
  assert (Hno : Retry.retryCondition (isRetryAllowed env) error = false).
  { unfold Retry.retryCondition, Retry.isNetworkError, Retry.isRetryableError,
      Retry.code_is. rewrite Hcode, Hresp. reflexivity. }
  unfold makeTmdbRequest. rewrite (axios_get_no_retry _ _ _ _ error Hnet Hno).
  unfold tmdb_failure. rewrite Hresp, Hreq. reflexivity.
Qed.

Lemma makeTmdbRequest_timeout_not_retried_witness :
  makeTmdbRequest Scenario.env_timeout (details_url "tt1") Sample.empty
  = (mkWorld [] [] 0 [details_url "tt1"] [],
     inr (Error "No response received from TMDB API")).
Proof.
  rewrite (makeTmdbRequest_timeout_not_retried Scenario.env_timeout (details_url "tt1")
             Sample.empty Sample.timed_out); reflexivity.
Defined.

(** ** [getNowPlayingMovies] *)

Lemma get_prop_present (v : JsVal) (name : string) :
  v <> JUndefined -> v <> JNull -> get_prop v name = inl (optional_prop v name).
Proof.
  intros Hu Hn. destruct v; try reflexivity; try contradiction.
  simpl. destruct (own_prop props name); reflexivity.
Qed.

(** X5: [getNowPlayingMovies] touches neither collection and answers
    with status 200 and success, or with status 500 and failure, never
    otherwise; it answers 200 with the [results] of the provider's reply
    (undefined when the reply has none) when the last attempt is answered
    with a value other than null, and 500 with the normalized error when
    the last attempt is rejected. *)
Theorem getNowPlayingMovies_answers (env : Env) (w : World) :
  exists k r,
    (k <= 3)%nat /\
    snd (getNowPlayingMovies env w) = inl r /\
    movies (fst (getNowPlayingMovies env w)) = movies w /\
    shows (fst (getNowPlayingMovies env w)) = shows w /\
    ((statusCode r = 200%Z /\ succeeded r = true) \/
     (statusCode r = 500%Z /\ succeeded r = false)) /\
    (forall body, net env now_playing_url k = Retry.Fulfilled body ->
       body <> JUndefined -> body <> JNull ->
       r = res_json (NowPlaying (optional_prop body "results"))) /\
    (forall error, net env now_playing_url k = Retry.Rejected error ->
       r = res_status_json 500
             (NowPlayingFailure "Failed to fetch now playing movies"
                                (exn_message (tmdb_failure error)))).
Proof.
  destruct (axios_get_run env now_playing_url) as [k [Hk [_ Heq]]].
  exists k.
  unfold getNowPlayingMovies, try_catch, bind, lift, ret, makeTmdbRequest.
  fold now_playing_url. rewrite Heq.
  destruct (net env now_playing_url k) as [body | error] eqn:Hlast.
  - destruct (get_prop body "results") as [v | e] eqn:Hget.
    + eexists. split; [ exact Hk | ]. split; [ reflexivity | ].
      simpl. repeat split; auto.
      * intros body' Hbody Hu Hn. injection Hbody as <-.
        rewrite (get_prop_present body "results" Hu Hn) in Hget.
        injection Hget as <-. reflexivity.
      * intros error Herr. discriminate.
    + eexists. split; [ exact Hk | ]. split; [ reflexivity | ].
      simpl. repeat split; auto.
      * intros body' Hbody Hu Hn. injection Hbody as <-.
        rewrite (get_prop_present body "results" Hu Hn) in Hget. discriminate.
      * intros error Herr. discriminate.
  - eexists. split; [ exact Hk | ]. split; [ reflexivity | ].
    simpl. repeat split; auto.
    + intros body Hbody. discriminate.
    + intros error' Herr. injection Herr as <-. reflexivity.
Qed.

(** ** [addShow]: status, failures and what is kept *)

(** X6: [addShow] always answers, with status 400 exactly when one of the
    three fields is falsy and with status 200 in every other case, the
    failures included; the 400 answer leaves the world as it was. *)
Theorem addShow_status (env : Env) (body : AddShowBody) (w : World) :
  exists r,
    snd (addShow env body w) = inl r /\
    statusCode r = (if passes_validation body then 200 else 400)%Z /\
    (passes_validation body = false ->
     succeeded r = false /\ fst (addShow env body w) = w).
Proof.
  rewrite addShow_stages.
  destruct (passes_validation body); simpl negb; cbv iota.
  2: { exists missing_fields. simpl. auto. }
  destruct (ensure_movie env (movieId body) w) as [w1 [m | e]].
  2: { exists (failure e). simpl. repeat split; discriminate. }
  destruct (expand env (movieId body) (showsInput body) (showPrice body)) as [batch | e].
  2: { exists (failure e). simpl. repeat split; discriminate. }
  destruct (0 <? List.length batch)%nat.
  2: { exists added. simpl. repeat split; discriminate. }
  destruct (Show_insertMany env batch w1) as [w2 [[] | e]].
  - exists added. simpl. repeat split; discriminate.
  - exists (failure e). simpl. repeat split; discriminate.
Qed.

(** The whole list of shows is built before the one call that writes
    it: a call that fails before that call, or in it because a document
    is refused, leaves the shows as they were. *)
Lemma addShow_failure_frame (env : Env) (body : AddShowBody) (w : World) (r : HttpResponse) :
  db_fault env ShowInsertMany = None ->
  snd (addShow env body w) = inl r -> succeeded r = false ->
  shows (fst (addShow env body w)) = shows w.
Proof.
  intros Hdb. rewrite addShow_stages.
  destruct (negb (passes_validation body)); [ simpl; auto | ].
  destruct (ensure_movie_frame env (movieId body) w) as [Hshows [Hoid _]].
  destruct (ensure_movie env (movieId body) w) as [w1 [m | e]]; simpl in Hshows, Hoid;
    [ | simpl; auto ].
  destruct (expand env (movieId body) (showsInput body) (showPrice body)) as [batch | e];
    [ | simpl; auto ].
  destruct (0 <? List.length batch)%nat.
  - destruct (Show_insertMany_frame env batch w1) as [_ [_ [_ Hsame]]].
    destruct (Show_insertMany env batch w1) as [w2 [[] | e]]; simpl.
    + intros Heq Hfail. injection Heq as <-. discriminate.
    + intros _ _. pose proof (Hsame Hdb e eq_refl) as Hw. simpl in Hw. subst w2. auto.
  - simpl. intros Heq Hfail. injection Heq as <-. discriminate.
Qed.

(** X7: [addShow] builds the whole list of shows before the one call
    that writes it, so a request fails as a whole before anything is
    written: a call that is answered with a failure has added no show,
    unless it is the store that failed while writing the batch.  An entry
    of [showsInput] that is malformed, or a time that gives an Invalid
    Date, anywhere in the request, keeps all its shows from being
    added. *)
Theorem addShow_failure_adds_no_show (env : Env) (body : AddShowBody) (w : World)
  (r : HttpResponse) :
  db_fault env ShowInsertMany = None ->
  snd (addShow env body w) = inl r ->
  succeeded r = false ->
  shows (fst (addShow env body w)) = shows w.
Proof. apply addShow_failure_frame. Qed.

(** The first entry is well formed, the second has no times: the type
    error is reported and the show of the first entry is not added. *)
Lemma addShow_failure_adds_no_show_witness :
  snd (addShow Sample.env_up Scenario.body_second_entry_malformed Sample.empty)
  = inl (failure (TypeError "Cannot read properties of undefined (reading 'forEach')")) /\
  shows (fst (addShow Sample.env_up Scenario.body_second_entry_malformed Sample.empty)) = [].
Proof.
  split; [ reflexivity | ].
  apply (addShow_failure_adds_no_show Sample.env_up Scenario.body_second_entry_malformed
           Sample.empty
           (failure (TypeError "Cannot read properties of undefined (reading 'forEach')")));
    reflexivity.
Defined.

(** When it is the store that fails while writing the batch, what it has
    written stays: the call is answered with a failure and the first of
    the three shows is stored. *)
Example failed_insert_keeps_what_was_written :
  snd (addShow Scenario.env_insert_fails Sample.body Sample.empty)
  = inl (failure (Error "E11000 duplicate key error")) /\
  map Show.showDateTime
      (shows (fst (addShow Scenario.env_insert_fails Sample.body Sample.empty)))
  = [1714557600000%Z].
Proof. split; reflexivity. Qed.

(** The movie step either leaves the movies as they are or appends one
    movie, with the requested identifier, that no stored movie had. *)
Lemma ensure_movie_cases (env : Env) (id : JsVal) (w : World) :
  movies (fst (ensure_movie env id w)) = movies w \/
  exists m, movies (fst (ensure_movie env id w)) = movies w ++ [m] /\
            Movie._id m = id /\
            snd (ensure_movie env id w) = inl m /\
            forall m', In m' (movies w) -> Movie._id m' <> id.
Proof.
  unfold ensure_movie, bind. rewrite Movie_findById_run.
  destruct (db_fault env MovieFindById); [ left; reflexivity | ].
  destruct (find (fun d => JsVal_eqb (Movie._id d) id) (movies w)) as [m | ] eqn:Hfind.
  - left. reflexivity.
  - destruct (fetch_and_create_frame env id w) as [_ [_ Hm]].
    destruct (snd (fetch_and_create env id w)) as [m | e] eqn:Hres.
    + right. exists m. destruct Hm as [Hm Hid]. repeat split; try assumption.
      intros m' Hin Heq.
      apply (find_none _ _ Hfind) in Hin. simpl in Hin.
      rewrite Heq, JsVal_eqb_refl in Hin. discriminate.
    + left. exact Hm.
Qed.

(** What the stages after the movie step do to the world: nothing, or
    shows of one batch appended. *)
Lemma addShow_world (env : Env) (body : AddShowBody) (w : World) :
  fst (addShow env body w) = w \/
  fst (addShow env body w) = fst (ensure_movie env (movieId body) w) \/
  exists docs,
    fst (addShow env body w)
    = mkWorld (movies (fst (ensure_movie env (movieId body) w)))
              (shows w ++ docs) (next_oid w + List.length docs)
              (requests (fst (ensure_movie env (movieId body) w)))
              (slept (fst (ensure_movie env (movieId body) w))).
Proof.
  rewrite addShow_stages.
  destruct (negb (passes_validation body)); [ left; reflexivity | ].
  destruct (ensure_movie_frame env (movieId body) w) as [Hshows [Hoid _]].
  destruct (ensure_movie env (movieId body) w) as [w1 [m | e]]; simpl in Hshows, Hoid;
    [ | right; left; reflexivity ].
  destruct (expand env (movieId body) (showsInput body) (showPrice body)) as [batch | e];
    [ | right; left; reflexivity ].
  destruct (0 <? List.length batch)%nat; [ | right; left; reflexivity ].
  rewrite Show_insertMany_run.
  destruct (Show_cast_batch batch (next_oid w1)) as [docs | e] eqn:Hcast;
    [ | right; left; reflexivity ].
  right. right. rewrite <- Hoid, <- Hshows.
  destruct (db_fault env ShowInsertMany); eexists; reflexivity.
Qed.

(** X8: [addShow] never removes or rewrites a stored document: the movie
    collection after a call is the one before with at most one movie
    appended, and the show collection is the one before with the new
    shows appended. *)
Theorem addShow_only_appends (env : Env) (body : AddShowBody) (w : World) :
  exists new_movies new_shows,
    movies (fst (addShow env body w)) = movies w ++ new_movies /\
    (List.length new_movies <= 1)%nat /\
    shows (fst (addShow env body w)) = shows w ++ new_shows /\
    next_oid (fst (addShow env body w)) = (next_oid w + List.length new_shows)%nat.
Proof.
  assert (Hmovie : exists new_movies,
            movies (fst (ensure_movie env (movieId body) w)) = movies w ++ new_movies /\
            (List.length new_movies <= 1)%nat).
  { destruct (ensure_movie_cases env (movieId body) w) as [H | [m [H _]]].
    - exists []. rewrite app_nil_r. split; [ exact H | simpl; lia ].
    - exists [m]. split; [ exact H | simpl; lia ]. }
  destruct Hmovie as [new_movies [Hmovies Hlen]].
  destruct (ensure_movie_frame env (movieId body) w) as [Hshows [Hoid _]].
  destruct (addShow_world env body w) as [H | [H | [docs H]]]; rewrite H.
  - exists [], []. rewrite !app_nil_r. simpl. repeat split; lia.
  - exists new_movies, []. rewrite app_nil_r. simpl. repeat split; auto; lia.
  - exists new_movies, docs. simpl. auto.
Qed.

(** X10: [addShow] creates no second movie for an identifier: when no two
    stored movies have the same identifier, none do after the call. *)
Theorem addShow_keeps_movies_distinct (env : Env) (body : AddShowBody) (w : World) :
  distinct_movies w -> distinct_movies (fst (addShow env body w)).
Proof.
  unfold distinct_movies. intros Hnd.
  assert (Hmovie : NoDup (map Movie._id (movies (fst (ensure_movie env (movieId body) w))))).
  { destruct (ensure_movie_cases env (movieId body) w) as [H | [m [H [Hid [_ Hnew]]]]];
      rewrite H; [ exact Hnd | ].
    rewrite map_app. apply NoDup_app; [ exact Hnd | repeat constructor; intros [] | ].
    intros i Hi [Heq | []]. simpl in Heq.
    apply in_map_iff in Hi. destruct Hi as [m' [Hm' Hin]].
    apply (Hnew m' Hin). congruence. }
  destruct (addShow_world env body w) as [H | [H | [docs H]]]; rewrite H.
  - exact Hnd.
  - exact Hmovie.
  - exact Hmovie.
Qed.

Lemma addShow_keeps_movies_distinct_witness :
  distinct_movies (fst (addShow Sample.env_up Sample.body Sample.stocked)).
Proof.
  apply (addShow_keeps_movies_distinct Sample.env_up Sample.body Sample.stocked).
  vm_compute. repeat constructor. intros [].
Defined.

(** ** [addShow]: the movie it creates *)

(** With validation passed, the movie collection and the log of the
    HTTP client after the call are those the movie step leaves. *)
Lemma addShow_after_movie_step (env : Env) (body : AddShowBody) (w : World) :
  passes_validation body = true ->
  movies (fst (addShow env body w)) = movies (fst (ensure_movie env (movieId body) w)) /\
  requests (fst (addShow env body w)) = requests (fst (ensure_movie env (movieId body) w)) /\
  slept (fst (addShow env body w)) = slept (fst (ensure_movie env (movieId body) w)).
Proof.
  intros Hpass. rewrite addShow_stages, Hpass. simpl negb. cbv iota.
  destruct (ensure_movie env (movieId body) w) as [w1 [m | e]]; [ | simpl; auto ].
  destruct (expand env (movieId body) (showsInput body) (showPrice body)) as [batch | e];
    [ | simpl; auto ].
  destruct (0 <? List.length batch)%nat; [ | simpl; auto ].
  destruct (Show_insertMany_frame env batch w1) as [Hm [Hr [Hs _]]].
  destruct (Show_insertMany env batch w1) as [w2 [[] | e]]; simpl in *; auto.
Qed.

Lemma makeTmdbRequest_fulfilled (env : Env) (url : string) (w : World) (body : JsVal) :
  snd (Retry.axios_get (isRetryAllowed env) (net env url) (took env url) timeout)
  = Retry.Fulfilled body ->
  snd (makeTmdbRequest env url w) = inl body.
Proof.
  intros Hok. unfold makeTmdbRequest.
  destruct (Retry.axios_get (isRetryAllowed env) (net env url) (took env url) timeout)
    as [delays outcome].
  simpl in Hok. subst outcome. reflexivity.
Qed.

(** The object literal: the identifier is the requested one, the cast is
    cut to its first ten entries, a falsy tagline becomes the empty
    string. *)
Lemma movieDetailsToSave_fields (id d c : JsVal) (cast : list JsVal) :
  d <> JUndefined -> d <> JNull ->
  get_prop c "cast" = inl (JArr cast) ->
  exists doc,
    movieDetailsToSave id d c = inl doc /\
    Movie._id doc = id /\
    Movie.title doc = optional_prop d "title" /\
    Movie.casts doc = JArr (firstn 10 cast) /\
    Movie.tagline doc = js_or (optional_prop d "tagline") (JStr EmptyString).
Proof.
  intros Hu Hn Hcast. unfold movieDetailsToSave.
  rewrite !(get_prop_present d _ Hu Hn), Hcast. simpl.
  eexists. split; [ reflexivity | ]. simpl. auto.
Qed.

(** X11: when the movie is not stored and both requests are answered,
    the details with a value other than null and the credits with an
    object whose [cast] is an array, [addShow] appends one movie to the
    collection, whatever becomes of the shows: its identifier is the
    requested one, its cast the first ten entries of the provider's (at
    most ten), its title the provider's, and its tagline the provider's
    when that is truthy and the empty string otherwise.  The storage
    layer and the Movie schema are taken not to refuse it. *)
Theorem addShow_creates_movie (env : Env) (body : AddShowBody) (w : World)
  (id : string) (d c : JsVal) (cast : list JsVal) :
  passes_validation body = true ->
  db_fault env MovieFindById = None ->
  db_fault env MovieCreate = None ->
  (forall doc, Movie_validate env doc = None) ->
  (forall m, In m (movies w) -> Movie._id m <> movieId body) ->
  ToString (movieId body) = Some id ->
  snd (Retry.axios_get (isRetryAllowed env) (net env (details_url id))
                       (took env (details_url id)) timeout) = Retry.Fulfilled d ->
  snd (Retry.axios_get (isRetryAllowed env) (net env (credits_url id))
                       (took env (credits_url id)) timeout) = Retry.Fulfilled c ->
  d <> JUndefined -> d <> JNull ->
  get_prop c "cast" = inl (JArr cast) ->
  exists m,
    movies (fst (addShow env body w)) = movies w ++ [m] /\
    Movie._id m = movieId body /\
    Movie.title m = optional_prop d "title" /\
    Movie.casts m = JArr (firstn 10 cast) /\
    (List.length (firstn 10 cast) <= 10)%nat /\
    Movie.tagline m = js_or (optional_prop d "tagline") (JStr EmptyString).
Proof.
  intros Hpass Hfind Hcreate Hvalid Habsent Hid Hd Hc Hu Hn Hcast.
  destruct (addShow_after_movie_step env body w Hpass) as [-> _].
  destruct (movieDetailsToSave_fields (movieId body) d c cast Hu Hn Hcast)
    as [doc [Hdoc [Hdid [Htitle [Hcasts Htag]]]]].
  exists doc.
  assert (Hrun : movies (fst (ensure_movie env (movieId body) w)) = movies w ++ [doc]).
  { unfold ensure_movie, bind. rewrite Movie_findById_run, Hfind.
    rewrite (find_absent _ _ Habsent).
    unfold fetch_and_create, bind, lift, Promise_all2, ToString_res. rewrite Hid.
    fold (details_url id). fold (credits_url id).
    pose proof (makeTmdbRequest_fulfilled env (details_url id) w d Hd) as H1.
    pose proof (makeTmdbRequest_frame env (details_url id) w) as [Hm1 _].
    destruct (makeTmdbRequest env (details_url id) w) as [w1 r1]. simpl in H1, Hm1. subst r1.
    pose proof (makeTmdbRequest_fulfilled env (credits_url id) w1 c Hc) as H2.
    pose proof (makeTmdbRequest_frame env (credits_url id) w1) as [Hm2 _].
    destruct (makeTmdbRequest env (credits_url id) w1) as [w2 r2]. simpl in H2, Hm2. subst r2.
    simpl fst. simpl snd. rewrite Hdoc.
    unfold Movie_create. rewrite Hvalid. unfold bind, storage. rewrite Hcreate.
    simpl. congruence. }
  split; [ exact Hrun | ].
  repeat split; try assumption.
  rewrite length_firstn. lia.
Qed.

(** A provider that lists a cast of twelve: ten are kept. *)
Lemma addShow_creates_movie_witness :
  exists m,
    movies (fst (addShow Scenario.env_long_cast Sample.body Sample.empty)) = [m] /\
    Movie.casts m = JArr (firstn 10 Scenario.long_cast) /\
    Movie.tagline m = JStr EmptyString.
Proof.
  destruct (addShow_creates_movie Scenario.env_long_cast Sample.body Sample.empty "tt1"
              Sample.details (JObj [("cast", JArr Scenario.long_cast)]) Scenario.long_cast)
    as [m [Hm [_ [_ [Hcasts [_ Htag]]]]]];
    try reflexivity; try discriminate.
  - intros m [].
  - exists m. split; [ exact Hm | ]. split; [ exact Hcasts | exact Htag ].
Defined.

(** ** [addShow]: no rollback, no second fetch, two requests *)

(** X12: a [showsInput] that is truthy but not an array (a string, a
    number, an object) passes validation and fails only in the loop,
    after the movie step has run: the answer is the type error of the
    [forEach] call, or the failure of the movie step when that threw,
    and the world is the one the movie step left, so a movie that was
    fetched and created for the request stays created. *)
Theorem addShow_showsInput_not_array (env : Env) (body : AddShowBody) (w : World) :
  passes_validation body = true ->
  (forall items, showsInput body <> JArr items) ->
  addShow env body w
  = (fst (ensure_movie env (movieId body) w),
     inl (failure match snd (ensure_movie env (movieId body) w) with
                  | inl _ => TypeError "showsInput.forEach is not a function"
                  | inr e => e
                  end)).
Proof.
  intros Hpass Hshape. rewrite addShow_stages, Hpass. simpl negb. cbv iota.
  destruct (ensure_movie env (movieId body) w) as [w1 [m | e]]; [ | reflexivity ].
  unfold expand.
  unfold passes_validation in Hpass.
  apply andb_true_iff in Hpass. destruct Hpass as [Hpass _].
  apply andb_true_iff in Hpass. destruct Hpass as [_ Htruthy].
  destruct (showsInput body) as [ | | b | n | s | s | items | props ];
    try discriminate; try reflexivity.
  exfalso. apply (Hshape items). reflexivity.
Qed.

Lemma addShow_showsInput_not_array_witness :
  snd (addShow Sample.env_up Scenario.body_string Sample.empty)
  = inl (failure (TypeError "showsInput.forEach is not a function")) /\
  List.length (movies (fst (addShow Sample.env_up Scenario.body_string Sample.empty))) = 1%nat /\
  shows (fst (addShow Sample.env_up Scenario.body_string Sample.empty)) = [].
Proof.
  rewrite (addShow_showsInput_not_array Sample.env_up Scenario.body_string Sample.empty).
  - repeat split.
  - reflexivity.
  - intros items. discriminate.
Defined.

(** A movie the movie step returns is stored when the step ends. *)
Lemma ensure_movie_returns_stored (env : Env) (id : JsVal) (w : World) (m : Movie.Doc) :
  snd (ensure_movie env id w) = inl m ->
  stored (fst (ensure_movie env id w)) id.
Proof.
  unfold ensure_movie, bind. rewrite Movie_findById_run.
  destruct (db_fault env MovieFindById); [ discriminate | ].
  destruct (find (fun d => JsVal_eqb (Movie._id d) id) (movies w)) as [m0 | ] eqn:Hfind.
  - simpl. intros _. apply find_some in Hfind. destruct Hfind as [Hin Heq].
    apply JsVal_eqb_eq in Heq. exists m0. auto.
  - destruct (fetch_and_create_frame env id w) as [_ [_ Hm]].
    intros Hres. rewrite Hres in Hm. destruct Hm as [Hm Hid].
    exists m. rewrite Hm. split; [ apply in_or_app; right; left; reflexivity | exact Hid ].
Qed.

(** With the movie stored, a call sends nothing to the provider and
    leaves the movies as they are. *)
Lemma addShow_stored_frame (env : Env) (body : AddShowBody) (w : World) :
  stored w (movieId body) ->
  requests (fst (addShow env body w)) = requests w /\
  slept (fst (addShow env body w)) = slept w /\
  movies (fst (addShow env body w)) = movies w.
Proof.
  intros Hstored.
  destruct (passes_validation body) eqn:Hpass.
  - destruct (addShow_after_movie_step env body w Hpass) as [-> [-> ->]].
    rewrite (ensure_movie_stored env (movieId body) w Hstored). auto.
  - rewrite addShow_stages, Hpass. simpl. auto.
Qed.

(** X13: once a call to [addShow] has been answered with success, the
    movie of the request is stored, and every later call for the same
    identifier, whatever its other fields and whatever the provider does
    then, sends no request to the provider and leaves the movie
    collection unchanged. *)
Theorem addShow_fetches_once (env env' : Env) (body body' : AddShowBody) (w : World) :
  snd (addShow env body w) = inl added ->
  movieId body' = movieId body ->
  stored (fst (addShow env body w)) (movieId body) /\
  requests (fst (addShow env' body' (fst (addShow env body w))))
  = requests (fst (addShow env body w)) /\
  movies (fst (addShow env' body' (fst (addShow env body w))))
  = movies (fst (addShow env body w)).
Proof.
  intros Hok Hsame.
  assert (Hstored : stored (fst (addShow env body w)) (movieId body)).
  { destruct (passes_validation body) eqn:Hpass.
    - destruct (addShow_after_movie_step env body w Hpass) as [Hmovies _].
      rewrite addShow_stages, Hpass in Hok. simpl negb in Hok. cbv iota in Hok.
      pose proof (ensure_movie_returns_stored env (movieId body) w) as Hret.
      destruct (ensure_movie env (movieId body) w) as [w1 [m | e]]; [ | discriminate ].
      destruct (Hret m eq_refl) as [m' [Hin Hid]]. simpl in Hin.
      exists m'. rewrite Hmovies. simpl. auto.
    - rewrite addShow_stages, Hpass in Hok. discriminate. }
  split; [ exact Hstored | ].
  assert (Hstored' : stored (fst (addShow env body w)) (movieId body'))
    by (rewrite Hsame; exact Hstored).
  destruct (addShow_stored_frame env' body' _ Hstored') as [Hr [_ Hm]].
  auto.
Qed.

(** The movie fetched for the first request is not fetched again for the
    second, though the provider has forgotten it. *)
Lemma addShow_fetches_once_witness :
  requests (fst (addShow Sample.env_down Sample.body_no_times Sample.stocked))
  = requests Sample.stocked /\
  movies (fst (addShow Sample.env_down Sample.body_no_times Sample.stocked))
  = movies Sample.stocked.
Proof.
  destruct (addShow_fetches_once Sample.env_up Sample.env_down Sample.body
              Sample.body_no_times Sample.empty) as [_ H].
  - reflexivity.
  - reflexivity.
  - exact H.
Defined.

(** The traffic of one request: k + 1 attempts and k delays. *)
Lemma makeTmdbRequest_traffic (env : Env) (url : string) (w : World) :
  exists k, (k <= 3)%nat /\
    fst (makeTmdbRequest env url w) = record_traffic url (backoff k) w.
Proof.
  destruct (axios_get_run env url) as [k [Hk [_ Heq]]].
  exists k. split; [ exact Hk | ].
  unfold makeTmdbRequest. rewrite Heq.
  destruct (net env url k); reflexivity.
Qed.

(** The log of the sequential model: the attempts of the details request
    before those of the credits request. *)
Lemma addShow_request_log (env : Env) (body : AddShowBody) (w : World)
  (id : string) :
  passes_validation body = true ->
  db_fault env MovieFindById = None ->
  (forall m, In m (movies w) -> Movie._id m <> movieId body) ->
  ToString (movieId body) = Some id ->
  exists k1 k2,
    (k1 <= 3)%nat /\ (k2 <= 3)%nat /\
    requests (fst (addShow env body w))
    = requests w ++ repeat (details_url id) (S k1) ++ repeat (credits_url id) (S k2).
Proof.
  intros Hpass Hfind Habsent Hid.
  destruct (addShow_after_movie_step env body w Hpass) as [_ [-> _]].
  unfold ensure_movie, bind. rewrite Movie_findById_run, Hfind.
  rewrite (find_absent _ _ Habsent).
  unfold fetch_and_create, bind, lift, Promise_all2, ToString_res. rewrite Hid.
  fold (details_url id). fold (credits_url id).
  destruct (makeTmdbRequest_traffic env (details_url id) w) as [k1 [Hk1 H1]].
  destruct (makeTmdbRequest env (details_url id) w) as [w1 r1]. simpl in H1. subst w1.
  destruct (makeTmdbRequest_traffic env (credits_url id)
              (record_traffic (details_url id) (backoff k1) w)) as [k2 [Hk2 H2]].
  destruct (makeTmdbRequest env (credits_url id)
              (record_traffic (details_url id) (backoff k1) w)) as [w2 r2].
  simpl in H2. subst w2.
  exists k1, k2. split; [ exact Hk1 | ]. split; [ exact Hk2 | ].
  assert (Hlen : forall k, List.length (backoff k) = k).
  { intros k. unfold backoff. rewrite length_map, length_seq. reflexivity. }
  assert (Hlog : requests (record_traffic (credits_url id) (backoff k2)
                             (record_traffic (details_url id) (backoff k1) w))
                 = requests w ++ repeat (details_url id) (S k1)
                     ++ repeat (credits_url id) (S k2)).
  { unfold record_traffic. simpl requests. rewrite !Hlen, <- app_assoc. reflexivity. }
  destruct r1 as [a | e1], r2 as [b | e2]; simpl fst; try exact Hlog.
  simpl snd.
  destruct (movieDetailsToSave (movieId body) a b) as [doc | e]; simpl; try exact Hlog.
  unfold Movie_create. destruct (Movie_validate env doc); simpl; try exact Hlog.
  unfold bind, storage. destruct (db_fault env MovieCreate); simpl; exact Hlog.
Qed.

(** X14: when the movie is not stored, [addShow] sends both requests,
    the one for the details and the one for the credits, whatever the
    outcome of either: the attempts the call adds to the log are between
    one and four at the details url and between one and four at the
    credits url, and nothing else. *)
Theorem addShow_sends_both_requests (env : Env) (body : AddShowBody) (w : World)
  (id : string) :
  passes_validation body = true ->
  db_fault env MovieFindById = None ->
  (forall m, In m (movies w) -> Movie._id m <> movieId body) ->
  ToString (movieId body) = Some id ->
  exists k1 k2 sent,
    (k1 <= 3)%nat /\ (k2 <= 3)%nat /\
    requests (fst (addShow env body w)) = requests w ++ sent /\
    Permutation sent (repeat (details_url id) (S k1) ++ repeat (credits_url id) (S k2)).
Proof.
  intros Hpass Hfind Habsent Hid.
  destruct (addShow_request_log env body w id Hpass Hfind Habsent Hid)
    as [k1 [k2 [Hk1 [Hk2 Hlog]]]].
  exists k1, k2. eexists. split; [ exact Hk1 | ]. split; [ exact Hk2 | ].
  split; [ exact Hlog | apply Permutation_refl ].
Qed.

(** The details are refused with 404; the credits are asked for all the
    same. *)
Lemma addShow_sends_both_requests_witness :
  In (details_url "tt1") (requests (fst (addShow Sample.env_down Sample.body Sample.empty))) /\
  In (credits_url "tt1") (requests (fst (addShow Sample.env_down Sample.body Sample.empty))).
Proof.
  destruct (addShow_sends_both_requests Sample.env_down Sample.body Sample.empty "tt1")
    as [k1 [k2 [sent [_ [_ [Hlog Hperm]]]]]].
  - reflexivity.
  - reflexivity.
  - intros m [].
  - reflexivity.
  - rewrite Hlog. split; apply in_or_app; right.
    + apply (Permutation_in _ (Permutation_sym Hperm)). left. reflexivity.
    + apply (Permutation_in _ (Permutation_sym Hperm)).
      apply in_or_app. right. left. reflexivity.
Defined.

(** ** The query handlers: what they read and when they fail *)

Lemma getShows_fault (env : Env) (w : World) (m : string) :
  db_fault env ShowFindPopulate = Some m ->
  getShows env w = (w, inl (failure (Error m))).
Proof.
  intros Hdb. unfold getShows, try_catch, bind, Show_find_upcoming_populated, storage.
  rewrite Hdb. reflexivity.
Qed.

(** With both queries answered, [getShow] answers with the movie it
    found and the grouping of the upcoming shows of the movie: the loop
    never throws. *)
Lemma getShow_grouped (env : Env) (movieId : string) (w : World) :
  db_fault env ShowFind = None -> db_fault env MovieFindById = None ->
  exists dateTime,
    getShow env movieId w
    = (w, inl (res_json (Showtimes (find (fun d => JsVal_eqb (Movie._id d) (JStr movieId))
                                         (movies w))
                                   dateTime))) /\
    grouped dateTime (upcoming_of env movieId w).
Proof.
  intros Hfind Hmovie. rewrite (getShow_run env movieId w Hfind Hmovie).
  assert (Hempty : grouped [] []) by (split; [ constructor | reflexivity ]).
  destruct (group_shows_grouped (upcoming_of env movieId w) [] [] Hempty)
    as [dateTime [Hrun Hgrouped]].
  rewrite Hrun. exists dateTime. split; [ reflexivity | exact Hgrouped ].
Qed.

Lemma getShow_fault (env : Env) (movieId : string) (w : World) :
  db_fault env ShowFind <> None \/ db_fault env MovieFindById <> None ->
  exists m, getShow env movieId w = (w, inl (failure (Error m))).
Proof.
  intros Hfault.
  unfold getShow, try_catch, bind, lift, Show_find_upcoming_of, storage.
  destruct (db_fault env ShowFind) as [m | ] eqn:Hfind.
  - exists m. reflexivity.
  - unfold bind, throw, ret. cbv beta iota. rewrite Movie_findById_run.
    destruct (db_fault env MovieFindById) as [m | ] eqn:Hmovie.
    + exists m. reflexivity.
    + destruct Hfault as [H | H]; exfalso; apply H; reflexivity.
Qed.

(** X15: the two query handlers write nothing and always answer with
    status 200; [getShows] answers with a failure exactly when the
    storage layer fails its query, and [getShow] exactly when the storage
    layer fails one of its two queries: grouping the shows never
    throws, whatever their dates. *)
Theorem queries_read_only (env : Env) (movieId : string) (w : World) :
  (exists r, getShows env w = (w, inl r) /\ statusCode r = 200%Z /\
             (succeeded r = false <-> db_fault env ShowFindPopulate <> None)) /\
  (exists r, getShow env movieId w = (w, inl r) /\ statusCode r = 200%Z /\
             (succeeded r = false <->
              db_fault env ShowFind <> None \/ db_fault env MovieFindById <> None)).
Proof.
  split.
  - destruct (db_fault env ShowFindPopulate) as [m | ] eqn:Hdb.
    + exists (failure (Error m)). rewrite (getShows_fault env w m Hdb).
      split; [ reflexivity | ]. split; [ reflexivity | ].
      split; [ discriminate | reflexivity ].
    + rewrite (getShows_run env w Hdb). cbv zeta. eexists.
      split; [ reflexivity | ]. split; [ reflexivity | ].
      simpl. split; [ discriminate | intros H; exfalso; apply H; reflexivity ].
  - destruct (db_fault env ShowFind) as [m1 | ] eqn:Hfind.
    + destruct (getShow_fault env movieId w) as [m Hm];
        [ left; rewrite Hfind; discriminate | ].
      exists (failure (Error m)). rewrite Hm.
      split; [ reflexivity | ]. split; [ reflexivity | ].
      split; [ intros _; left; discriminate | reflexivity ].
    + destruct (db_fault env MovieFindById) as [m2 | ] eqn:Hmovie.
      * destruct (getShow_fault env movieId w) as [m Hm];
          [ right; rewrite Hmovie; discriminate | ].
        exists (failure (Error m)). rewrite Hm.
        split; [ reflexivity | ]. split; [ reflexivity | ].
        split; [ intros _; right; discriminate | reflexivity ].
      * destruct (getShow_grouped env movieId w Hfind Hmovie) as [dateTime [Hrun _]].
        eexists. split; [ exact Hrun | ]. split; [ reflexivity | ].
        simpl. split; [ discriminate | ].
        intros [H | H]; exfalso; apply H; reflexivity.
Qed.

(** ** [getShows]: every upcoming movie is listed *)

Lemma index_of_None {A : Type} (p : A -> bool) (l : list A) :
  index_of p l = None -> forall x, In x l -> p x = false.
Proof.
  induction l as [ | y l IH ]; simpl.
  - intros _ x [].
  - destruct (p y) eqn:Hp; [ discriminate | ].
    destruct (index_of p l); [ discriminate | ].
    intros _ x [<- | Hin]; [ exact Hp | apply IH; [ reflexivity | exact Hin ] ].
Qed.

(** The list of [getShows], entry by entry: what a show of the query
    contributes. *)
Lemma getShows_entries (env : Env) (w : World) (s : Show.Doc) :
  db_fault env ShowFindPopulate = None ->
  In s (shows w) -> (now env <= Show.showDateTime s)%Z ->
  exists l,
    getShows env w = (w, inl (res_json (Shows l))) /\
    ((exists m, In (Some m) l /\ In m (movies w) /\ Movie._id m = Show.movie s) \/
     (In None l /\ forall m, In m (movies w) -> Movie._id m <> Show.movie s)).
Proof.
  intros Hdb Hstored Hnow. rewrite (getShows_run env w Hdb). cbv zeta.
  set (found := sort_by_date (filter (fun s => (now env <=? Show.showDateTime s)%Z) (shows w))).
  set (fetched := fst (populate_shared (movies w) found)).
  set (refs := map (fun s => index_of (refers_to s) fetched) found).
  destruct (Set_from_spec refs) as [_ Hin].
  eexists. split; [ reflexivity | ].
  assert (Hfound : In s found).
  { unfold found. apply sort_by_date_In, filter_In. split; [ exact Hstored | ].
    apply Z.leb_le. exact Hnow. }
  assert (Href : In (index_of (refers_to s) fetched) (Set_from refs)).
  { apply Hin. unfold refs. apply (in_map (fun s => index_of (refers_to s) fetched)).
    exact Hfound. }
  destruct (index_of (refers_to s) fetched) as [a | ] eqn:Hidx.
  - left. destruct (index_of_Some _ _ _ Hidx) as [m [Hm Hrefers]].
    exists m. split.
    + apply in_map_iff. exists (Some a). split; [ exact Hm | exact Href ].
    + split.
      * apply nth_error_In in Hm. unfold fetched, populate_shared in Hm. simpl in Hm.
        apply filter_In in Hm. apply Hm.
      * apply JsVal_eqb_eq. exact Hrefers.
  - right. split.
    + apply in_map_iff. exists None. split; [ reflexivity | exact Href ].
    + intros m Hm Hid.
      assert (Hfetched : In m fetched).
      { unfold fetched, populate_shared. simpl. apply filter_In. split; [ exact Hm | ].
        apply existsb_exists. exists s. split; [ exact Hfound | ].
        unfold refers_to. apply JsVal_eqb_eq. exact Hid. }
      pose proof (index_of_None _ _ Hidx m Hfetched) as Hno.
      unfold refers_to in Hno. apply JsVal_eqb_neq in Hno. contradiction.
Qed.

(** X16: [getShows] leaves no upcoming movie out: for every stored show
    with a date-time of now or later, the list holds a stored movie with
    the identifier the show refers to, or, when no stored movie has that
    identifier, the entry null. *)
Theorem getShows_lists_every_upcoming_movie (env : Env) (w : World) (s : Show.Doc) :
  db_fault env ShowFindPopulate = None ->
  In s (shows w) ->
  (now env <= Show.showDateTime s)%Z ->
  exists l,
    getShows env w = (w, inl (res_json (Shows l))) /\
    ((exists m, In (Some m) l /\ In m (movies w) /\ Movie._id m = Show.movie s) \/
     (In None l /\ forall m, In m (movies w) -> Movie._id m <> Show.movie s)).
Proof. apply getShows_entries. Qed.

Lemma getShows_lists_every_upcoming_movie_witness :
  exists l,
    getShows Sample.env_up Sample.stocked = (Sample.stocked, inl (res_json (Shows l))) /\
    exists m, In (Some m) l /\ Movie._id m = JStr "tt1".
Proof.
  destruct (getShows_lists_every_upcoming_movie Sample.env_up Sample.stocked
              (Show.mkDoc 0 (JStr "tt1") 1714557600000 (JNum 200) []))
    as [l [Hl [[m [Hin [_ Hid]]] | [_ Hnone]]]].
  - reflexivity.
  - left. reflexivity.
  - vm_compute. discriminate.
  - exists l. split; [ exact Hl | ]. exists m. split; [ exact Hin | exact Hid ].
  - exfalso. eapply Hnone; [ left; reflexivity | reflexivity ].
Defined.

(** ** [getShow]: every upcoming show once, and the empty answers *)

Lemma bucket_push_concat (dateTime : list (string * list Slot)) (k : string)
  (b : list Slot) (slot : Slot) :
  own_bucket dateTime k = Some b ->
  Permutation (List.concat (map snd (bucket_push dateTime k slot)))
              (slot :: List.concat (map snd dateTime)).
Proof.
  induction dateTime as [ | [k' b'] dateTime IH ]; simpl.
  - discriminate.
  - destruct (k' =? k).
    + intros _. simpl. rewrite <- app_assoc. simpl.
      apply Permutation_sym. apply Permutation_middle.
    + intros Hown. simpl.
      apply Permutation_trans with (b' ++ slot :: List.concat (map snd dateTime)).
      * apply Permutation_app_head. apply IH. exact Hown.
      * apply Permutation_sym. apply Permutation_middle.
Qed.

(** The loop of [getShow] places each show once. *)
Lemma group_shows_once (found : list Show.Doc) (dateTime dateTime' : list (string * list Slot)) :
  group_shows found dateTime = inl dateTime' ->
  Permutation (List.concat (map snd dateTime'))
              (List.concat (map snd dateTime) ++ map slot_of found).
Proof.
  revert dateTime. induction found as [ | show found IH ]; intros dateTime; simpl.
  - intros Heq. injection Heq as <-. rewrite app_nil_r. apply Permutation_refl.
  - rewrite group_show_run. cbv zeta.
    destruct (own_bucket dateTime (DateTime.date_string (Show.showDateTime show)))
      as [b | ] eqn:Hown; simpl; intros Hrest; apply IH in Hrest.
    + eapply Permutation_trans; [ exact Hrest | ].
      eapply Permutation_trans.
      * apply Permutation_app_tail. apply (bucket_push_concat _ _ b _ Hown).
      * simpl. apply Permutation_middle.
    + eapply Permutation_trans; [ exact Hrest | ].
      rewrite map_app, concat_app. simpl. rewrite ?app_nil_r, <- app_assoc. simpl.
      apply Permutation_refl.
Qed.

(** X17: with both queries answered, the buckets of [getShow] taken
    together hold the entry of every upcoming show of the movie exactly
    once and nothing else: they are a rearrangement of the entries of the
    query result, so there are as many entries as upcoming shows. *)
Theorem getShow_places_each_show_once (env : Env) (movieId : string) (w : World) :
  db_fault env ShowFind = None ->
  db_fault env MovieFindById = None ->
  exists movie dateTime,
    getShow env movieId w = (w, inl (res_json (Showtimes movie dateTime))) /\
    Permutation (List.concat (map snd dateTime)) (map slot_of (upcoming_of env movieId w)) /\
    List.length (List.concat (map snd dateTime)) = List.length (upcoming_of env movieId w).
Proof.
  intros Hfind Hmovie. rewrite (getShow_run env movieId w Hfind Hmovie).
  destruct (group_shows (upcoming_of env movieId w) []) as [dateTime | e] eqn:Hrun.
  - eexists. exists dateTime. split; [ reflexivity | ].
    pose proof (group_shows_once _ _ _ Hrun) as Hperm. simpl in Hperm.
    split; [ exact Hperm | ].
    rewrite (Permutation_length Hperm), length_map. reflexivity.
  - exfalso.
    assert (Hempty : grouped [] []) by (split; [ constructor | reflexivity ]).
    destruct (group_shows_grouped (upcoming_of env movieId w) [] [] Hempty)
      as [dateTime [Hok _]].
    congruence.
Qed.

Lemma getShow_places_each_show_once_witness :
  exists movie dateTime,
    getShow Sample.env_up "tt1" Sample.stocked
    = (Sample.stocked, inl (res_json (Showtimes movie dateTime))) /\
    List.length (List.concat (map snd dateTime)) = 3%nat.
Proof.
  destruct (getShow_places_each_show_once Sample.env_up "tt1" Sample.stocked eq_refl eq_refl)
    as [movie [dateTime [Hrun [_ Hlen]]]].
  exists movie, dateTime. split; [ exact Hrun | exact Hlen ].
Defined.

(** X18: an identifier that is unknown is no error for [getShow]: with
    both queries answered it answers with success, with [movie] null
    exactly when no movie of that identifier is stored, and with an empty
    [dateTime] object exactly when the movie has no upcoming show. *)
Theorem getShow_unknown_is_no_error (env : Env) (movieId : string) (w : World) :
  db_fault env ShowFind = None ->
  db_fault env MovieFindById = None ->
  exists movie dateTime,
    getShow env movieId w = (w, inl (res_json (Showtimes movie dateTime))) /\
    (movie = None <-> forall m, In m (movies w) -> Movie._id m <> JStr movieId) /\
    (dateTime = [] <->
     forall s, In s (shows w) -> Show.movie s = JStr movieId ->
               (Show.showDateTime s < now env)%Z).
Proof.
  intros Hfind Hmovie.
  destruct (getShow_grouped env movieId w Hfind Hmovie) as [dateTime [Hrun [Hnd Hbuckets]]].
  eexists. exists dateTime. split; [ exact Hrun | ]. split.
  - split.
    + intros Hnone m Hin Hid.
      apply (find_none _ _ Hnone) in Hin. simpl in Hin.
      rewrite Hid, JsVal_eqb_refl in Hin. discriminate.
    + apply find_absent.
  - split.
    + intros Hempty s Hstored Hof.
      destruct (Z.lt_ge_cases (Show.showDateTime s) (now env)) as [Hlt | Hge];
        [ exact Hlt | exfalso ].
      assert (Hin : In s (upcoming_of env movieId w)).
      { apply filter_In. split; [ exact Hstored | ].
        apply andb_true_iff. split; [ apply JsVal_eqb_eq; exact Hof | apply Z.leb_le; exact Hge ]. }
      specialize (Hbuckets (DateTime.date_string (Show.showDateTime s))).
      rewrite (bucket_for_member _ _ Hin), Hempty in Hbuckets. discriminate.
    + intros Hpast.
      assert (Hnone : upcoming_of env movieId w = []).
      { destruct (upcoming_of env movieId w) as [ | s l ] eqn:Hup; [ reflexivity | exfalso ].
        assert (Hin : In s (upcoming_of env movieId w)) by (rewrite Hup; left; reflexivity).
        apply filter_In in Hin. destruct Hin as [Hstored Hcond].
        apply andb_true_iff in Hcond. destruct Hcond as [Hof Hnow].
        apply JsVal_eqb_eq in Hof. apply Z.leb_le in Hnow.
        specialize (Hpast s Hstored Hof). lia. }
      destruct dateTime as [ | [k b] rest ]; [ reflexivity | exfalso ].
      specialize (Hbuckets k). simpl in Hbuckets. rewrite String.eqb_refl in Hbuckets.
      unfold bucket_for, on_date in Hbuckets. rewrite Hnone in Hbuckets. discriminate.
Qed.

(** An identifier nobody has heard of. *)
Lemma getShow_unknown_is_no_error_witness :
  getShow Sample.env_up "tt404" Sample.stocked
  = (Sample.stocked, inl (res_json (Showtimes None []))).
Proof.
  destruct (getShow_unknown_is_no_error Sample.env_up "tt404" Sample.stocked eq_refl eq_refl)
    as [movie [dateTime [Hrun _]]].
  rewrite Hrun. vm_compute in Hrun. injection Hrun as <- <-. reflexivity.
Defined.

(** ** [getShows]: the order of the list *)

Lemma filter_filter_and {A : Type} (f g : A -> bool) (l : list A) :
  filter f (filter g l) = filter (fun y => g y && f y) l.
Proof.
  induction l as [ | x l IH ]; simpl.
  - reflexivity.
  - destruct (g x); simpl; [ destruct (f x); rewrite IH; reflexivity | exact IH ].
Qed.

Lemma same_ref_sym (a b : option nat) : same_ref a b = same_ref b a.
Proof.
  destruct a as [x | ], b as [y | ]; simpl; try reflexivity. apply Nat.eqb_sym.
Qed.

Lemma fold_Set_add_first_occurrences (items acc : list (option nat)) :
  fold_left Set_add items acc
  = acc ++ filter (fun y => negb (existsb (same_ref y) acc)) (first_occurrences items).
Proof.
  revert acc. induction items as [ | x items IH ]; intros acc; simpl.
  - rewrite app_nil_r. reflexivity.
  - rewrite IH. unfold Set_add.
    destruct (existsb (same_ref x) acc) eqn:Hx; simpl.
    + f_equal. rewrite filter_filter_and. apply filter_ext.
      intros y. destruct (same_ref x y) eqn:Hxy; simpl; [ | reflexivity ].
      apply same_ref_eq in Hxy. subst y. rewrite Hx. reflexivity.
    + rewrite <- app_assoc. simpl. f_equal. f_equal.
      rewrite filter_filter_and. apply filter_ext.
      intros y. rewrite existsb_app. simpl. rewrite orb_false_r, negb_orb.
      rewrite (same_ref_sym y x). apply andb_comm.
Qed.

(** A Set built from a list iterates over its elements in the order of
    their first occurrence. *)
Lemma Set_from_first_occurrences (items : list (option nat)) :
  Set_from items = first_occurrences items.
Proof.
  unfold Set_from. rewrite fold_Set_add_first_occurrences. simpl.
  induction (first_occurrences items) as [ | y l IH ]; simpl; congruence.
Qed.

Lemma filter_split {A : Type} (f : A -> bool) (l d1 d2 : list A) (a : A) :
  filter f l = d1 ++ a :: d2 ->
  exists l1 l2, l = l1 ++ a :: l2 /\ filter f l2 = d2.
Proof.
  revert d1. induction l as [ | x l IH ]; intros d1; simpl.
  - destruct d1; discriminate.
  - destruct (f x) eqn:Hx.
    + destruct d1 as [ | y d1 ]; simpl; intros Heq; injection Heq as -> Hrest.
      * exists [], l. auto.
      * destruct (IH d1 Hrest) as [l1 [l2 [-> Hf]]].
        exists (y :: l1), l2. auto.
    + intros Heq. destruct (IH d1 Heq) as [l1 [l2 [-> Hf]]].
      exists (x :: l1), l2. auto.
Qed.

(** An element that comes before another in the list of first
    occurrences occurs in the source before every occurrence of the
    other. *)
Lemma first_occurrences_before (items d1 d2 : list (option nat)) (a b : option nat) :
  first_occurrences items = d1 ++ a :: d2 -> In b d2 ->
  exists l1 l2, items = l1 ++ a :: l2 /\ ~ In b l1.
Proof.
  revert d1 d2. induction items as [ | x items IH ]; intros d1 d2; simpl.
  - destruct d1; discriminate.
  - destruct d1 as [ | y d1 ]; simpl; intros Heq Hb; injection Heq as -> Hrest.
    + exists [], items. split; [ reflexivity | intros [] ].
    + destruct (filter_split _ _ _ _ _ Hrest) as [l1 [l2 [Hfo Hd2]]].
      assert (Hb' : In b l2 /\ same_ref y b = false).
      { rewrite <- Hd2 in Hb. apply filter_In in Hb. destruct Hb as [Hin Hne].
        apply negb_true_iff in Hne. auto. }
      destruct Hb' as [Hb2 Hne].
      destruct (IH l1 l2 Hfo Hb2) as [r1 [r2 [-> Hnot]]].
      exists (y :: r1), r2. split; [ reflexivity | ].
      intros [Heq | Hin]; [ | exact (Hnot Hin) ].
      subst b. assert (Hrefl : same_ref y y = true) by (apply same_ref_eq; reflexivity).
      congruence.
Qed.

Lemma insert_by_date_sorted (s : Show.Doc) (l : list Show.Doc) :
  StronglySorted by_date l -> StronglySorted by_date (insert_by_date s l).
Proof.
  intros Hsorted. induction Hsorted as [ | x l Hl IH Hx ]; simpl.
  - repeat constructor.
  - destruct (Show.showDateTime s <=? Show.showDateTime x)%Z eqn:Hle.
    + apply Z.leb_le in Hle. constructor; [ constructor; assumption | ].
      constructor; [ exact Hle | ].
      eapply Forall_impl; [ | exact Hx ]. unfold by_date. intros y Hy. lia.
    + apply Z.leb_gt in Hle. constructor; [ exact IH | ].
      apply Forall_forall. intros y Hy. apply insert_by_date_In in Hy.
      destruct Hy as [-> | Hy].
      * unfold by_date. lia.
      * rewrite Forall_forall in Hx. apply Hx. exact Hy.
Qed.

Lemma sort_by_date_sorted (l : list Show.Doc) : StronglySorted by_date (sort_by_date l).
Proof.
  unfold sort_by_date. induction l as [ | x l IH ]; simpl.
  - constructor.
  - apply insert_by_date_sorted. exact IH.
Qed.

Lemma sorted_after (l1 l2 : list Show.Doc) (s s' : Show.Doc) :
  StronglySorted by_date (l1 ++ s :: l2) -> In s' l2 -> by_date s s'.
Proof.
  induction l1 as [ | x l1 IH ]; simpl; intros Hsorted Hin.
  - inversion Hsorted as [ | ? ? _ Hall ]; subst.
    rewrite Forall_forall in Hall. apply Hall. exact Hin.
  - inversion Hsorted; subst. apply IH; assumption.
Qed.

(** The order of the list of [getShows]. *)
Lemma getShows_order (env : Env) (w : World) :
  db_fault env ShowFindPopulate = None ->
  exists l,
    getShows env w = (w, inl (res_json (Shows l))) /\
    forall l1 l2 m m',
      l = l1 ++ Some m :: l2 -> In (Some m') l2 ->
      exists s, In s (shows w) /\ (now env <= Show.showDateTime s)%Z /\
                Show.movie s = Movie._id m /\
                forall s', In s' (shows w) -> (now env <= Show.showDateTime s')%Z ->
                           Show.movie s' = Movie._id m' ->
                           (Show.showDateTime s <= Show.showDateTime s')%Z.
Proof.
  intros Hdb. rewrite (getShows_run env w Hdb). cbv zeta.
  set (found := sort_by_date (filter (fun s => (now env <=? Show.showDateTime s)%Z) (shows w))).
  set (fetched := fst (populate_shared (movies w) found)).
  set (key := fun s => index_of (refers_to s) fetched).
  rewrite Set_from_first_occurrences.
  eexists. split; [ reflexivity | ].
  intros l1 l2 m m' Hsplit Hm'.
  apply map_eq_app in Hsplit. destruct Hsplit as [s1 [s2' [Hset [_ Hs2']]]].
  destruct s2' as [ | ra s2 ]; [ discriminate | ].
  simpl in Hs2'. injection Hs2' as Hra Hs2.
  rewrite <- Hs2 in Hm'. apply in_map_iff in Hm'. destruct Hm' as [rb [Hrb Hin_rb]].
  destruct ra as [a | ]; [ | discriminate ].
  destruct rb as [b | ]; [ | discriminate ].
  simpl in Hra, Hrb.
  destruct (first_occurrences_before _ _ _ _ _ Hset Hin_rb) as [r1 [r2 [Hrefs Hnot]]].
  apply map_eq_app in Hrefs. destruct Hrefs as [f1 [f2' [Hfound [Hr1 Hf2']]]].
  destruct f2' as [ | s f2 ]; [ discriminate | ].
  simpl in Hf2'. injection Hf2' as Hkey _.
  assert (Hs : In s found) by (rewrite Hfound; apply in_or_app; right; left; reflexivity).
  assert (Hupcoming : forall x, In x found <->
            In x (shows w) /\ (now env <= Show.showDateTime x)%Z).
  { intros x. unfold found. rewrite sort_by_date_In, filter_In, Z.leb_le. reflexivity. }
  exists s. apply Hupcoming in Hs. destruct Hs as [Hstored Hnow].
  split; [ exact Hstored | ]. split; [ exact Hnow | ]. split.
  - destruct (index_of_Some _ _ _ Hkey) as [x [Hx Hrefers]].
    rewrite Hra in Hx. injection Hx as <-.
    unfold refers_to in Hrefers. apply JsVal_eqb_eq in Hrefers. congruence.
  - intros s' Hstored' Hnow' Hof.
    assert (Hs' : In s' found) by (apply Hupcoming; auto).
    assert (Hkey' : key s' = Some b).
    { assert (Hsrc : In (Some b) (map key found)).
      { pose proof (proj2 (Set_from_spec (map key found))) as Hin.
        apply Hin. rewrite Set_from_first_occurrences, Hset.
        apply in_or_app. right. right. exact Hin_rb. }
      apply in_map_iff in Hsrc. destruct Hsrc as [s'' [Hkey'' _]].
      destruct (index_of_Some _ _ _ Hkey'') as [x [Hx Hrefers]].
      rewrite Hrb in Hx. injection Hx as <-.
      unfold refers_to in Hrefers. apply JsVal_eqb_eq in Hrefers.
      unfold key. rewrite <- Hkey''. apply index_of_ext.
      intros y. unfold refers_to. congruence. }
    rewrite Hfound in Hs'. apply in_app_or in Hs'. destruct Hs' as [Hin1 | [Heq | Hin2]].
    + exfalso. apply Hnot. rewrite <- Hr1, <- Hkey'.
      apply (in_map key). exact Hin1.
    + subst s'. lia.
    + apply (sorted_after f1 f2 s s'); [ | exact Hin2 ].
      rewrite <- Hfound. apply sort_by_date_sorted.
Qed.

(** X19: the movies of [getShows] come in the order of their next show:
    a movie that precedes another in the list has an upcoming show that
    is not later than any upcoming show of the other. *)
Theorem getShows_ordered_by_next_show (env : Env) (w : World) :
  db_fault env ShowFindPopulate = None ->
  exists l,
    getShows env w = (w, inl (res_json (Shows l))) /\
    forall l1 l2 m m',
      l = l1 ++ Some m :: l2 -> In (Some m') l2 ->
      exists s, In s (shows w) /\ (now env <= Show.showDateTime s)%Z /\
                Show.movie s = Movie._id m /\
                forall s', In s' (shows w) -> (now env <= Show.showDateTime s')%Z ->
                           Show.movie s' = Movie._id m' ->
                           (Show.showDateTime s <= Show.showDateTime s')%Z.
Proof. apply getShows_order. Qed.

(** Two movies: the one whose first show is earlier comes first. *)
Lemma getShows_ordered_by_next_show_witness :
  exists m m',
    getShows Sample.env_up Scenario.two_movies
    = (Scenario.two_movies, inl (res_json (Shows [Some m; Some m']))) /\
    Movie._id m = JStr "tt1" /\ Movie._id m' = JStr "tt2".
Proof.
  destruct (getShows_ordered_by_next_show Sample.env_up Scenario.two_movies eq_refl)
    as [l [Hl _]].
  vm_compute in Hl. injection Hl as <-.
  eexists. eexists. split; [ vm_compute; reflexivity | split; reflexivity ].
Defined.

(** ** [getShow]: one bucket per UTC day *)

Lemma date_string_of_day (t1 t2 : Z) :
  DateTime.Day t1 = DateTime.Day t2 -> DateTime.date_string t1 = DateTime.date_string t2.
Proof.
  intros H.
  unfold DateTime.date_string, DateTime.MonthFromTime, DateTime.DateFromTime,
    DateTime.MonthFromTime, DateTime.InLeapYear, DateTime.DayWithinYear, DateTime.YearFromTime.
  rewrite H. reflexivity.
Qed.

(** The years of the dates a Date can hold. *)
Lemma YearFromTime_bound (t : Z) :
  valid_time t -> (-271821 <= DateTime.YearFromTime t <= 275760)%Z.
Proof.
  intros [Hlo Hhi]. pose proof (YearFromTime_spec t) as Hy.
  assert (Hd : (-100000000 <= DateTime.Day t <= 100000000)%Z).
  { unfold DateTime.Day, DateTime.msPerDay. Z.div_mod_to_equations. lia. }
  unfold DateTime.DayFromYear in Hy.
  Z.div_mod_to_equations; lia.
Qed.

Lemma digit_inj (a b : Z) :
  (0 <= a <= 9)%Z -> (0 <= b <= 9)%Z -> DateTime.digit a = DateTime.digit b -> a = b.
Proof.
  intros Ha Hb H.
  assert (Ca : (a = 0 \/ a = 1 \/ a = 2 \/ a = 3 \/ a = 4 \/ a = 5 \/ a = 6 \/ a = 7
               \/ a = 8 \/ a = 9)%Z) by lia.
  assert (Cb : (b = 0 \/ b = 1 \/ b = 2 \/ b = 3 \/ b = 4 \/ b = 5 \/ b = 6 \/ b = 7
               \/ b = 8 \/ b = 9)%Z) by lia.
  repeat (destruct Ca as [-> | Ca]); try subst a;
    repeat (destruct Cb as [-> | Cb]); try subst b;
    simpl in H; try discriminate; reflexivity.
Qed.

Lemma digit_mod_inj (a b : Z) :
  DateTime.digit (a mod 10) = DateTime.digit (b mod 10) -> (a mod 10 = b mod 10)%Z.
Proof.
  apply digit_inj;
    [ pose proof (Z.mod_pos_bound a 10) | pose proof (Z.mod_pos_bound b 10) ]; lia.
Qed.

Lemma digit_not_sign (d : Z) :
  DateTime.digit d <> "-"%char /\ DateTime.digit d <> "+"%char.
Proof.
  pose proof (digit_cases d) as H. simpl in H.
  repeat (destruct H as [<- | H]; [ split; discriminate | ]). destruct H.
Qed.

Lemma DayWithinYear_from_date (t : Z) :
  (DateTime.DayWithinYear t
   = month_start (DateTime.MonthFromTime t) (DateTime.InLeapYear t)
     + DateTime.DateFromTime t - 1)%Z.
Proof.
  unfold DateTime.DateFromTime, DateTime.MonthFromTime. cbv zeta.
  repeat match goal with
         | |- context [if ?c then _ else _] => destruct c
         end; cbn [month_start]; lia.
Qed.

(** Within the range of a Date, the date part of [toISOString] tells the
    days apart. *)
Lemma date_string_inj (t1 t2 : Z) :
  valid_time t1 -> valid_time t2 ->
  DateTime.date_string t1 = DateTime.date_string t2 ->
  DateTime.Day t1 = DateTime.Day t2.
Proof.
  intros Hv1 Hv2 Heq.
  pose proof (YearFromTime_bound t1 Hv1) as Hy1.
  pose proof (YearFromTime_bound t2 Hv2) as Hy2.
  pose proof (MonthFromTime_range t1) as Hm1.
  pose proof (MonthFromTime_range t2) as Hm2.
  pose proof (DateFromTime_range t1) as Hd1.
  pose proof (DateFromTime_range t2) as Hd2.
  assert (Hparts : DateTime.YearFromTime t1 = DateTime.YearFromTime t2 /\
                   DateTime.MonthFromTime t1 = DateTime.MonthFromTime t2 /\
                   DateTime.DateFromTime t1 = DateTime.DateFromTime t2).
  { unfold DateTime.date_string, DateTime.year_string in Heq.
    set (y1 := DateTime.YearFromTime t1) in *. set (y2 := DateTime.YearFromTime t2) in *.
    set (m1 := DateTime.MonthFromTime t1) in *. set (m2 := DateTime.MonthFromTime t2) in *.
    set (d1 := DateTime.DateFromTime t1) in *. set (d2 := DateTime.DateFromTime t2) in *.
    clearbody y1 y2 m1 m2 d1 d2.
    destruct ((0 <=? y1) && (y1 <=? 9999))%Z eqn:R1;
      [ | destruct (y1 <? 0)%Z eqn:N1 ];
      (destruct ((0 <=? y2) && (y2 <=? 9999))%Z eqn:R2;
         [ | destruct (y2 <? 0)%Z eqn:N2 ]);
      unfold DateTime.pad6, DateTime.pad4, DateTime.pad3, DateTime.pad2 in Heq;
      cbn [append] in Heq; injection Heq; intros;
      repeat match goal with
             | H : DateTime.digit _ = "-"%char |- _ =>
                 exfalso; exact (proj1 (digit_not_sign _) H)
             | H : "-"%char = DateTime.digit _ |- _ =>
                 exfalso; exact (proj1 (digit_not_sign _) (eq_sym H))
             | H : DateTime.digit _ = "+"%char |- _ =>
                 exfalso; exact (proj2 (digit_not_sign _) H)
             | H : "+"%char = DateTime.digit _ |- _ =>
                 exfalso; exact (proj2 (digit_not_sign _) (eq_sym H))
             | H : DateTime.digit (_ mod 10) = DateTime.digit (_ mod 10) |- _ =>
                 apply digit_mod_inj in H
             end;
      rewrite ?andb_true_iff, ?andb_false_iff, ?Z.leb_le, ?Z.leb_gt, ?Z.ltb_lt, ?Z.ltb_ge in *;
      try (Z.div_mod_to_equations; lia). }
  destruct Hparts as [Hy [Hm Hd]].
  assert (Hw : DateTime.DayWithinYear t1 = DateTime.DayWithinYear t2).
  { rewrite !DayWithinYear_from_date. unfold DateTime.InLeapYear.
    rewrite Hy, Hm, Hd. reflexivity. }
  unfold DateTime.DayWithinYear in Hw. rewrite Hy in Hw. lia.
Qed.

(** X20: with both queries answered, two upcoming shows of the movie
    whose date-times a Date can hold are put into the same bucket exactly
    when they fall on the same UTC day, the day being the whole number of
    86400000 ms periods since the epoch. *)
Theorem getShow_same_bucket_iff_same_day (env : Env) (movieId : string) (w : World)
  (s1 s2 : Show.Doc) :
  db_fault env ShowFind = None ->
  db_fault env MovieFindById = None ->
  In s1 (upcoming_of env movieId w) ->
  In s2 (upcoming_of env movieId w) ->
  valid_time (Show.showDateTime s1) ->
  valid_time (Show.showDateTime s2) ->
  exists movie dateTime,
    getShow env movieId w = (w, inl (res_json (Showtimes movie dateTime))) /\
    ((exists k b, In (k, b) dateTime /\ In (slot_of s1) b /\ In (slot_of s2) b) <->
     DateTime.Day (Show.showDateTime s1) = DateTime.Day (Show.showDateTime s2)).
Proof.
  intros Hfind Hmovie Hin1 Hin2 Hv1 Hv2.
  destruct (getShow_grouped env movieId w Hfind Hmovie) as [dateTime [Hrun [Hnd Hbuckets]]].
  eexists. exists dateTime. split; [ exact Hrun | ].
  assert (Hkey : forall k b s, In (k, b) dateTime -> In (slot_of s) b ->
                   k = DateTime.date_string (Show.showDateTime s)).
  { intros k b s Hkb Hslot.
    apply (In_own_bucket _ _ _ Hnd) in Hkb. rewrite Hbuckets in Hkb.
    apply bucket_for_Some in Hkb. subst b.
    apply in_map_iff in Hslot. destruct Hslot as [s' [Hs' Hon]].
    apply filter_In in Hon. destruct Hon as [_ Hk]. apply String.eqb_eq in Hk.
    unfold slot_of in Hs'. injection Hs' as Ht _. congruence. }
  split.
  - intros [k [b [Hkb [Hb1 Hb2]]]].
    apply date_string_inj; [ exact Hv1 | exact Hv2 | ].
    rewrite <- (Hkey k b s1 Hkb Hb1), <- (Hkey k b s2 Hkb Hb2). reflexivity.
  - intros Hday. apply date_string_of_day in Hday.
    exists (DateTime.date_string (Show.showDateTime s1)).
    eexists. split; [ | split ].
    + apply own_bucket_In. rewrite Hbuckets. apply bucket_for_member. exact Hin1.
    + apply in_map. apply filter_In. split; [ exact Hin1 | apply String.eqb_refl ].
    + apply in_map. apply filter_In. split; [ exact Hin2 | ].
      apply String.eqb_eq. symmetry. exact Hday.
Qed.

(** The shows of 10:00 and of 14:00 on the first of May share a bucket;
    the show of the second of May is in another. *)
Lemma getShow_same_bucket_iff_same_day_witness :
  exists movie dateTime,
    getShow Sample.env_up "tt1" Sample.stocked
    = (Sample.stocked, inl (res_json (Showtimes movie dateTime))) /\
    exists k b, In (k, b) dateTime /\
                In (mkSlot 1714557600000 0) b /\ In (mkSlot 1714572000000 1) b.
Proof.
  destruct (getShow_same_bucket_iff_same_day Sample.env_up "tt1" Sample.stocked
              (Show.mkDoc 0 (JStr "tt1") 1714557600000 (JNum 200) [])
              (Show.mkDoc 1 (JStr "tt1") 1714572000000 (JNum 200) []))
    as [movie [dateTime [Hrun [_ Hsame]]]].
  - reflexivity.
  - reflexivity.
  - left. reflexivity.
  - right. left. reflexivity.
  - unfold valid_time. simpl. lia.
  - unfold valid_time. simpl. lia.
  - exists movie, dateTime. split; [ exact Hrun | ].
    apply Hsame. reflexivity.
Defined.

(** ** The shows and their movies *)

(** Whatever the request, every show [addShow] builds refers to the
    movie of the request. *)
Lemma expand_movie (env : Env) (movieId showsInput showPrice : JsVal)
  (batch : list Show.Init) :
  expand env movieId showsInput showPrice = inl batch ->
  Forall (fun i => Show.init_movie i = movieId) batch.
Proof.
  unfold expand. destruct (forEach_receiver "showsInput" showsInput) as [vs | e];
    simpl; [ | discriminate ].
  apply forEach_invariant; [ | constructor ].
  intros v acc acc' Hacc. unfold expand_entry.
  destruct (get_prop v "date") as [d | e]; simpl; [ | discriminate ].
  destruct (get_prop v "time") as [t | e]; simpl; [ | discriminate ].
  destruct (forEach_receiver "show.time" t) as [ts | e]; simpl; [ | discriminate ].
  apply forEach_invariant; [ | exact Hacc ].
  intros x a a' Ha. unfold push_show.
  destruct (dateTimeString d x) as [str | e]; simpl; [ | discriminate ].
  intros Heq. injection Heq as <-.
  apply Forall_app. split; [ exact Ha | ].
  constructor; [ reflexivity | constructor ].
Qed.

Lemma addShow_movies_grow (env : Env) (body : AddShowBody) (w : World) (m : Movie.Doc) :
  In m (movies w) -> In m (movies (fst (addShow env body w))).
Proof.
  intros Hm.
  assert (Hstep : In m (movies (fst (ensure_movie env (movieId body) w)))).
  { destruct (ensure_movie_cases env (movieId body) w) as [H | [m' [H _]]]; rewrite H.
    - exact Hm.
    - apply in_or_app. left. exact Hm. }
  destruct (addShow_world env body w) as [H | [H | [docs H]]]; rewrite H.
  - exact Hm.
  - exact Hstep.
  - exact Hstep.
Qed.

(** The shows a call adds refer to the movie of the request, which is
    stored when the call has got as far as adding one. *)
Lemma addShow_created_refer (env : Env) (body : AddShowBody) (w : World) :
  exists created,
    shows (fst (addShow env body w)) = shows w ++ created /\
    Forall (fun d => Show.movie d = movieId body) created /\
    (created <> [] -> stored (fst (addShow env body w)) (movieId body)).
Proof.
  rewrite addShow_stages.
  destruct (negb (passes_validation body)).
  { exists []. simpl. rewrite app_nil_r. repeat split; [ constructor | congruence ]. }
  destruct (ensure_movie_frame env (movieId body) w) as [Hshows [_ _]].
  pose proof (ensure_movie_returns_stored env (movieId body) w) as Hret.
  destruct (ensure_movie env (movieId body) w) as [w1 [m | e]]; simpl in Hshows, Hret.
  2: { exists []. simpl. rewrite app_nil_r. repeat split; [ auto | constructor | congruence ]. }
  specialize (Hret m eq_refl).
  destruct (expand env (movieId body) (showsInput body) (showPrice body))
    as [batch | e] eqn:Hexp.
  2: { exists []. simpl. rewrite app_nil_r. repeat split; [ auto | constructor | congruence ]. }
  destruct (0 <? List.length batch)%nat.
  2: { exists []. simpl. rewrite app_nil_r. repeat split; [ auto | constructor | congruence ]. }
  rewrite Show_insertMany_run.
  destruct (Show_cast_batch batch (next_oid w1)) as [docs | e] eqn:Hcast.
  2: { exists []. simpl. rewrite app_nil_r. repeat split; [ auto | constructor | congruence ]. }
  assert (Hdocs : Forall (fun d => Show.movie d = movieId body) docs).
  { apply Show_cast_batch_saved in Hcast. apply expand_movie in Hexp.
    clear - Hcast Hexp.
    induction Hcast as [ | i d batch docs [Hd _] _ IH ]; constructor.
    - inversion Hexp; subst. congruence.
    - apply IH. inversion Hexp; assumption. }
  destruct (db_fault env ShowInsertMany).
  - exists (firstn (insert_kept env) docs). simpl. split; [ congruence | ]. split.
    + rewrite Forall_forall in *. intros d Hd. apply Hdocs. apply (In_firstn _ _ _ Hd).
    + intros _. exact Hret.
  - exists docs. simpl. split; [ congruence | ]. split; [ exact Hdocs | ].
    intros _. exact Hret.
Qed.

Lemma addShow_created_stored (env : Env) (body : AddShowBody) (w : World) :
  refs_resolve w -> refs_resolve (fst (addShow env body w)).
Proof.
  intros Hres s Hs.
  destruct (addShow_created_refer env body w) as [created [Hshows [Hrefer Hstored]]].
  rewrite Hshows in Hs. apply in_app_or in Hs. destruct Hs as [Hold | Hnew].
  - destruct (Hres s Hold) as [m [Hm Hid]].
    exists m. split; [ apply addShow_movies_grow; exact Hm | exact Hid ].
  - rewrite Forall_forall in Hrefer. rewrite (Hrefer s Hnew).
    apply Hstored. intros ->. destruct Hnew.
Qed.

(** X21: [addShow] keeps the references of the shows resolved: when every
    stored show refers to a stored movie, so does every stored show after
    the call, whatever the request and whatever the provider and the
    storage layer do. *)
Theorem addShow_keeps_references_resolved (env : Env) (body : AddShowBody) (w : World) :
  refs_resolve w -> refs_resolve (fst (addShow env body w)).
Proof. apply addShow_created_stored. Qed.

(** From the empty store: the two shows added refer to the movie that was
    fetched for them. *)
Lemma addShow_keeps_references_resolved_witness :
  refs_resolve (fst (addShow Sample.env_up Sample.body Sample.empty)).
Proof.
  apply addShow_keeps_references_resolved. intros s [].
Defined.

(** X22: with the query answered, the list of [getShows] holds the entry
    null exactly when some stored show with a date-time of now or later
    refers to a movie that is not stored. *)
Theorem getShows_null_iff_dangling (env : Env) (w : World) :
  db_fault env ShowFindPopulate = None ->
  exists l,
    getShows env w = (w, inl (res_json (Shows l))) /\
    (In None l <->
     exists s, In s (shows w) /\ (now env <= Show.showDateTime s)%Z /\
               ~ stored w (Show.movie s)).
Proof.
  intros Hdb. rewrite (getShows_run env w Hdb). cbv zeta.
  set (found := sort_by_date (filter (fun s => (now env <=? Show.showDateTime s)%Z) (shows w))).
  set (fetched := fst (populate_shared (movies w) found)).
  set (refs := map (fun s => index_of (refers_to s) fetched) found).
  destruct (Set_from_spec refs) as [_ Hin].
  eexists. split; [ reflexivity | ].
  assert (Hfound : forall s, In s found <->
                     In s (shows w) /\ (now env <= Show.showDateTime s)%Z).
  { intros s. unfold found. rewrite sort_by_date_In, filter_In, Z.leb_le. reflexivity. }
  assert (Hfetched : forall s m, In s found -> In m (movies w) ->
                       Movie._id m = Show.movie s -> In m fetched).
  { intros s m Hs Hm Hid. unfold fetched, populate_shared. simpl.
    apply filter_In. split; [ exact Hm | ].
    apply existsb_exists. exists s. split; [ exact Hs | ].
    unfold refers_to. apply JsVal_eqb_eq. exact Hid. }
  split.
  - intros Hnull. apply in_map_iff in Hnull. destruct Hnull as [r [Hr Href]].
    apply Hin in Href. unfold refs in Href. apply in_map_iff in Href.
    destruct Href as [s [Hs Hsfound]].
    exists s. apply Hfound in Hsfound as Hsw. destruct Hsw as [Hstored Hnow].
    split; [ exact Hstored | ]. split; [ exact Hnow | ].
    destruct (index_of (refers_to s) fetched) as [a | ] eqn:Hidx.
    + destruct (index_of_Some _ _ _ Hidx) as [m [Hm _]].
      subst r. simpl in Hr. congruence.
    + intros [m [Hm Hid]].
      pose proof (index_of_None _ _ Hidx m (Hfetched s m Hsfound Hm Hid)) as Hno.
      unfold refers_to in Hno. apply JsVal_eqb_neq in Hno. contradiction.
  - intros [s [Hstored [Hnow Hdangling]]].
    assert (Hsfound : In s found) by (apply Hfound; auto).
    apply in_map_iff. exists None. split; [ reflexivity | ].
    apply Hin. unfold refs. apply in_map_iff. exists s. split; [ | exact Hsfound ].
    destruct (index_of (refers_to s) fetched) as [a | ] eqn:Hidx; [ | reflexivity ].
    exfalso. apply Hdangling.
    destruct (index_of_Some _ _ _ Hidx) as [m [Hm Hrefers]].
    exists m. split.
    + apply nth_error_In in Hm. unfold fetched, populate_shared in Hm. simpl in Hm.
      apply filter_In in Hm. apply Hm.
    + apply JsVal_eqb_eq. exact Hrefers.
Qed.

(** The stocked store has no dangling reference: no null is listed. *)
Lemma getShows_null_iff_dangling_witness :
  exists l,
    getShows Sample.env_up Sample.stocked = (Sample.stocked, inl (res_json (Shows l))) /\
    ~ In None l.
Proof.
  destruct (getShows_null_iff_dangling Sample.env_up Sample.stocked eq_refl)
    as [l [Hrun Hnull]].
  exists l. split; [ exact Hrun | ].
  intros H. apply Hnull in H. destruct H as [s [Hs [_ Hdangling]]].
  apply Hdangling.
  assert (Hres : refs_resolve Sample.stocked).
  { apply addShow_created_stored. intros s' []. }
  exact (Hres s Hs).
Defined.

(** ** [addShow], then [getShow] *)

Lemma addShow_success_stored (env : Env) (body : AddShowBody) (w : World) :
  snd (addShow env body w) = inl added ->
  stored (fst (addShow env body w)) (movieId body).
Proof.
  intros Hok. destruct (passes_validation body) eqn:Hpass.
  - destruct (addShow_after_movie_step env body w Hpass) as [Hmovies _].
    rewrite addShow_stages, Hpass in Hok. simpl negb in Hok. cbv iota in Hok.
    pose proof (ensure_movie_returns_stored env (movieId body) w) as Hret.
    destruct (ensure_movie env (movieId body) w) as [w1 [m | e]]; [ | discriminate ].
    destruct (Hret m eq_refl) as [m' [Hin Hid]]. simpl in Hin.
    exists m'. rewrite Hmovies. simpl. auto.
  - rewrite addShow_stages, Hpass in Hok. discriminate.
Qed.

(** X23: what [addShow] has added, [getShow] finds: after a call for the
    identifier [id] that was answered with success, a later [getShow] for
    [id] whose queries are answered returns a movie with that identifier,
    and every show the call added that is not yet past at the time of the
    query has its entry in the bucket of its date. *)
Theorem addShow_then_getShow (env env' : Env) (body : AddShowBody) (w : World)
  (id : string) :
  snd (addShow env body w) = inl added ->
  movieId body = JStr id ->
  db_fault env' ShowFind = None ->
  db_fault env' MovieFindById = None ->
  exists created m dateTime,
    shows (fst (addShow env body w)) = shows w ++ created /\
    getShow env' id (fst (addShow env body w))
    = (fst (addShow env body w), inl (res_json (Showtimes (Some m) dateTime))) /\
    Movie._id m = JStr id /\
    forall s, In s created -> (now env' <= Show.showDateTime s)%Z ->
      exists b, In (DateTime.date_string (Show.showDateTime s), b) dateTime /\
                In (slot_of s) b.
Proof.
  intros Hok Hid Hfind Hmovie.
  destruct (addShow_created_refer env body w) as [created [Hshows [Hrefer _]]].
  pose proof (addShow_success_stored env body w Hok) as Hstored. rewrite Hid in Hstored.
  destruct (getShow_grouped env' id (fst (addShow env body w)) Hfind Hmovie)
    as [dateTime [Hrun [_ Hbuckets]]].
  destruct (find_stored _ _ Hstored) as [m Hm].
  rewrite Hm in Hrun.
  exists created, m, dateTime. split; [ exact Hshows | ]. split; [ exact Hrun | ]. split.
  - apply find_some in Hm. destruct Hm as [_ Hm]. apply JsVal_eqb_eq. exact Hm.
  - intros s Hs Hnow.
    assert (Hup : In s (upcoming_of env' id (fst (addShow env body w)))).
    { unfold upcoming_of. apply filter_In. split.
      - rewrite Hshows. apply in_or_app. right. exact Hs.
      - rewrite Forall_forall in Hrefer. rewrite (Hrefer s Hs), Hid.
        rewrite JsVal_eqb_refl. apply Z.leb_le. exact Hnow. }
    eexists. split.
    + apply own_bucket_In. rewrite Hbuckets. apply bucket_for_member. exact Hup.
    + apply in_map. apply filter_In. split; [ exact Hup | apply String.eqb_refl ].
Qed.

(** The request of the scenario, then the query: the movie is returned
    and the date of the first of May holds the two shows of that day. *)
Lemma addShow_then_getShow_witness :
  exists created m dateTime,
    shows (fst (addShow Sample.env_up Sample.body Sample.empty)) = created /\
    getShow Sample.env_up "tt1" (fst (addShow Sample.env_up Sample.body Sample.empty))
    = (fst (addShow Sample.env_up Sample.body Sample.empty),
       inl (res_json (Showtimes (Some m) dateTime))) /\
    Movie._id m = JStr "tt1" /\
    forall s, In s created -> (1714000000000 <= Show.showDateTime s)%Z ->
      exists b, In (DateTime.date_string (Show.showDateTime s), b) dateTime /\
                In (slot_of s) b.
Proof.
  destruct (addShow_then_getShow Sample.env_up Sample.env_up Sample.body Sample.empty "tt1")
    as [created [m [dateTime [Hshows [Hrun [Hid Hlisted]]]]]].
  - reflexivity.
  - reflexivity.
  - reflexivity.
  - reflexivity.
  - exists created, m, dateTime. auto.
Defined.

(** ** The causes of a provider failure *)

(** X24: the message [makeTmdbRequest] throws tells the three causes
    apart: two rejections whose normalized errors have the same message
    are of the same cause (the provider responded with an error status,
    no response was received, or the request was not sent). *)
Theorem tmdb_failure_tells_cause (e1 e2 : Retry.AxiosError) :
  exn_message (tmdb_failure e1) = exn_message (tmdb_failure e2) ->
  cause e1 = cause e2.
Proof.
  unfold tmdb_failure, cause.
  destruct (Retry.response e1) as [r1 | ], (Retry.response e2) as [r2 | ];
    [ reflexivity | | | ].
  - cbv zeta.
    destruct (ToString (js_or (optional_prop (Retry.data r1) "status_message")
                              (JStr "Unknown error")));
      destruct (Retry.request e2); simpl; discriminate.
  - cbv zeta.
    destruct (ToString (js_or (optional_prop (Retry.data r2) "status_message")
                              (JStr "Unknown error")));
      destruct (Retry.request e1); simpl; discriminate.
  - destruct (Retry.request e1), (Retry.request e2); simpl;
      try reflexivity; discriminate.
Qed.

(** Two refusals with the message of a 503 reply: both are of the cause
    that the provider responded. *)
Lemma tmdb_failure_tells_cause_witness :
  cause Sample.unavailable
  = cause (Retry.mkAxiosError None (Some (Retry.mkResponse 503 (JObj []))) false "reset").
Proof.
  apply tmdb_failure_tells_cause. reflexivity.
Defined.
